(** * MWgaldust.c: the reduced FITS engine and the Lambert map sampler

    A shallow embedding of the FITS card store, the binary data layer and
    the sky-to-pixel projection of [src/MWgaldust.c], followed by the
    properties established about them.

    Modelling conventions.
    - A [uchar] is an [ascii]; a C buffer is a [list uchar].  Reading a C
      string stops at its first NUL, and the end of a list reads as the
      terminating NUL.
    - A header is the list of its 80-byte cards; [nHead] is its length.
    - C integers are [Z].  Nothing in the properties below depends on
      wrap-around, and overflow of [int]/[long] is outside the model.
    - [float] and [double] arithmetic is idealised by exact arithmetic:
      card values are rationals ([Q]), projection arithmetic is done in
      [R] with [sin], [cos], [sqrt] of the standard library.  Rounding
      error is therefore outside the model.
    - [malloc] always succeeds and returns a buffer with unspecified
      contents ([malloc_junk]). *)

From Stdlib Require Import ZArith List Ascii String Bool Lia.
From Stdlib Require Import QArith Qround Qabs Qpower Reals Lra Lqa Qreals.
From stdpp Require Import base list.

Local Open Scope Z_scope.

Ltac rlra := Lra.lra.

(** ** C characters and strings *)

Definition uchar := ascii.
Definition cbuf := list uchar.

Definition NUL : uchar := "000"%char.
Definition BLANK : uchar := " "%char.
Definition QUOTE : uchar := "'"%char.
Definition NEWLINE : uchar := "010"%char.

(** A string literal of the source, without its terminator. *)
Definition lit (s : string) : cbuf := list_ascii_of_string s.

Definition code (c : uchar) : Z := Z.of_N (N_of_ascii c).

(** [s[i]], the terminator being read past the end of the text. *)
Definition at_ (s : cbuf) (i : nat) : uchar := nth i s NUL.

(** [strlen]: the number of bytes before the first NUL. *)
Fixpoint strlen (s : cbuf) : nat :=
  match s with
  | [] => O
  | c :: s' => if Ascii.eqb c NUL then O else S (strlen s')
  end.

(** The C string held in a buffer: its bytes up to the first NUL. *)
Definition cstr (s : cbuf) : cbuf := take (strlen s) s.

(** [strncmp(s1, s2, n)]: zero when the first [n] bytes agree, or agree up
    to a NUL common to both; otherwise the difference of the first two
    bytes that differ, as unsigned chars. *)
Fixpoint strncmp (s1 s2 : cbuf) (n : nat) : Z :=
  match n with
  | O => 0
  | S n' =>
      let c1 := at_ s1 0 in
      let c2 := at_ s2 0 in
      if Ascii.eqb c1 c2
      then if Ascii.eqb c1 NUL then 0 else strncmp (tl s1) (tl s2) n'
      else code c1 - code c2
  end.

Definition strcmp (s1 s2 : cbuf) : Z :=
  strncmp s1 s2 (S (Nat.max (length s1) (length s2))).

(** [toupper] in the C locale. *)
Definition toupper (c : uchar) : uchar :=
  if (97 <=? code c) && (code c <=? 122)
  then ascii_of_N (Z.to_N (code c - 32))
  else c.

(** [isspace] in the C locale. *)
Definition isspace (c : uchar) : bool :=
  (code c =? 32) || ((9 <=? code c) && (code c <=? 13)).

Definition isdigit (c : uchar) : bool := (48 <=? code c) && (code c <=? 57).

(** ** Constants of the source *)

Definition TRUE_MWDUST : Z := 1.
Definition FALSE_MWDUST : Z := 0.

Definition Label_bitpix := lit "BITPIX  ".
Definition Label_bscale := lit "BSCALE  ".
Definition Label_bzero := lit "BZERO   ".
Definition Label_ctype1 := lit "CTYPE1  ".
Definition Label_ctype2 := lit "CTYPE2  ".
Definition Label_cdelt1 := lit "CDELT1  ".
Definition Label_cdelt2 := lit "CDELT2  ".
Definition Label_cd1_1 := lit "CD1_1   ".
Definition Label_cd1_2 := lit "CD1_2   ".
Definition Label_cd2_1 := lit "CD2_1   ".
Definition Label_cd2_2 := lit "CD2_2   ".
Definition Label_lonpole := lit "LONPOLE ".
Definition Label_crpix1 := lit "CRPIX1  ".
Definition Label_crpix2 := lit "CRPIX2  ".
Definition Label_crval1 := lit "CRVAL1  ".
Definition Label_crval2 := lit "CRVAL2  ".
Definition Label_empty := lit "        ".
Definition Label_end := lit "END     ".
Definition Label_naxis := lit "NAXIS   ".
Definition Label_naxis1 := lit "NAXIS1  ".
Definition Label_naxis2 := lit "NAXIS2  ".
Definition Label_lam_nsgp := lit "LAM_NSGP".
Definition Label_lam_scal := lit "LAM_SCAL".

Definition Card_empty : cbuf := repeat BLANK 80.
Definition Card_end : cbuf := lit "END" ++ repeat BLANK 77.

(** ** The card store *)

Definition card := cbuf.
Definition header := list card.

Definition nHead (h : header) : Z := Z.of_nat (length h).

(** Every card of a header in memory is an 80-byte record. *)
Definition wf_header (h : header) : Prop := Forall (fun c => length c = 80%nat) h.

(** [fits_string_to_card_]: the first 80 bytes at [pString]; from the first
    NUL or newline on, blanks; the 8 label bytes in upper case.  Bytes past
    the end of the given text are never looked at before being blanked,
    since the text's terminator comes first. *)
Fixpoint blank_from_null (s : cbuf) (n : nat) (qNull : bool) : cbuf :=
  match n with
  | O => []
  | S n' =>
      let c := at_ s 0 in
      let qNull' := qNull || Ascii.eqb c NUL || Ascii.eqb c NEWLINE in
      (if qNull' then BLANK else c) :: blank_from_null (tl s) n' qNull'
  end.

Definition fits_string_to_card_ (pString : cbuf) : card :=
  let pCard := blank_from_null pString 80 false in
  map toupper (take 8 pCard) ++ drop 8 pCard.

(** The scan shared by [fits_find_card_] and the [fits_get_card_*]
    accessors: the index of the first card, from [iCard] on, on which
    [strncmp(pLabel, card, 8)] is zero. *)
Fixpoint scan_cards (pLabel : cbuf) (h : header) (iCard : Z) : Z :=
  match h with
  | [] => iCard
  | c :: h' =>
      if strncmp pLabel c 8 =? 0 then iCard else scan_cards pLabel h' (iCard + 1)
  end.

Definition fits_find_card_ (pLabel : cbuf) (h : header) : Z :=
  if nHead h =? 0 then 0 else scan_cards pLabel h 0.

(** The card at index [iCard]. *)
Definition card_at (h : header) (iCard : Z) : card :=
  nth (Z.to_nat iCard) h [].

(** ** The platform

    What the C source leaves to the machine it runs on: the contents of
    freshly allocated memory, the value of a variable that was never
    assigned, the byte order, the width of [long], and the decoding of
    IEEE-754 bit patterns (as exact real numbers). *)

Section Model.

Set Default Proof Using "Type".

Variable malloc_junk : nat -> uchar.
Variable indet_int : string -> Z.
Variable indet_float : string -> R.
Variable little_endian : bool.
Variable sizeof_long : Z.
Variable float_of_bits : Z -> R.
Variable double_of_bits : Z -> R.

(** [ccalloc_]: [malloc], whose result is not cleared. *)
Definition ccalloc_ (memSize : nat) : cbuf := map malloc_junk (seq 0 memSize).

(** [fits_add_card_]: the new card is written where the END card was and
    the END card is copied one slot forward; with no END card the new card
    is appended.  Only the END card is moved: when it is not the last
    card, the slot after it is overwritten and the slot at the old [nHead]
    (never written) becomes the last card of the header.  The result is
    the new header and the index of the new card. *)
Definition fits_add_card_ (pCard : cbuf) (h : header) : header * Z :=
  let pCardTemp := fits_string_to_card_ pCard in
  let numCardEnd := fits_find_card_ Card_end h in
  if (0 <? nHead h) && (numCardEnd <? nHead h)
  then
    let e := Z.to_nat numCardEnd in
    (take e h ++ pCardTemp :: card_at h numCardEnd ::
       (if numCardEnd + 1 <? nHead h then drop (e + 2) h ++ [ccalloc_ 80] else []),
     numCardEnd)
  else (h ++ [pCardTemp], nHead h).

(** *** Formatted output: the conversions used by the card writers *)

Definition pad_left (w : nat) (s : cbuf) : cbuf := repeat BLANK (w - length s) ++ s.
Definition pad_right (w : nat) (s : cbuf) : cbuf := s ++ repeat BLANK (w - length s).

(** ["%-8.8s"]: at most 8 bytes of the string, left-justified in 8. *)
Definition fmt_label (pLabel : cbuf) : cbuf := pad_right 8 (take 8 (cstr pLabel)).

Definition digit_char (d : Z) : uchar := ascii_of_N (Z.to_N (48 + d)).

(** The decimal digits of a non-negative number, most significant first. *)
Fixpoint udigits (fuel : nat) (n : Z) (acc : cbuf) : cbuf :=
  match fuel with
  | O => acc
  | S fuel' =>
      let acc' := digit_char (n mod 10) :: acc in
      if n / 10 =? 0 then acc' else udigits fuel' (n / 10) acc'
  end.

Definition utoa (n : Z) : cbuf := udigits (S (Z.to_nat (Z.log2 n))) n [].

(** ["%d"]. *)
Definition itoa (v : Z) : cbuf :=
  if v <? 0 then "-"%char :: utoa (- v) else utoa v.

(** ["%20d"]. *)
Definition fmt_d20 (v : Z) : cbuf := pad_left 20 (itoa v).

(** *** Formatted input: the conversions used by the card readers *)

Fixpoint skip_space (s : cbuf) : cbuf :=
  match s with
  | c :: s' => if isspace c then skip_space s' else s
  | [] => []
  end.

(** The longest prefix of decimal digits, read as a number, with the
    number of digits read and the text left over. *)
Fixpoint scan_digits (s : cbuf) (acc : Z) (n : nat) : Z * nat * cbuf :=
  match s with
  | c :: s' => if isdigit c then scan_digits s' (10 * acc + (code c - 48)) (S n)
               else (acc, n, s)
  | [] => (acc, n, [])
  end.

(** An optional sign: [true] for a minus. *)
Definition scan_sign (s : cbuf) : bool * cbuf :=
  match s with
  | c :: s' => if Ascii.eqb c "-"%char then (true, s')
               else if Ascii.eqb c "+"%char then (false, s')
               else (false, s)
  | [] => (false, [])
  end.

(** [sscanf(s, "%d", &v)]: the value stored, or [None] when nothing is
    converted and [v] keeps its old value. *)
Definition sscanf_d (s : cbuf) : option Z :=
  let '(neg, s1) := scan_sign (skip_space s) in
  let '(v, n, _) := scan_digits s1 0 0 in
  if (n =? 0)%nat then None else Some (if neg then - v else v).

(** Powers of ten as rationals. *)
Definition pow10Q (e : Z) : Q := Qpower (10 # 1) e.

(** The exponent part of a decimal floating constant: [e] or [E], an
    optional sign and at least one digit; absent otherwise. *)
Definition scan_exponent (s : cbuf) : Z :=
  match s with
  | c :: s' =>
      if Ascii.eqb c "e"%char || Ascii.eqb c "E"%char then
        let '(neg, s1) := scan_sign s' in
        let '(v, n, _) := scan_digits s1 0 0 in
        if (n =? 0)%nat then 0 else if neg then - v else v
      else 0
  | [] => 0
  end.

(** [sscanf(s, "%f", &v)] on decimal constants, the value read being
    taken exactly.  Texts that spell an infinity, a NaN or a hexadecimal
    constant are not covered: they read as "nothing converted". *)
Definition sscanf_f (s : cbuf) : option Q :=
  let '(neg, s1) := scan_sign (skip_space s) in
  let '(ip, n1, s2) := scan_digits s1 0 0 in
  let '(m, n2, s3) :=
    match s2 with
    | c :: s2' => if Ascii.eqb c "."%char then scan_digits s2' ip 0 else (ip, O, s2)
    | [] => (ip, O, [])
    end in
  if (n1 + n2 =? 0)%nat then None
  else
    let e := scan_exponent s3 in
    let v := (inject_Z m * pow10Q (e - Z.of_nat n2))%Q in
    Some (if neg then Qopp v else v).

(** *** Typed accessors *)

(** The 20-byte value field of a card, as copied into [pTemp]. *)
Definition value_field (c : card) : cbuf := take 20 (drop 10 c).

(** [fits_get_card_ival_]: the return value and what was stored in
    [*pIval], if anything. *)
Definition fits_get_card_ival_ (pLabel : cbuf) (h : header) : Z * option Z :=
  let iCard := scan_cards pLabel h 0 in
  if iCard <? nHead h
  then (TRUE_MWDUST, sscanf_d (value_field (card_at h iCard)))
  else (FALSE_MWDUST, None).

(** [fits_get_card_rval_]: the return value and what was stored in
    [*pRval], if anything. *)
Definition fits_get_card_rval_ (pLabel : cbuf) (h : header) : Z * option Q :=
  let iCard := scan_cards pLabel h 0 in
  if iCard <? nHead h
  then (TRUE_MWDUST, sscanf_f (value_field (card_at h iCard)))
  else (FALSE_MWDUST, None).

(** [pTemp[i] = c]. *)
Definition poke (b : cbuf) (i : nat) (c : uchar) : cbuf := <[i := c]> b.

(** The copy loop of [fits_get_card_string_]:
    [while (iChar<80 && (pTemp[iChar-11]=card[iChar]) != ''') iChar++]. *)
Fixpoint copy_string_value (crd : card) (pTemp : cbuf) (iChar : nat) (fuel : nat)
  : cbuf * nat :=
  match fuel with
  | O => (pTemp, iChar)
  | S fuel' =>
      if (iChar <? 80)%nat then
        let pTemp' := poke pTemp (iChar - 11) (at_ crd iChar) in
        if Ascii.eqb (at_ crd iChar) QUOTE then (pTemp', iChar)
        else copy_string_value crd pTemp' (S iChar) fuel'
      else (pTemp, iChar)
  end.

(** [while (iChar>0 && pTemp[--iChar]==' ') pTemp[iChar]=NUL]. *)
Fixpoint trim_blanks (pTemp : cbuf) (iChar : nat) : cbuf :=
  match iChar with
  | O => pTemp
  | S i => if Ascii.eqb (at_ pTemp i) BLANK then trim_blanks (poke pTemp i NUL) i
           else pTemp
  end.

(** A [strcpy] into a buffer: the text and its terminator. *)
Definition strcpy (dst src : cbuf) : cbuf :=
  cstr src ++ NUL :: drop (S (strlen src)) dst.

(** [fits_get_card_string_]: the return value and the pointer stored in
    [*ppStringVal] ([None] would be a NULL pointer), pointing at the
    70-byte buffer allocated here. *)
Definition fits_get_card_string_ (pLabel : cbuf) (h : header) : Z * option cbuf :=
  let pTemp := ccalloc_ 70 in
  let iCard := scan_cards pLabel h 0 in
  if iCard <? nHead h then
    let crd := card_at h iCard in
    let '(pTemp1, iChar) :=
      if Ascii.eqb (at_ crd 10) QUOTE
      then copy_string_value crd pTemp 11 69
      else (pTemp, 11%nat) in
    let pTemp2 := poke pTemp1 (iChar - 11) NUL in
    (TRUE_MWDUST, Some (trim_blanks pTemp2 (strlen pTemp2)))
  else
    (FALSE_MWDUST, Some (strcpy pTemp (lit "?"))).

(** The string the caller reads through a [char *]. *)
Definition string_at (p : option cbuf) : cbuf :=
  match p with Some b => cstr b | None => [] end.


(** *** The real conversion ["%20.7e"]

    The value of a [float] is a rational number; the conversion prints it
    rounded to 8 significant decimal digits, ties going to the even
    digit. *)

(** The nearest integer to a non-negative rational, ties to even. *)
Definition round_half_even (q : Q) : Z :=
  let f := Qfloor q in
  match Qcompare (q - inject_Z f) (1 # 2) with
  | Lt => f
  | Gt => f + 1
  | Eq => if Z.even f then f else f + 1
  end.

Definition ndigits (n : Z) : Z := Z.of_nat (length (utoa n)).

(** The decimal exponent of a positive rational [q]: the [e] with
    [10^e <= q < 10^(e+1)]. *)
Definition decimal_exponent (q : Q) : Z :=
  let k := ndigits (Qnum q) - ndigits (Zpos (Qden q)) in
  if Qle_bool (pow10Q k) q then k else k - 1.

(** The 8-digit mantissa and the exponent printed for a positive [q]. *)
Definition mantissa_exponent (q : Q) : Z * Z :=
  let e := decimal_exponent q in
  let m := round_half_even (q * pow10Q (7 - e)) in
  if m =? 10 ^ 8 then (10 ^ 7, e + 1) else (m, e).

(** The exponent field: a sign and at least two digits. *)
Definition fmt_exponent (e : Z) : cbuf :=
  (if e <? 0 then "-"%char else "+"%char)
    :: (if Z.abs e <? 10 then "0"%char :: utoa (Z.abs e) else utoa (Z.abs e)).

(** ["%.7e"]. *)
Definition fmt_e7 (q : Q) : cbuf :=
  match Qcompare q 0 with
  | Eq => lit "0.0000000e+00"
  | c =>
      let '(m, e) := mantissa_exponent (Qabs q) in
      let ds := utoa m in
      (match c with Lt => ["-"%char] | _ => [] end)
        ++ take 1 ds ++ "."%char :: drop 1 ds ++ "e"%char :: fmt_exponent e
  end.

(** ["%20.7e"]. *)
Definition fmt_e20 (q : Q) : cbuf := pad_left 20 (fmt_e7 q).


(** ** The binary data layer *)

(** [fits_size_from_bitpix_]. *)
Definition fits_size_from_bitpix_ (bitpix : Z) : Z :=
  if bitpix =? 8 then 1
  else if bitpix =? 16 then 2
  else if bitpix =? 32 then 4
  else if bitpix =? 64 then 8
  else if bitpix =? -16 then 2
  else if bitpix =? -32 then 4
  else if bitpix =? -64 then 8
  else 0.

(** [fits_bswap2(&pData[i], &pData[j])]. *)
Definition fits_bswap2 (pData : cbuf) (i j : nat) : cbuf :=
  let ct := at_ pData i in
  poke (poke pData i (at_ pData j)) j ct.

(** [for (idata=0; idata < nData; idata++) body]. *)
Fixpoint for_idata (body : nat -> cbuf -> cbuf) (n : nat) (idata : nat) (pData : cbuf)
  : cbuf :=
  match n with
  | O => pData
  | S n' => for_idata body n' (S idata) (body idata pData)
  end.

(** [fits_byteswap]. *)
Definition fits_byteswap (bitpix nData : Z) (pData : cbuf) : cbuf :=
  let ibits := Z.abs bitpix in
  if ibits =? 16 then
    for_idata (fun idata d => fits_bswap2 d (2 * idata) (2 * idata + 1))
      (Z.to_nat nData) 0 pData
  else if ibits =? 32 then
    for_idata (fun idata d =>
                 fits_bswap2 (fits_bswap2 d (4 * idata) (4 * idata + 3))
                   (4 * idata + 1) (4 * idata + 2))
      (Z.to_nat nData) 0 pData
  else if ibits =? 64 then
    for_idata (fun idata d =>
                 fits_bswap2
                   (fits_bswap2
                      (fits_bswap2 (fits_bswap2 d (8 * idata) (8 * idata + 7))
                         (8 * idata + 1) (8 * idata + 6))
                      (8 * idata + 2) (8 * idata + 5))
                   (8 * idata + 3) (8 * idata + 4))
      (Z.to_nat nData) 0 pData
  else pData.

(** The [iloc]-th element of [size] bytes of a buffer. *)
Definition element (size : nat) (pData : cbuf) (iloc : Z) : cbuf :=
  take size (drop (size * Z.to_nat iloc) pData).

(** The unsigned number held by bytes in the machine's byte order. *)
Fixpoint le_value (bs : cbuf) : Z :=
  match bs with
  | [] => 0
  | b :: bs' => code b + 256 * le_value bs'
  end.

Definition native_value (bs : cbuf) : Z :=
  if little_endian then le_value bs else le_value (rev bs).

Definition signed_value (bs : cbuf) : Z :=
  let u := native_value bs in
  let w := 8 * Z.of_nat (length bs) in
  if u <? 2 ^ (w - 1) then u else u - 2 ^ w.

(** [fits_get_rval_], the data being in the machine's byte order. *)
Definition fits_get_rval_ (iloc bitpix : Z) (bscale bzero : R) (pData : cbuf) : R :=
  if bitpix =? -32 then float_of_bits (native_value (element 4 pData iloc))
  else if bitpix =? 16 then
    (IZR (signed_value (element 2 pData iloc)) * bscale + bzero)%R
  else if bitpix =? 32 then
    (IZR (signed_value (element (Z.to_nat sizeof_long) pData iloc)) * bscale + bzero)%R
  else if bitpix =? -64 then double_of_bits (native_value (element 8 pData iloc))
  else if bitpix =? 8 then
    (IZR (native_value (element 1 pData iloc)) * bscale + bzero)%R
  else if bitpix =? -8 then IZR (native_value (element 1 pData iloc))
  else 0%R.

(** ** Files *)

(** An open stream: the bytes of the file and the position. *)
Record FILE := mkFILE { f_data : cbuf; f_pos : Z }.

Definition fopen (contents : cbuf) : FILE := mkFILE contents 0.

Definition ftell (f : FILE) : Z := f_pos f.

(** [fseek(f, offset, 0)]: a negative offset is refused and the position
    stays; a position past the end of the file is accepted. *)
Definition fseek (f : FILE) (offset : Z) : FILE :=
  if offset <? 0 then f else mkFILE (f_data f) offset.

(** The bytes from the position to the end of the file. *)
Definition remaining (f : FILE) : cbuf := drop (Z.to_nat (f_pos f)) (f_data f).

(** [fread(ptr, size, nmemb, f)]: the bytes transferred (all that remain
    when the file ends early), the number of complete elements among them,
    and the stream advanced by the bytes transferred. *)
Definition fread (size nmemb : Z) (f : FILE) : cbuf * Z * FILE :=
  let got := take (Z.to_nat (size * nmemb)) (remaining f) in
  let n := if size <=? 0 then 0 else Z.of_nat (length got) / size in
  (got, n, mkFILE (f_data f) (f_pos f + Z.of_nat (length got))).

(** [memcpy(&dst[off], src, length src)]. *)
Definition store (dst : cbuf) (off : nat) (src : cbuf) : cbuf :=
  take off dst ++ src ++ drop (off + length src) dst.

Definition EOF_char : uchar := ascii_of_N 255.

(** [fits_get_next_card_]: 80 calls of [fgetc], each giving EOF (stored as
    the byte 255) once the file is exhausted; the result of the [strncmp]
    against the END card, the card, and the stream. *)
Definition fits_get_next_card_ (f : FILE) : Z * card * FILE :=
  let got := take 80 (remaining f) in
  let pCard := got ++ repeat EOF_char (80 - length got) in
  (strncmp Card_end pCard 8, pCard,
   mkFILE (f_data f) (f_pos f + Z.of_nat (length got))).

(** [for (iCard=jCard; iCard<=35; iCard++) fits_get_next_card_(...)]. *)
Fixpoint skip_cards (n : nat) (f : FILE) : FILE :=
  match n with
  | O => f
  | S n' => skip_cards n' (snd (fits_get_next_card_ f))
  end.

(** [while (fits_get_next_card_(pFilenum, pCard));] The loop ends at the
    first END card.  Past the end of the file every card read is 80 EOF
    bytes, so the loop of the source never ends when the file has no END
    card; [None] stands for that.  [fuel] counts the cards still to try. *)
Fixpoint skip_to_end_card (fuel : nat) (f : FILE) : option FILE :=
  match fuel with
  | O => None
  | S fuel' =>
      let '(r, _, f') := fits_get_next_card_ f in
      if r =? 0 then Some f' else skip_to_end_card fuel' f'
  end.

(** The cards a file can hold, counting a last partial one. *)
Definition cards_in (f : FILE) : nat := S (length (f_data f) / 80).

(** [fits_skip_header_]. *)
Definition fits_skip_header_ (f : FILE) : option FILE :=
  match skip_to_end_card (cards_in f) f with
  | None => None
  | Some f1 =>
      let jCard := (ftell f1 mod 2880) / 80 in
      Some (if jCard =? 0 then f1 else skip_cards (Z.to_nat (36 - jCard)) f1)
  end.

(** ** Axes *)

Definition zat (l : list Z) (i : nat) : Z := nth i l 0.

Definition stored_int (r : Z * option Z) (old : Z) : Z :=
  match snd r with Some v => v | None => old end.

(** The loop of [fits_compute_axes_]; [ival] keeps its last value when a
    NAXISn card is missing or has no number. *)
Fixpoint axes_loop (h : header) (n : nat) (iAxis : Z) (ival : Z) : list Z :=
  match n with
  | O => []
  | S n' =>
      let pLabel_temp := lit "NAXIS" ++ itoa (iAxis + 1) ++ lit "  " in
      let ival' := stored_int (fits_get_card_ival_ pLabel_temp h) ival in
      ival' :: axes_loop h n' (iAxis + 1) ival'
  end.

(** [fits_compute_axes_]: [numAxes] and the array [pNaxis] (left
    unallocated, here empty, when [numAxes] is not positive). *)
Definition fits_compute_axes_ (h : header) : Z * list Z :=
  let numAxes := stored_int (fits_get_card_ival_ Label_naxis h) (indet_int "numAxes") in
  (numAxes,
   if 0 <? numAxes then axes_loop h (Z.to_nat numAxes) 0 (indet_int "ival") else []).

Definition product (l : list Z) : Z := fold_left Z.mul l 1.

(** ** Windowed reads *)

(** The state threaded through [fits_read_subimg1]: the stream, the count
    [*pNVal] and the buffer [pData]. *)
Record rstate := mkR { r_file : FILE; r_nval : Z; r_data : cbuf }.

(** [ipos = ftell(f); fseek(f, ipos + offset, 0)]. *)
Definition skip_bytes (offset : Z) (st : rstate) : rstate :=
  mkR (fseek (r_file st) (ftell (r_file st) + offset)) (r_nval st) (r_data st).

(** The read of [nread] elements into [pData] at element [nVal], the
    count read being added to [nVal]. *)
Definition read_run (size nread : Z) (st : rstate) : rstate :=
  let '(got, n, f') := fread size nread (r_file st) in
  mkR f' (r_nval st + n) (store (r_data st) (Z.to_nat (r_nval st * size)) got).

(** [fits_read_subimg1], by recursion on [nel]; the source is entered with
    [nel >= 1] only. *)
Fixpoint fits_read_subimg1 (nel : nat) (pNaxis pStart pEnd : list Z) (bitpix : Z)
  (st : rstate) : rstate :=
  match nel with
  | O => st
  | S k =>
      let size := fits_size_from_bitpix_ bitpix in
      let nskip := fold_left Z.mul (take k pNaxis) (zat pStart k) in
      let st1 := skip_bytes (size * nskip) st in
      let st2 :=
        match k with
        | O => read_run size (zat pEnd 0 - zat pStart 0 + 1) st1
        | S _ =>
            Nat.iter (Z.to_nat (zat pEnd k - zat pStart k + 1))
              (fits_read_subimg1 k pNaxis pStart pEnd bitpix) st1
        end in
      let nskip' := fold_left Z.mul (take k pNaxis) (zat pNaxis k - zat pEnd k - 1) in
      skip_bytes (size * nskip') st2
  end.

(** BSCALE and BZERO as read by the data readers: the default when the
    card is missing, the value when it has one, and whatever the variable
    held when the card has no number. *)
Definition scaling (var : string) (pLabel : cbuf) (h : header) (default : R) : R :=
  match fits_get_card_rval_ pLabel h with
  | (iret, v) =>
      if iret =? FALSE_MWDUST then default
      else match v with Some q => Q2R q | None => indet_float var end
  end.

(** The window size [nExpect] of [fits_read_subimg_]. *)
Fixpoint window_size (n : nat) (pStart pEnd : list Z) : Z :=
  match n with
  | O => 1
  | S n' => window_size n' pStart pEnd * (zat pEnd n' - zat pStart n' + 1)
  end.

(** [fits_read_subimg_]: the value returned, [*pNVal] and the values
    [*ppVal]; [None] when skipping the header never ends.  [contents] is
    the file named by [pFileName], taken to exist and to open. *)
Definition fits_read_subimg_ (contents : cbuf) (h : header) (pStart pEnd : list Z)
  : option (Z * Z * list R) :=
  match fits_skip_header_ (fopen contents) with
  | None => None
  | Some f =>
      let bitpix := stored_int (fits_get_card_ival_ Label_bitpix h) (indet_int "bitpix") in
      let '(numAxes, pNaxis) := fits_compute_axes_ h in
      let nExpect := window_size (Z.to_nat numAxes) pStart pEnd in
      let size := fits_size_from_bitpix_ bitpix in
      let pData := ccalloc_ (Z.to_nat (size * nExpect)) in
      let st := fits_read_subimg1 (Z.to_nat numAxes) pNaxis pStart pEnd bitpix
                  (mkR f 0 pData) in
      let nVal := r_nval st in
      let pData' :=
        if little_endian then fits_byteswap bitpix nVal (r_data st) else r_data st in
      let pVal :=
        if bitpix =? -32 then
          map (fun iloc => float_of_bits (native_value (element 4 pData' (Z.of_nat iloc))))
            (seq 0 (Z.to_nat nExpect))
        else
          let bscale := scaling "bscale" Label_bscale h 1 in
          let bzero := scaling "bzero" Label_bzero h 0 in
          map (fun iloc =>
                 if Z.of_nat iloc <? nVal
                 then fits_get_rval_ (Z.of_nat iloc) bitpix bscale bzero pData'
                 else float_of_bits
                        (native_value
                           (element 4 (ccalloc_ (Z.to_nat (4 * nExpect))) (Z.of_nat iloc))))
            (seq 0 (Z.to_nat nExpect)) in
      Some (nExpect - nVal, nVal, pVal)
  end.

(** The flat index computed by [fits_read_point_]. *)
Fixpoint point_index (pNaxis pLoc : list Z) (n : nat) (iAxis : nat) (iloc nmult : Z) : Z :=
  match n with
  | O => iloc
  | S n' =>
      point_index pNaxis pLoc n' (S iAxis)
        (iloc + zat pLoc iAxis * nmult) (nmult * zat pNaxis iAxis)
  end.

(** [fits_read_point_]: the value returned and [*pValue]. *)
Definition fits_read_point_ (contents : cbuf) (h : header) (pLoc : list Z)
  : option (Z * R) :=
  match fits_skip_header_ (fopen contents) with
  | None => None
  | Some f =>
      let bitpix := stored_int (fits_get_card_ival_ Label_bitpix h) (indet_int "bitpix") in
      let '(numAxes, pNaxis) := fits_compute_axes_ h in
      let iloc := point_index pNaxis pLoc (Z.to_nat numAxes) 0 0 1 in
      let ipos := ftell f in
      let size := fits_size_from_bitpix_ bitpix in
      let pData := ccalloc_ (Z.to_nat size) in
      let '(got, n, _) := fread size 1 (fseek f (ipos + size * iloc)) in
      let retval := 1 - n in
      let pData1 := store pData 0 got in
      let pData2 := if little_endian then fits_byteswap bitpix 1 pData1 else pData1 in
      let value :=
        if bitpix =? -32 then float_of_bits (native_value (element 4 pData2 0))
        else fits_get_rval_ 0 bitpix (scaling "bscale" Label_bscale h 1)
               (scaling "bzero" Label_bzero h 0) pData2 in
      Some (retval, value)
  end.

(** ** Reading a header from a file *)

(** [fits_delete_card_]: the header without the first matching card, and
    the index found. *)
Definition fits_delete_card_ (pLabel : cbuf) (h : header) : header * Z :=
  let iCard := fits_find_card_ pLabel h in
  if iCard <? nHead h
  then (take (Z.to_nat iCard) h ++ drop (S (Z.to_nat iCard)) h, iCard)
  else (h, iCard).

(** [fits_purge_blank_cards_]: cards are deleted until a deletion reports
    the current [nHead], which it does when nothing matched and also when
    the card deleted was the last one. *)
Fixpoint fits_purge_blank_cards_ (fuel : nat) (h : header) : header :=
  match fuel with
  | O => h
  | S fuel' =>
      let '(h', iCard) := fits_delete_card_ Label_empty h in
      if iCard =? nHead h' then h' else fits_purge_blank_cards_ fuel' h'
  end.

(** [fits_change_card_]. *)
Definition fits_change_card_ (pCard : cbuf) (h : header) : header * Z :=
  let pCardTemp := fits_string_to_card_ pCard in
  let iCard := fits_find_card_ pCardTemp h in
  if iCard <? nHead h
  then (<[Z.to_nat iCard := pCardTemp]> h, iCard)
  else fits_add_card_ pCardTemp h.

(** [fits_change_card_ival_]. *)
Definition fits_change_card_ival_ (ival : Z) (pLabel : cbuf) (h : header) : header * Z :=
  fits_change_card_ (fmt_label pLabel ++ lit "= " ++ fmt_d20 ival) h.

(** The loop of [fits_add_required_cards_], over the axes computed before
    it starts. *)
Fixpoint required_axes (n : nat) (iAxis : Z) (h : header) : header :=
  match n with
  | O => h
  | S n' =>
      let pLabel_temp := lit "NAXIS" ++ pad_right 3 (itoa (iAxis + 1)) in
      let h' :=
        if fst (fits_get_card_ival_ pLabel_temp h) =? FALSE_MWDUST
        then fst (fits_change_card_ival_ 1 pLabel_temp h)
        else h in
      required_axes n' (iAxis + 1) h'
  end.

(** [fits_add_required_cards_]. *)
Definition fits_add_required_cards_ (h : header) : header :=
  let h1 :=
    if fst (fits_get_card_ival_ Label_naxis h) =? FALSE_MWDUST
    then fst (fits_change_card_ival_ 0 Label_naxis h)
    else h in
  let '(numAxes, _) := fits_compute_axes_ h1 in
  required_axes (Z.to_nat numAxes) 0 h1.

(** The first loop of [fits_read_fits_header_]: cards are added until the
    END card is read; blank cards are left out. *)
Fixpoint read_cards (fuel : nat) (f : FILE) (h : header) : option (FILE * header) :=
  match fuel with
  | O => None
  | S fuel' =>
      let '(r, pCard, f') := fits_get_next_card_ f in
      if r =? 0 then Some (f', h)
      else
        let h' := if strncmp pCard Card_empty 80 =? 0 then h
                  else fst (fits_add_card_ pCard h) in
        read_cards fuel' f' h'
  end.

(** [fits_read_file_fits_header_only_] on the contents of the file;
    [None] when the file has no END card and the source reads on for
    ever. *)
Definition fits_read_file_fits_header_only_ (contents : cbuf) : option header :=
  let f := fopen contents in
  match read_cards (cards_in f) f [] with
  | None => None
  | Some (_, h) =>
      let h1 := fst (fits_add_card_ Card_end h) in
      let h2 := fits_purge_blank_cards_ (S (length h1)) h1 in
      Some (fits_add_required_cards_ h2)
  end.

(** ** The projection *)

Local Open Scope R_scope.

Definition dradeg : R := 180 / 3.1415926534.

(** [lambert_lb2xy]. *)
Definition lambert_lb2xy (gall galb : R) (nsgp : Z) (scale : R) : R * R :=
  let rho := sqrt (1 - IZR nsgp * sin (galb / dradeg)) in
  (rho * cos (gall / dradeg) * scale,
   - IZR nsgp * rho * sin (gall / dradeg) * scale).

Definition stored_float (r : Z * option Q) (old : R) : R :=
  match snd r with Some q => Q2R q | None => old end.

(** The scale and rotation matrix of the ZEA branch: the diagonal matrix
    of CDELT1 and CDELT2 when both cards are found, the four CD cards
    otherwise. *)
Definition zea_matrix (h : header) : R * R * R * R :=
  let r1 := fits_get_card_rval_ Label_cdelt1 h in
  let r2 := fits_get_card_rval_ Label_cdelt2 h in
  let cdelt1 := stored_float r1 (indet_float "cdelt1") in
  let cdelt2 := stored_float r2 (indet_float "cdelt2") in
  if (fst r1 =? TRUE_MWDUST)%Z && (fst r2 =? TRUE_MWDUST)%Z
  then (cdelt1, 0, 0, cdelt2)
  else (stored_float (fits_get_card_rval_ Label_cd1_1 h) (indet_float "cd1_1"),
        stored_float (fits_get_card_rval_ Label_cd1_2 h) (indet_float "cd1_2"),
        stored_float (fits_get_card_rval_ Label_cd2_1 h) (indet_float "cd2_1"),
        stored_float (fits_get_card_rval_ Label_cd2_2 h) (indet_float "cd2_2")).

(** LONPOLE, 180 when the card is missing. *)
Definition zea_lonpole (h : header) : R :=
  let rl := fits_get_card_rval_ Label_lonpole h in
  if (fst rl =? FALSE_MWDUST)%Z then 180
  else stored_float rl (indet_float "lonpole").

(** The two axis types as [lambert_lb2fpix] reads them. *)
Definition ctypes (h : header) : cbuf * cbuf :=
  (string_at (snd (fits_get_card_string_ Label_ctype1 h)),
   string_at (snd (fits_get_card_string_ Label_ctype2 h))).

(** [lambert_lb2fpix]. *)
Definition lambert_lb2fpix (gall galb : R) (h : header) : R * R :=
  let '(pCtype1, pCtype2) := ctypes h in
  let crval1 := stored_float (fits_get_card_rval_ Label_crval1 h) (indet_float "crval1") in
  let crval2 := stored_float (fits_get_card_rval_ Label_crval2 h) (indet_float "crval2") in
  let crpix1 := stored_float (fits_get_card_rval_ Label_crpix1 h) (indet_float "crpix1") in
  let crpix2 := stored_float (fits_get_card_rval_ Label_crpix2 h) (indet_float "crpix2") in
  if (strcmp pCtype1 (lit "LAMBERT--X") =? 0)%Z && (strcmp pCtype2 (lit "LAMBERT--Y") =? 0)%Z
  then
    let nsgp := stored_int (fits_get_card_ival_ Label_lam_nsgp h) (indet_int "nsgp") in
    let scale := stored_float (fits_get_card_rval_ Label_lam_scal h) (indet_float "scale") in
    let '(xr, yr) := lambert_lb2xy gall galb nsgp scale in
    (xr + crpix1 - crval1 - 1, yr + crpix2 - crval2 - 1)
  else if (strcmp pCtype1 (lit "GLON-ZEA") =? 0)%Z && (strcmp pCtype2 (lit "GLAT-ZEA") =? 0)%Z
  then
    let '(cd1_1, cd1_2, cd2_1, cd2_2) := zea_matrix h in
    let lonpole := zea_lonpole h in
    let '(theta, phi) :=
      if Rlt_dec 89.9999 crval2 then (galb, gall + 180 + lonpole - crval1)
      else if Rlt_dec crval2 (-89.9999) then (- galb, lonpole + crval1 - gall)
      else (galb, gall + 180 + lonpole - crval1) in
    let phi := phi - 360 * IZR (Zfloor (phi / 360)) in
    let Rtheta := 2 * dradeg * sin ((0.5 / dradeg) * (90 - theta)) in
    let xr := Rtheta * sin (phi / dradeg) in
    let yr := - Rtheta * cos (phi / dradeg) in
    let denom := cd1_1 * cd2_2 - cd1_2 * cd2_1 in
    ((cd2_2 * xr - cd1_2 * yr) / denom + (crpix1 - 1),
     (cd1_1 * yr - cd2_1 * xr) / denom + (crpix2 - 1))
  else (-99, -99).

(** [lambert_lb2pix]. *)
Definition lambert_lb2pix (gall galb : R) (h : header) : Z * Z :=
  let naxis1 := stored_int (fits_get_card_ival_ Label_naxis1 h) (indet_int "naxis1") in
  let naxis2 := stored_int (fits_get_card_ival_ Label_naxis2 h) (indet_int "naxis2") in
  let '(xr, yr) := lambert_lb2fpix gall galb h in
  let IX := Zfloor (xr + 0.5) in
  let IY := Zfloor (yr + 0.5) in
  ((if (naxis1 <=? IX)%Z then naxis1 - 1 else IX)%Z,
   (if (naxis2 <=? IY)%Z then naxis2 - 1 else IY)%Z).

(** ** The map sampler *)

(** [(int)x]: truncation toward zero. *)
Definition Ztrunc (x : R) : Z :=
  if Rle_dec 0 x then Zfloor x else (- Zfloor (- x))%Z.

Definition rat (l : list R) (i : Z) : R := nth (Z.to_nat i) l 0.

(** The four bytes of a [float] buffer read as a [float]. *)
Definition float_at (pData : cbuf) (iloc : Z) : R :=
  float_of_bits (native_value (element 4 pData iloc)).

(** [ccvector_build_(n)]: [n] floats, never assigned. *)
Definition ccvector_build_ (n : nat) : list R :=
  map (fun i => float_at (ccalloc_ (4 * n)) (Z.of_nat i)) (seq 0 n).

(** [ivector_minimum] and [ivector_maximum]. *)
Definition ivector_minimum (pData : list Z) : Z :=
  fold_left (fun vmin x => if (x <? vmin)%Z then x else vmin) (tl pData) (zat pData 0).

Definition ivector_maximum (pData : list Z) : Z :=
  fold_left (fun vmax x => if (vmax <? x)%Z then x else vmax) (tl pData) (zat pData 0).

(** One axis of the interpolating branch: the integer pixel, the offset
    [dx], and the two clamps that force the pixel into the image. *)
Definition interp_pixel (xr : R) (naxis : Z) : Z * R :=
  let xPix := Ztrunc xr in
  let dx := IZR xPix - xr + 1 in
  let '(xPix, dx) := if (xPix <? 0)%Z then (0%Z, 1) else (xPix, dx) in
  if (naxis - 1 <=? xPix)%Z then ((naxis - 2)%Z, 0) else (xPix, dx).

Definition weights (dx dy : R) : list R :=
  [dx * dy; (1 - dx) * dy; dx * (1 - dy); (1 - dx) * (1 - dy)].

(** The nearest-pixel branch of the one-point-at-a-time mode. *)
Definition nearest_point (pFileIn : cbuf) (h : header) (gall galb : R) : option R :=
  let '(xPix, yPix) := lambert_lb2pix gall galb h in
  match fits_read_point_ pFileIn h [xPix; yPix] with
  | Some (_, mapval) => Some mapval
  | None => None
  end.

(** The interpolating branch of the one-point-at-a-time mode. *)
Definition interp_point (pFileIn : cbuf) (h : header) (gall galb : R) : option R :=
  let '(numAxes, pNaxis) := fits_compute_axes_ h in
  let '(xr, yr) := lambert_lb2fpix gall galb h in
  let '(xPix, dx) := interp_pixel xr (zat pNaxis 0) in
  let '(yPix, dy) := interp_pixel yr (zat pNaxis 1) in
  let pWeight := weights dx dy in
  match fits_read_subimg_ pFileIn h [xPix; yPix] [(xPix + 1)%Z; (yPix + 1)%Z] with
  | Some (_, _, pSubimg) =>
      Some (fold_left (fun out jj => out + rat pWeight jj * rat pSubimg jj)
              [0%Z; 1%Z; 2%Z; 3%Z] 0)
  | None => None
  end.

(** The loop over the data points of one hemisphere, one point at a
    time.  [qRead] holds the header once it has been read. *)
Fixpoint point_loop (pFileIn : cbuf) (iloop qInterp : Z) (dirs : list (R * R))
  (pNS : list Z) (iGal : nat) (qRead : option header) (pOutput : list R)
  : option (list R) :=
  match dirs, pNS with
  | (gall, galb) :: dirs', ns :: pNS' =>
      if (ns =? iloop)%Z then
        match (match qRead with
               | Some h => Some h
               | None => fits_read_file_fits_header_only_ pFileIn
               end) with
        | None => None
        | Some h =>
            match (if (qInterp =? 0)%Z then nearest_point pFileIn h gall galb
                   else interp_point pFileIn h gall galb) with
            | None => None
            | Some v =>
                point_loop pFileIn iloop qInterp dirs' pNS' (S iGal) (Some h)
                  (<[iGal := v]> pOutput)
            end
        end
      else point_loop pFileIn iloop qInterp dirs' pNS' (S iGal) qRead pOutput
  | _, _ => Some pOutput
  end.

(** The indices of the data points of hemisphere [iloop], in order. *)
Fixpoint hemisphere_indices (iloop : Z) (pNS : list Z) (iGal : nat) : list nat :=
  match pNS with
  | [] => []
  | ns :: pNS' =>
      if (ns =? iloop)%Z then iGal :: hemisphere_indices iloop pNS' (S iGal)
      else hemisphere_indices iloop pNS' (S iGal)
  end.

Definition direction (dirs : list (R * R)) (i : nat) : R * R := nth i dirs (0, 0).

(** The nearest-pixel branch of the bulk mode. *)
Definition bulk_nearest (pFileIn : cbuf) (h : header) (dirs : list (R * R))
  (pIndx : list nat) (pOutput : list R) : option (list R) :=
  let pix := map (fun i => lambert_lb2pix (fst (direction dirs i))
                             (snd (direction dirs i)) h) pIndx in
  let pXPix := map fst pix in
  let pYPix := map snd pix in
  let pStart := [ivector_minimum pXPix; ivector_minimum pYPix] in
  let pEnd := [ivector_maximum pXPix; ivector_maximum pYPix] in
  match fits_read_subimg_ pFileIn h pStart pEnd with
  | None => None
  | Some (_, _, pSubimg) =>
      let xsize := (zat pEnd 0 - zat pStart 0 + 1)%Z in
      Some (fold_left
              (fun out '(i, (xPix, yPix)) =>
                 <[i := rat pSubimg (xPix - zat pStart 0
                                     + (yPix - zat pStart 1) * xsize)%Z]> out)
              (zip pIndx pix) pOutput)
  end.

(** The interpolating branch of the bulk mode. *)
Definition bulk_interp (pFileIn : cbuf) (h : header) (dirs : list (R * R))
  (pIndx : list nat) (pOutput : list R) : option (list R) :=
  let '(numAxes, pNaxis) := fits_compute_axes_ h in
  let pix := map (fun i =>
                    let '(xr, yr) := lambert_lb2fpix (fst (direction dirs i))
                                       (snd (direction dirs i)) h in
                    (interp_pixel xr (zat pNaxis 0), interp_pixel yr (zat pNaxis 1)))
               pIndx in
  let pXPix := map (fun p => fst (fst p)) pix in
  let pYPix := map (fun p => fst (snd p)) pix in
  let pStart := [ivector_minimum pXPix; ivector_minimum pYPix] in
  let pEnd := [(ivector_maximum pXPix + 1)%Z; (ivector_maximum pYPix + 1)%Z] in
  match fits_read_subimg_ pFileIn h pStart pEnd with
  | None => None
  | Some (_, _, pSubimg) =>
      let xsize := (zat pEnd 0 - zat pStart 0 + 1)%Z in
      Some (fold_left
              (fun out '(i, ((xPix, dx), (yPix, dy))) =>
                 let pWeight := weights dx dy in
                 <[i :=
                     rat pWeight 0
                     * rat pSubimg (xPix - zat pStart 0
                                    + (yPix - zat pStart 1) * xsize)%Z
                     + rat pWeight 1
                       * rat pSubimg (xPix - zat pStart 0 + 1
                                      + (yPix - zat pStart 1) * xsize)%Z
                     + rat pWeight 2
                       * rat pSubimg (xPix - zat pStart 0
                                      + (yPix - zat pStart 1 + 1) * xsize)%Z
                     + rat pWeight 3
                       * rat pSubimg (xPix - zat pStart 0 + 1
                                      + (yPix - zat pStart 1 + 1) * xsize)%Z]> out)
              (zip pIndx pix) pOutput)
  end.

(** One hemisphere of the bulk mode. *)
Definition bulk_hemisphere (pFileIn : cbuf) (iloop qInterp : Z) (dirs : list (R * R))
  (pNS : list Z) (pOutput : list R) : option (list R) :=
  let pIndx := hemisphere_indices iloop pNS 0 in
  if (0 <? length pIndx)%nat then
    match fits_read_file_fits_header_only_ pFileIn with
    | None => None
    | Some h =>
        if (qInterp =? 0)%Z then bulk_nearest pFileIn h dirs pIndx pOutput
        else bulk_interp pFileIn h dirs pIndx pOutput
    end
  else Some pOutput.

(** [lambert_getval] on the contents of the two files and the directions
    [(l, b)]: the array returned, or [None] when a header read never
    ends.  Hemisphere 0 is the north file, hemisphere 1 the south. *)
Definition lambert_getval (pFileN pFileS : cbuf) (dirs : list (R * R))
  (qInterp qNoloop : Z) : option (list R) :=
  let pNS := map (fun d => if Rle_dec 0 (snd d) then 0%Z else 1%Z) dirs in
  let pOutput := ccvector_build_ (length dirs) in
  let pFileIn (iloop : Z) := if (iloop =? 0)%Z then pFileN else pFileS in
  let hemisphere (iloop : Z) (out : list R) :=
    if (qNoloop =? 0)%Z
    then point_loop (pFileIn iloop) iloop qInterp dirs pNS 0 None out
    else bulk_hemisphere (pFileIn iloop) iloop qInterp dirs pNS out in
  match hemisphere 0%Z pOutput with
  | None => None
  | Some out => hemisphere 1%Z out
  end.

(** ** More of the card store *)

Local Open Scope Z_scope.

(** [fits_change_card_rval_]: ["%-8.8s= %20.7e"]. *)
Definition fits_change_card_rval_ (rval : Q) (pLabel : cbuf) (h : header) : header * Z :=
  fits_change_card_ (fmt_label pLabel ++ lit "= " ++ fmt_e20 rval) h.

(** ["%-1.68s"]: at most 68 bytes of the string, in a field of one byte
    at least. *)
Definition fmt_s68 (pStringVal : cbuf) : cbuf := pad_right 1 (take 68 (cstr pStringVal)).

(** [fits_add_card_string_]: ["%-8.8s= '%-1.68s'"]. *)
Definition fits_add_card_string_ (pStringVal pLabel : cbuf) (h : header) : header * Z :=
  fits_add_card_ (fmt_label pLabel ++ lit "= '" ++ fmt_s68 pStringVal ++ lit "'") h.

(** [fits_change_card_string_]. *)
Definition fits_change_card_string_ (pStringVal pLabel : cbuf) (h : header) : header * Z :=
  fits_change_card_ (fmt_label pLabel ++ lit "= '" ++ fmt_s68 pStringVal ++ lit "'") h.

(** [fits_swap_cards_ival_]: the two values are read, then each is
    written under the other label. *)
Definition fits_swap_cards_ival_ (pLabel1 pLabel2 : cbuf) (h : header) : header :=
  let ival1 := stored_int (fits_get_card_ival_ pLabel1 h) (indet_int "ival1") in
  let ival2 := stored_int (fits_get_card_ival_ pLabel2 h) (indet_int "ival2") in
  let h1 := fst (fits_change_card_ival_ ival2 pLabel1 h) in
  fst (fits_change_card_ival_ ival1 pLabel2 h1).

(** [fits_purge_blank_cards_] with the count [numDelete] it returns. *)
Fixpoint fits_purge_blank_cards_count (fuel : nat) (h : header) (numDelete : Z)
  : header * Z :=
  match fuel with
  | O => (h, numDelete)
  | S fuel' =>
      let '(h', iCard) := fits_delete_card_ Label_empty h in
      if iCard =? nHead h' then (h', numDelete)
      else fits_purge_blank_cards_count fuel' h' (numDelete + 1)
  end.

(** [fits_compute_ndata_]. *)
Definition fits_compute_ndata_ (h : header) : Z :=
  let '(numAxes, pNaxis) := fits_compute_axes_ h in
  if numAxes =? 0 then 0
  else fold_left (fun nData iAxis => nData * zat pNaxis iAxis)
         (seq 0 (Z.to_nat numAxes)) 1.


(** ** Headers on files *)

(** [fopen(name, "w")]: the file is created empty, or cut to no bytes. *)
Definition fopen_write : FILE := mkFILE [] 0.

(** [fputc]: the byte is stored at the position, which moves on by one; a
    position past the end of the file leaves a gap of NUL bytes.  Write
    errors are outside the model, so [fputc] never returns EOF. *)
Definition fputc (c : uchar) (f : FILE) : FILE :=
  let p := Z.to_nat (f_pos f) in
  mkFILE (take p (f_data f) ++ repeat NUL (p - length (f_data f))
            ++ c :: drop (S p) (f_data f))
         (f_pos f + 1).

(** [fits_put_next_card_]: 80 calls of [fputc]; [retval] stays
    [TRUE_MWDUST], no call failing. *)
Definition fits_put_next_card_ (pCard : cbuf) (f : FILE) : Z * FILE :=
  (TRUE_MWDUST,
   fold_left (fun f' iChar => fputc (at_ pCard iChar) f') (seq 0 80) f).

(** [for (iCard=jCard; iCard<=35; iCard++) fits_put_next_card_(..., card_empty)]. *)
Fixpoint put_blank_cards (n : nat) (f : FILE) : FILE :=
  match n with
  | O => f
  | S n' => put_blank_cards n' (snd (fits_put_next_card_ Card_empty f))
  end.

(** [fits_write_fits_header_]: the cards, then blank cards up to the next
    2880-byte boundary. *)
Definition fits_write_fits_header_ (h : header) (f : FILE) : FILE :=
  let f1 := fold_left (fun f' c => snd (fits_put_next_card_ c f')) h f in
  let jCard := (ftell f1 mod 2880) / 80 in
  if jCard =? 0 then f1 else put_blank_cards (Z.to_nat (36 - jCard)) f1.

(** [fits_read_fits_header_] on an open stream: the cards up to the END
    card, the rest of the block of the END card skipped, the blank labels
    purged and the required cards added; [None] when the file has no END
    card and the source reads on for ever. *)
Definition fits_read_fits_header_ (f : FILE) : option (FILE * header) :=
  match read_cards (cards_in f) f [] with
  | None => None
  | Some (f1, h) =>
      let h1 := fst (fits_add_card_ Card_end h) in
      let jCard := (ftell f1 mod 2880) / 80 in
      let f2 := if jCard =? 0 then f1 else skip_cards (Z.to_nat (36 - jCard)) f1 in
      let h2 := fits_purge_blank_cards_ (S (length h1)) h1 in
      Some (f2, fits_add_required_cards_ h2)
  end.


(** ** Transposition *)

(** What a [float] variable holds before it is assigned, as a card value. *)
Variable indet_rval : string -> Q.

Definition stored_rval (r : Z * option Q) (old : Q) : Q :=
  match snd r with Some v => v | None => old end.

(** [fits_swap_cards_rval_]: the two values are read, then each is written
    under the other label; a value that could not be read is written as
    the variable held it. *)
Definition fits_swap_cards_rval_ (pLabel1 pLabel2 : cbuf) (h : header) : header :=
  let rval1 := stored_rval (fits_get_card_rval_ pLabel1 h) (indet_rval "rval1") in
  let rval2 := stored_rval (fits_get_card_rval_ pLabel2 h) (indet_rval "rval2") in
  let h1 := fst (fits_change_card_rval_ rval2 pLabel1 h) in
  fst (fits_change_card_rval_ rval1 pLabel2 h1).

(** [for (i=0; i < n; i++)] over a [DSIZE] index. *)
Definition upto (n : Z) : list Z := map Z.of_nat (seq 0 (Z.to_nat n)).

(** The three loops of [fits_transpose_data_]: every byte of every element
    is copied from [pData] to its place in [pNewData]. *)
Definition transpose_bytes (size n1 n2 : Z) (pData pNewData : cbuf) : cbuf :=
  fold_left
    (fun new iRow =>
       fold_left
         (fun new iCol =>
            let ilocOld := size * (iRow * n1 + iCol) in
            let ilocNew := size * (iCol * n2 + iRow) in
            fold_left
              (fun new iByte =>
                 poke new (Z.to_nat (ilocNew + iByte))
                   (at_ pData (Z.to_nat (ilocOld + iByte))))
              (upto size) new)
         (upto n1) new)
    (upto n2) pNewData.

(** [fits_transpose_data_]: the new header and the new data array; both
    are left as they are when the image does not have two axes. *)
Definition fits_transpose_data_ (h : header) (pData : cbuf) : header * cbuf :=
  let '(numAxes, pNaxis) := fits_compute_axes_ h in
  if numAxes =? 2 then
    let nData := fits_compute_ndata_ h in
    let bitpix := stored_int (fits_get_card_ival_ Label_bitpix h) (indet_int "bitpix") in
    let size := fits_size_from_bitpix_ bitpix in
    let pNewData :=
      transpose_bytes size (zat pNaxis 0) (zat pNaxis 1) pData
        (ccalloc_ (Z.to_nat (size * nData))) in
    let h1 := fits_swap_cards_ival_ Label_naxis1 Label_naxis2 h in
    let h2 := fits_swap_cards_rval_ Label_crpix1 Label_crpix2 h1 in
    let h3 := fits_swap_cards_rval_ Label_crval1 Label_crval2 h2 in
    let h4 := fits_swap_cards_rval_ Label_cdelt1 Label_cdelt2 h3 in
    (h4, pNewData)
  else (h, pData).


(** * Vocabulary of the properties *)

Local Open Scope Z_scope.

(** The label comparison in the words of the specification: the first 8
    bytes compared without regard to case. *)
Definition label_eq_nocase (pLabel c : cbuf) : bool :=
  forallb (fun i => Ascii.eqb (toupper (at_ pLabel i)) (toupper (at_ c i))) (seq 0 8).

(** The byte reversal in the words of the specification: each of the
    first [n] elements of [w] bytes is reversed on its own. *)
Fixpoint reverse_elements (w n : nat) (d : cbuf) : cbuf :=
  match n with
  | O => d
  | S n' => rev (take w d) ++ reverse_elements w n' (drop w d)
  end.

(** The element width on which [fits_byteswap] acts: 2, 4 or 8 bytes when
    [|bitpix|] is 16, 32 or 64, and none otherwise. *)
Definition swap_width (bitpix : Z) : nat :=
  if Z.abs bitpix =? 16 then 2
  else if Z.abs bitpix =? 32 then 4
  else if Z.abs bitpix =? 64 then 8
  else 0.

(** The number read from a run of digits, continuing from [a]. *)
Definition dval (a : Z) (ds : cbuf) : Z :=
  fold_left (fun a c => 10 * a + (code c - 48)) ds a.

(** A run of digits. *)
Definition all_digits (ds : cbuf) : Prop := Forall (fun c => isdigit c = true) ds.

(** A text at which a run of digits stops: its end, or a byte that is not
    a digit. *)
Definition stops_digits (s : cbuf) : Prop := isdigit (at_ s 0) = false.

(** A text without NUL and without newline: [fits_string_to_card_]
    copies it unchanged. *)
Definition clean_text (s : cbuf) : Prop :=
  Forall (fun c => Ascii.eqb c NUL = false /\ Ascii.eqb c NEWLINE = false) s.




















(** A card whose label is blank, as [fits_purge_blank_cards_] finds it. *)
Definition blank_label (c : card) : bool := strncmp Label_empty c 8 =? 0.

(** A header that ends with its only END card. *)
Definition ends_with_END (h : header) : Prop :=
  exists init : header,
    h = init ++ [Card_end] /\ forall c, In c init -> strncmp Card_end c 8 <> 0.

(** A text without its trailing blanks. *)
Fixpoint rtrim (s : cbuf) : cbuf :=
  match s with
  | [] => []
  | c :: s' =>
      match rtrim s' with
      | [] => if Ascii.eqb c BLANK then [] else [c]
      | t => c :: t
      end
  end.

(** A text that can stand between the quotes of a string card: no NUL, no
    newline, no quote. *)
Definition quotable (s : cbuf) : Prop :=
  clean_text s /\ Forall (fun c => Ascii.eqb c QUOTE = false) s.


(** The first card of a header that the label [l] matches. *)
Definition first_match (l : cbuf) (h : header) : option card :=
  find (fun c => strncmp l c 8 =? 0) h.


(** The number of cards with a blank label. *)
Definition count_blank (h : header) : Z := Z.of_nat (length (List.filter blank_label h)).

(** Whether the last card of a header has a blank label. *)
Definition last_blank (h : header) : bool :=
  match last h with Some c => blank_label c | None => false end.


(** The card that the reader sees at the offset [80 * k] of a file. *)
Definition file_card (contents : cbuf) (k : nat) : card :=
  snd (fst (fits_get_next_card_ (mkFILE contents (80 * Z.of_nat k)))).

(** Whether a file has an END card at an offset that is a multiple of 80. *)
Definition has_END (contents : cbuf) : bool :=
  existsb (fun k => strncmp Card_end (file_card contents k) 8 =? 0)
          (seq 0 (cards_in (fopen contents))).

(** The least multiple of 2880 that is not below [n]. *)
Definition block_end (n : Z) : Z := 2880 * ((n + 2879) / 2880).


(** One card of the first loop of [fits_read_fits_header_]. *)
Definition keep_card (h : header) (pCard : card) : header :=
  if strncmp pCard Card_empty 80 =? 0 then h else fst (fits_add_card_ pCard h).


(** The label ["NAXIS%-3d"] of the axis [k], counted from 1. *)
Definition axis_label (k : Z) : cbuf := lit "NAXIS" ++ pad_right 3 (itoa k).

(** An 8-byte label without NUL. *)
Definition plain_label (l : cbuf) : Prop := length l = 8%nat /\ ~ In NUL l.


(** The pairs (place in the new array, place in the old array) of the
    bytes that the loops of [fits_transpose_data_] copy, in their order. *)
Definition transpose_pairs (size n1 n2 : Z) : list (nat * nat) :=
  flat_map
    (fun iRow =>
       flat_map
         (fun iCol =>
            map (fun iByte =>
                   (Z.to_nat (size * (iCol * n2 + iRow) + iByte),
                    Z.to_nat (size * (iRow * n1 + iCol) + iByte)))
                (upto size))
         (upto n1))
    (upto n2).


(** * Example maps and files *)

(** One platform: fresh memory full of the byte 'x', variables that hold
    0 before they are assigned, and decoders that read every bit pattern
    as 0. *)
Definition junk_x (n : nat) : uchar := "x"%char.

Definition no_int (name : string) : Z := 0.
Definition no_real (name : string) : R := 0%R.

Definition no_float (bits : Z) : R := 0%R.

(** A card from its text. *)
Definition card_of (s : string) : card := fits_string_to_card_ (lit s).

(** A header of one card and END. *)
Definition header_naxis : header :=
  [card_of "NAXIS   =                    2"; Card_end].

(** A 4 x 4 map under the custom polar convention. *)
Definition header_lambert : header :=
  [card_of "NAXIS   =                    2";
   card_of "NAXIS1  =                    4";
   card_of "NAXIS2  =                    4";
   card_of "BITPIX  =                  -32";
   card_of "CTYPE1  = 'LAMBERT--X'";
   card_of "CTYPE2  = 'LAMBERT--Y'";
   card_of "LAM_NSGP=                    1";
   card_of "LAM_SCAL=                  2.0";
   card_of "CRPIX1  =                  2.5";
   card_of "CRPIX2  =                  2.5";
   card_of "CRVAL1  =                  0.0";
   card_of "CRVAL2  =                  0.0";
   Card_end].

(** The same convention with a reference pixel left of the image. *)
Definition header_lambert_left : header :=
  [card_of "NAXIS   =                    2";
   card_of "NAXIS1  =                    4";
   card_of "NAXIS2  =                    4";
   card_of "CTYPE1  = 'LAMBERT--X'";
   card_of "CTYPE2  = 'LAMBERT--Y'";
   card_of "LAM_NSGP=                    1";
   card_of "LAM_SCAL=                  1.0";
   card_of "CRPIX1  =                -10.0";
   card_of "CRPIX2  =                  1.0";
   card_of "CRVAL1  =                  0.0";
   card_of "CRVAL2  =                  0.0";
   Card_end].

(** A 4 x 4 map with no projection cards. *)
Definition header_plain : header :=
  [card_of "NAXIS   =                    2";
   card_of "NAXIS1  =                    4";
   card_of "NAXIS2  =                    4";
   Card_end].

(** A map under the standard convention, north pole. *)
Definition header_zea : header :=
  [card_of "NAXIS   =                    2";
   card_of "NAXIS1  =                    4";
   card_of "NAXIS2  =                    4";
   card_of "CTYPE1  = 'GLON-ZEA'";
   card_of "CTYPE2  = 'GLAT-ZEA'";
   card_of "CRPIX1  =                  2.5";
   card_of "CRPIX2  =                  2.5";
   card_of "CRVAL1  =                  0.0";
   card_of "CRVAL2  =                 90.0";
   card_of "CDELT1  =                 -0.5";
   card_of "CDELT2  =                  0.5";
   card_of "LONPOLE =                180.0";
   Card_end].

(** A file: one header block of 36 cards, then the data. *)
Definition fits_file (h : header) (data : cbuf) : cbuf :=
  concat h ++ repeat BLANK (80 * (36 - length h)) ++ data.

(** Sixteen 4-byte pixels. *)
Definition pixels_4x4 : cbuf :=
  lit "aaaabbbbccccddddeeeeffffgggghhhhiiiijjjjkkkkllllmmmmnnnnoooopppp".

Definition file_lambert : cbuf := fits_file header_lambert pixels_4x4.







(** A map under the standard convention, south pole. *)
Definition header_zea_south : header :=
  [card_of "NAXIS   =                    2";
   card_of "NAXIS1  =                    4";
   card_of "NAXIS2  =                    4";
   card_of "CTYPE1  = 'GLON-ZEA'";
   card_of "CTYPE2  = 'GLAT-ZEA'";
   card_of "CRPIX1  =                  2.5";
   card_of "CRPIX2  =                  2.5";
   card_of "CRVAL1  =                  0.0";
   card_of "CRVAL2  =                -90.0";
   card_of "CDELT1  =                 -0.5";
   card_of "CDELT2  =                  0.5";
   card_of "LONPOLE =                180.0";
   Card_end].

(** A header with two blank cards among its cards and one at its end. *)
Definition header_blanks : header :=
  [card_of "NAXIS   =                    2";
   card_of "";
   card_of "NAXIS1  =                    4";
   card_of "        a comment under a blank label";
   Card_end;
   card_of ""].


(** A platform on which an unassigned [float] holds 0. *)
Definition no_rval (name : string) : Q := 0.


(** * Properties *)

Local Open Scope Z_scope.

(** ** The card store: lookup *)

Lemma strncmp_refl_prefix (l c : cbuf) (n : nat) :
  take n c = take n l -> strncmp l c n = 0.
Proof.
  revert l c; induction n as [|n IH]; intros l c H; simpl; [reflexivity|].
  unfold at_.
  destruct l as [|a l], c as [|b c]; simpl in *; try discriminate; try reflexivity.
  injection H as -> H.
  rewrite Ascii.eqb_refl.
  destruct (Ascii.eqb a NUL); [reflexivity|].
  now apply IH.
Qed.

Lemma strncmp_zero_prefix (l c : cbuf) (n : nat) :
  ~ In NUL l -> (n <= length l)%nat -> strncmp l c n = 0 -> take n c = take n l.
Proof.
  revert l c; induction n as [|n IH]; intros l c Hnul Hlen H; simpl; [reflexivity|].
  destruct l as [|a l]; simpl in Hlen; [lia|].
  simpl in H. unfold at_ in H; simpl in H.
  assert (Ha : Ascii.eqb a NUL = false).
  { apply Ascii.eqb_neq. intros ->. apply Hnul. now left. }
  destruct c as [|b c]; simpl in H.
  - rewrite Ha in H. exfalso.
    assert (code a <> code NUL).
    { intros E. unfold code in E. apply Ascii.eqb_neq in Ha. apply Ha.
      apply N2Z.inj in E. rewrite <- (ascii_N_embedding a), <- (ascii_N_embedding NUL).
      now f_equal. }
    lia.
  - destruct (Ascii.eqb a b) eqn:E.
    + apply Ascii.eqb_eq in E as <-. rewrite Ha in H. simpl. f_equal.
      apply IH; [|lia|exact H]. intros Hin. apply Hnul. now right.
    + exfalso. apply Ascii.eqb_neq in E. apply E.
      assert (Hc : code a = code b) by lia.
      unfold code in Hc. apply N2Z.inj in Hc.
      rewrite <- (ascii_N_embedding a), <- (ascii_N_embedding b). now f_equal.
Qed.

(** On labels of 8 bytes, none of them NUL, the comparison of the source
    is byte-for-byte equality with the first 8 bytes of the card. *)
Lemma strncmp_label (l c : cbuf) :
  length l = 8%nat -> ~ In NUL l -> (strncmp l c 8 = 0 <-> take 8 c = l).
Proof.
  intros Hlen Hnul. split; intros H.
  - apply strncmp_zero_prefix in H; [|assumption|lia].
    rewrite H. apply firstn_all2. lia.
  - apply strncmp_refl_prefix. rewrite H. symmetry. apply firstn_all2. lia.
Qed.

Lemma scan_cards_cons (l : cbuf) (c : card) (h : header) (i0 : Z) :
  scan_cards l (c :: h) i0 =
  if strncmp l c 8 =? 0 then i0 else scan_cards l h (i0 + 1).
Proof. reflexivity. Qed.

Lemma scan_cards_spec (l : cbuf) (h : header) (i0 : Z) :
  let r := scan_cards l h i0 in
  i0 <= r <= i0 + nHead h /\
  (forall j, i0 <= j < r -> strncmp l (card_at h (j - i0)) 8 <> 0) /\
  (r < i0 + nHead h -> strncmp l (card_at h (r - i0)) 8 = 0).
Proof.
  revert i0; induction h as [|c h IH]; intros i0; cbn zeta.
  - unfold nHead; simpl. repeat split; try lia.
  - rewrite scan_cards_cons. unfold nHead; simpl length. rewrite Nat2Z.inj_succ.
    destruct (strncmp l c 8 =? 0) eqn:E.
    + apply Z.eqb_eq in E. split; [lia|]. split.
      * intros j Hj. lia.
      * intros _. rewrite Z.sub_diag. exact E.
    + apply Z.eqb_neq in E.
      specialize (IH (i0 + 1)). cbn zeta in IH. unfold nHead in IH.
      destruct IH as (Hb & Hlt & Hat).
      split; [lia|]. split.
      * intros j Hj. destruct (Z.eq_dec j i0) as [->|Hne].
        -- rewrite Z.sub_diag. exact E.
        -- specialize (Hlt j ltac:(lia)).
           unfold card_at in *.
           replace (Z.to_nat (j - i0)) with (S (Z.to_nat (j - (i0 + 1)))) by lia.
           exact Hlt.
      * intros Hr. specialize (Hat ltac:(lia)).
        unfold card_at in *.
        replace (Z.to_nat (scan_cards l h (i0 + 1) - i0))
          with (S (Z.to_nat (scan_cards l h (i0 + 1) - (i0 + 1)))) by lia.
        exact Hat.
Qed.

Lemma fits_find_card_scan (l : cbuf) (h : header) :
  fits_find_card_ l h = scan_cards l h 0.
Proof.
  unfold fits_find_card_, nHead. destruct h; reflexivity.
Qed.

Lemma card_at_In (h : header) (j : Z) :
  0 <= j < nHead h -> In (card_at h j) h.
Proof.
  intros Hj. unfold card_at, nHead in *. apply nth_In. lia.
Qed.

Lemma In_card_at (h : header) (c : card) :
  In c h -> exists j, 0 <= j < nHead h /\ card_at h j = c.
Proof.
  intros Hin. destruct (In_nth _ _ [] Hin) as (n & Hn & Hc).
  exists (Z.of_nat n). unfold nHead, card_at. rewrite Nat2Z.id.
  split; [apply Nat2Z.inj_lt in Hn; split; [apply Nat2Z.is_nonneg|exact Hn]|exact Hc].
Qed.

(** C5 (as amended).  For every header of 80-byte cards and every label of
    8 bytes, none of them NUL, [fits_find_card_] returns the position of
    the first card whose first 8 bytes equal the label byte for byte
    (case matters), and returns [nHead] exactly when no card does. *)
Theorem fits_find_card_first_exact_match (pLabel : cbuf) (h : header) :
  length pLabel = 8%nat -> ~ In NUL pLabel ->
  let iCard := fits_find_card_ pLabel h in
  0 <= iCard <= nHead h /\
  (forall j, 0 <= j < iCard -> take 8 (card_at h j) <> pLabel) /\
  (iCard < nHead h -> take 8 (card_at h iCard) = pLabel) /\
  (iCard = nHead h <-> forall c, In c h -> take 8 c <> pLabel).
Proof.
  intros Hlen Hnul. cbn zeta. rewrite fits_find_card_scan.
  destruct (scan_cards_spec pLabel h 0) as (Hb & Hlt & Hat). cbn zeta in *.
  repeat split; try lia.
  - intros j Hj E. apply (Hlt j Hj). rewrite Z.sub_0_r.
    now apply strncmp_label.
  - intros Hr. specialize (Hat ltac:(lia)). rewrite Z.sub_0_r in Hat.
    now apply strncmp_label in Hat.
  - intros E c Hin Hc. destruct (In_card_at h c Hin) as (j & Hj & <-).
    apply (Hlt j ltac:(lia)). rewrite Z.sub_0_r. now apply strncmp_label.
  - intros Hall. destruct (Z.eq_dec (scan_cards pLabel h 0) (nHead h)) as [E|Hne]; [exact E|].
    exfalso. specialize (Hat ltac:(lia)). rewrite Z.sub_0_r in Hat.
    apply strncmp_label in Hat; try assumption.
    apply (Hall (card_at h (scan_cards pLabel h 0))); [|exact Hat].
    apply card_at_In. lia.
Qed.

(** ** The card store: string values *)

Lemma ccalloc_cons (n : nat) :
  ccalloc_ (S n) = malloc_junk O :: map malloc_junk (seq 1 n).
Proof. reflexivity. Qed.

(** C9.  When no card matches the label, [fits_get_card_string_] returns
    FALSE and a non-NULL pointer to the string "?"; when the first
    matching card has no quote at byte 10, it returns TRUE and a non-NULL
    pointer to the empty string. *)
Theorem fits_get_card_string_fallbacks (pLabel : cbuf) (h : header) :
  (fits_find_card_ pLabel h = nHead h ->
   fst (fits_get_card_string_ pLabel h) = FALSE_MWDUST /\
   snd (fits_get_card_string_ pLabel h) <> None /\
   string_at (snd (fits_get_card_string_ pLabel h)) = lit "?") /\
  (fits_find_card_ pLabel h < nHead h ->
   at_ (card_at h (fits_find_card_ pLabel h)) 10 <> QUOTE ->
   fst (fits_get_card_string_ pLabel h) = TRUE_MWDUST /\
   snd (fits_get_card_string_ pLabel h) <> None /\
   string_at (snd (fits_get_card_string_ pLabel h)) = []).
Proof.
  rewrite fits_find_card_scan. unfold fits_get_card_string_.
  split.
  - intros E. rewrite E, Z.ltb_irrefl. cbn [fst snd].
    split; [reflexivity|]. split; [discriminate|].
    rewrite ccalloc_cons. reflexivity.
  - intros Hlt Hq. apply Z.ltb_lt in Hlt. rewrite Hlt.
    apply Ascii.eqb_neq in Hq. rewrite Hq.
    cbn [fst snd]. split; [reflexivity|]. split; [discriminate|].
    rewrite ccalloc_cons. reflexivity.
Qed.

(** ** The binary data layer: element sizes and conversion *)

(** C7 (as amended).  The size table of [fits_size_from_bitpix_]; the
    scale and offset applied by [fits_get_rval_] to the integer encodings
    8, 16 and 32 and not to the real encodings -32 and -64; and, for a
    code that has no size (other than -8), the value 0 returned by
    [fits_get_rval_] whatever the data: no error is raised. *)
Theorem bitpix_sizes_and_scaling (bitpix iloc : Z) (bscale bzero : R) (pData : cbuf) :
  (fits_size_from_bitpix_ 8 = 1 /\ fits_size_from_bitpix_ 16 = 2 /\
   fits_size_from_bitpix_ 32 = 4 /\ fits_size_from_bitpix_ 64 = 8 /\
   fits_size_from_bitpix_ (-16) = 2 /\ fits_size_from_bitpix_ (-32) = 4 /\
   fits_size_from_bitpix_ (-64) = 8) /\
  (~ In bitpix [8; 16; 32; 64; -16; -32; -64] -> fits_size_from_bitpix_ bitpix = 0) /\
  (In bitpix [8; 16; 32] ->
   fits_get_rval_ iloc bitpix bscale bzero pData
   = (fits_get_rval_ iloc bitpix 1 0 pData * bscale + bzero)%R) /\
  (In bitpix [-32; -64] ->
   forall bscale' bzero',
     fits_get_rval_ iloc bitpix bscale bzero pData
     = fits_get_rval_ iloc bitpix bscale' bzero' pData) /\
  (fits_size_from_bitpix_ bitpix = 0 -> bitpix <> -8 ->
   fits_get_rval_ iloc bitpix bscale bzero pData = 0%R).
Proof.
  split; [repeat split|]. split; [|split; [|split]].
  - intros Hn. unfold fits_size_from_bitpix_.
    repeat match goal with
           | |- context [?a =? ?b] =>
               destruct (Z.eqb_spec a b) as [->|?];
               [exfalso; apply Hn; simpl; tauto|]
           end.
    reflexivity.
  - intros [<-|[<-|[<-|[]]]]; unfold fits_get_rval_; simpl; rlra.
  - intros [<-|[<-|[]]] s z; reflexivity.
  - unfold fits_size_from_bitpix_, fits_get_rval_. intros Hs Hn8.
    repeat match goal with
           | H : context [?a =? ?b] |- _ =>
               destruct (Z.eqb_spec a b) as [->|?]; [discriminate H|]
           end.
    repeat match goal with
           | |- context [?a =? ?b] =>
               destruct (Z.eqb_spec a b) as [->|?]; [exfalso; lia|]
           end.
    reflexivity.
Qed.

(** ** The binary data layer: byte order *)

Lemma poke_app_r (pre d : cbuf) (k : nat) (c : uchar) :
  poke (pre ++ d) (length pre + k) c = pre ++ poke d k c.
Proof. unfold poke. apply insert_app_r. Qed.

Lemma at_app_r (pre d : cbuf) (k : nat) :
  at_ (pre ++ d) (length pre + k) = at_ d k.
Proof.
  unfold at_. rewrite app_nth2 by lia. f_equal. lia.
Qed.

Lemma fits_bswap2_app_r (pre d : cbuf) (i j : nat) :
  fits_bswap2 (pre ++ d) (length pre + i) (length pre + j)
  = pre ++ fits_bswap2 d i j.
Proof.
  unfold fits_bswap2. now rewrite !at_app_r, !poke_app_r.
Qed.

Lemma reverse_elements_length (w n : nat) (d : cbuf) :
  length (reverse_elements w n d) = length d.
Proof.
  revert d; induction n as [|n IH]; intros d; simpl; [reflexivity|].
  rewrite length_app, length_rev, IH, length_take, length_drop. lia.
Qed.

(** One pass of a swapping loop over the elements that follow a prefix
    already treated. *)
Lemma for_idata_elements (w : nat) (body : nat -> cbuf -> cbuf) (n : nat) :
  (forall (pre x rest : cbuf) (i : nat),
      length pre = (w * i)%nat -> length x = w ->
      body i (pre ++ x ++ rest) = pre ++ rev x ++ rest) ->
  forall (pre d : cbuf) (i : nat),
    length pre = (w * i)%nat -> (w * n <= length d)%nat ->
    for_idata body n i (pre ++ d) = pre ++ reverse_elements w n d.
Proof.
  intros Hbody. induction n as [|n IH]; intros pre d i Hpre Hd; simpl; [reflexivity|].
  rewrite <- (take_drop w d) at 1.
  rewrite Hbody; [|exact Hpre|rewrite length_take; lia].
  rewrite app_assoc. rewrite IH.
  - now rewrite <- app_assoc.
  - rewrite length_app, length_rev, length_take. lia.
  - rewrite length_drop. lia.
Qed.

Lemma list_exact_2 (x : cbuf) :
  length x = 2%nat -> exists a b, x = [a; b].
Proof.
  destruct x as [|a [|b [|]]]; simpl; try discriminate. intros _. now exists a, b.
Qed.

Lemma list_exact_4 (x : cbuf) :
  length x = 4%nat -> exists a b c d, x = [a; b; c; d].
Proof.
  destruct x as [|a [|b [|c [|d [|]]]]]; simpl; try discriminate.
  intros _. now exists a, b, c, d.
Qed.

Lemma list_exact_8 (x : cbuf) :
  length x = 8%nat -> exists a b c d e f g k, x = [a; b; c; d; e; f; g; k].
Proof.
  destruct x as [|a [|b [|c [|d [|e [|f [|g [|k [|]]]]]]]]]; simpl; try discriminate.
  intros _. now exists a, b, c, d, e, f, g, k.
Qed.

Ltac swap_at_prefix pre i w :=
  repeat match goal with
         | |- context [(w * i + ?k)%nat] =>
             replace (w * i + k)%nat with (length pre + k)%nat by lia
         | |- context [fits_bswap2 (pre ++ ?d) (w * i)%nat (length pre + ?j)] =>
             replace (w * i)%nat with (length pre + 0)%nat by lia
         end;
  rewrite !fits_bswap2_app_r.

Lemma body16 (pre x rest : cbuf) (i : nat) :
  length pre = (2 * i)%nat -> length x = 2%nat ->
  fits_bswap2 (pre ++ x ++ rest) (2 * i) (2 * i + 1) = pre ++ rev x ++ rest.
Proof.
  intros Hpre Hx. destruct (list_exact_2 x Hx) as (a & b & ->).
  swap_at_prefix pre i 2%nat. reflexivity.
Qed.

Lemma body32 (pre x rest : cbuf) (i : nat) :
  length pre = (4 * i)%nat -> length x = 4%nat ->
  fits_bswap2 (fits_bswap2 (pre ++ x ++ rest) (4 * i) (4 * i + 3))
    (4 * i + 1) (4 * i + 2) = pre ++ rev x ++ rest.
Proof.
  intros Hpre Hx. destruct (list_exact_4 x Hx) as (a & b & c & d & ->).
  swap_at_prefix pre i 4%nat. reflexivity.
Qed.

Lemma body64 (pre x rest : cbuf) (i : nat) :
  length pre = (8 * i)%nat -> length x = 8%nat ->
  fits_bswap2
    (fits_bswap2
       (fits_bswap2 (fits_bswap2 (pre ++ x ++ rest) (8 * i) (8 * i + 7))
          (8 * i + 1) (8 * i + 6))
       (8 * i + 2) (8 * i + 5))
    (8 * i + 3) (8 * i + 4) = pre ++ rev x ++ rest.
Proof.
  intros Hpre Hx.
  destruct (list_exact_8 x Hx) as (a & b & c & d & e & f & g & k & ->).
  swap_at_prefix pre i 8%nat. reflexivity.
Qed.

Lemma fits_byteswap_reverse (bitpix nData : Z) (pData : cbuf) :
  (swap_width bitpix * Z.to_nat nData <= length pData)%nat ->
  fits_byteswap bitpix nData pData
  = if (swap_width bitpix =? 0)%nat then pData
    else reverse_elements (swap_width bitpix) (Z.to_nat nData) pData.
Proof.
  unfold fits_byteswap, swap_width.
  destruct (Z.abs bitpix =? 16); [|destruct (Z.abs bitpix =? 32);
                                     [|destruct (Z.abs bitpix =? 64)]];
    intros Hlen; simpl Nat.eqb; cbv iota; try reflexivity.
  - apply (for_idata_elements 2 _ _ body16 [] pData 0%nat); [reflexivity|exact Hlen].
  - apply (for_idata_elements 4 _ _ body32 [] pData 0%nat); [reflexivity|exact Hlen].
  - apply (for_idata_elements 8 _ _ body64 [] pData 0%nat); [reflexivity|exact Hlen].
Qed.

Lemma reverse_elements_involutive (w n : nat) (d : cbuf) :
  (w * n <= length d)%nat ->
  reverse_elements w n (reverse_elements w n d) = d.
Proof.
  revert d; induction n as [|n IH]; intros d Hd; simpl; [reflexivity|].
  assert (Hw : w = length (rev (take w d))) by (rewrite length_rev, length_take; lia).
  rewrite take_app_length' by exact Hw.
  rewrite drop_app_length' by exact Hw.
  rewrite rev_involutive, IH by (rewrite length_drop; lia).
  apply take_drop.
Qed.

(** C10.  On a buffer that holds [nData] elements, [fits_byteswap]
    reverses the bytes of each of them when [|bitpix|] is 16, 32 or 64
    (elements of 2, 4, 8 bytes), changes nothing for any other code, and
    applied twice gives the buffer back. *)
Theorem fits_byteswap_reverses_and_restores (bitpix nData : Z) (pData : cbuf) :
  (swap_width bitpix * Z.to_nat nData <= length pData)%nat ->
  (In (Z.abs bitpix) [16; 32; 64] ->
   fits_byteswap bitpix nData pData
   = reverse_elements (Z.to_nat (Z.abs bitpix / 8)) (Z.to_nat nData) pData) /\
  (~ In (Z.abs bitpix) [16; 32; 64] -> fits_byteswap bitpix nData pData = pData) /\
  fits_byteswap bitpix nData (fits_byteswap bitpix nData pData) = pData.
Proof.
  intros Hlen.
  pose proof (fits_byteswap_reverse bitpix nData pData Hlen) as Hr.
  split; [|split].
  - intros Hin. rewrite Hr. unfold swap_width.
    destruct Hin as [E|[E|[E|[]]]]; rewrite <- E; reflexivity.
  - intros Hn. rewrite Hr. unfold swap_width.
    repeat match goal with
           | |- context [?a =? ?b] =>
               destruct (Z.eqb_spec a b) as [E|?];
               [exfalso; apply Hn; rewrite E; simpl; auto|]
           end.
    reflexivity.
  - rewrite Hr. destruct (swap_width bitpix =? 0)%nat eqn:E0.
    + exact Hr.
    + rewrite fits_byteswap_reverse by (rewrite reverse_elements_length; exact Hlen).
      rewrite E0. now apply reverse_elements_involutive.
Qed.

(** ** The card store: writing a value and reading it back *)

Lemma code_digit_char (d : Z) :
  0 <= d <= 9 -> code (digit_char d) = 48 + d.
Proof.
  intros Hd. unfold code, digit_char.
  rewrite N_ascii_embedding; [lia|].
  apply N2Z.inj_lt. rewrite Z2N.id by lia. simpl. lia.
Qed.

Lemma isdigit_digit_char (d : Z) :
  0 <= d <= 9 -> isdigit (digit_char d) = true.
Proof.
  intros Hd. unfold isdigit. rewrite code_digit_char by exact Hd.
  apply andb_true_intro. split; apply Z.leb_le; lia.
Qed.

Lemma dval_app (a : Z) (ds ds' : cbuf) :
  dval a (ds ++ ds') = dval (dval a ds) ds'.
Proof. unfold dval. apply fold_left_app. Qed.

(** [udigits] with enough fuel prepends the decimal digits of [n]. *)
Lemma udigits_spec (f : nat) :
  forall (n : Z) (acc : cbuf),
    0 <= n < 2 ^ Z.of_nat (S f) ->
    exists ds,
      udigits (S f) n acc = ds ++ acc /\
      all_digits ds /\ (0 < length ds)%nat /\
      (forall a, dval a ds = a * 10 ^ Z.of_nat (length ds) + n) /\
      (0 < n -> 10 ^ (Z.of_nat (length ds) - 1) <= n < 10 ^ Z.of_nat (length ds)).
Proof.
  assert (Hone : forall (n : Z) (acc : cbuf),
             0 <= n -> n / 10 = 0 ->
             exists ds,
               digit_char (n mod 10) :: acc = ds ++ acc /\
               all_digits ds /\ (0 < length ds)%nat /\
               (forall a, dval a ds = a * 10 ^ Z.of_nat (length ds) + n) /\
               (0 < n -> 10 ^ (Z.of_nat (length ds) - 1) <= n
                         < 10 ^ Z.of_nat (length ds))).
  { intros n acc Hn E.
    assert (Hmod : 0 <= n mod 10 <= 9) by (pose proof (Z.mod_pos_bound n 10); lia).
    assert (Hdiv : n = 10 * (n / 10) + n mod 10) by (apply Z.div_mod; lia).
    exists [digit_char (n mod 10)].
    split; [reflexivity|].
    split; [constructor; [now apply isdigit_digit_char|constructor]|].
    split; [simpl; lia|].
    split.
    - intros a. unfold dval. simpl. rewrite code_digit_char by exact Hmod. lia.
    - intros Hpos. simpl. lia. }
  induction f as [|f IH]; intros n acc Hn.
  - simpl udigits.
    assert (E : n / 10 = 0) by (apply Z.div_small; simpl in Hn; lia).
    rewrite E. simpl. apply Hone; [lia|exact E].
  - change (udigits (S (S f)) n acc)
      with (let acc' := digit_char (n mod 10) :: acc in
            if n / 10 =? 0 then acc' else udigits (S f) (n / 10) acc').
    cbn zeta.
    assert (Hmod : 0 <= n mod 10 <= 9) by (pose proof (Z.mod_pos_bound n 10); lia).
    assert (Hdiv : n = 10 * (n / 10) + n mod 10) by (apply Z.div_mod; lia).
    destruct (Z.eqb_spec (n / 10) 0) as [E|E].
    + apply Hone; [lia|exact E].
    + assert (Hn' : 0 <= n / 10 < 2 ^ Z.of_nat (S f)).
      { split; [apply Z.div_pos; lia|].
        apply Z.div_lt_upper_bound; [lia|].
        rewrite (Nat2Z.inj_succ (S f)), Z.pow_succ_r in Hn by lia. lia. }
      destruct (IH (n / 10) (digit_char (n mod 10) :: acc) Hn')
        as (ds & Hds & Hall & Hlen & Hval & Hbnd).
      exists (ds ++ [digit_char (n mod 10)]).
      split; [rewrite Hds, <- app_assoc; reflexivity|].
      split; [apply Forall_app; split;
              [exact Hall|constructor; [now apply isdigit_digit_char|constructor]]|].
      rewrite length_app. simpl length.
      split; [lia|].
      replace (Z.of_nat (length ds + 1)) with (Z.of_nat (length ds) + 1) by lia.
      rewrite Z.pow_add_r, Z.pow_1_r by lia.
      split.
      * intros a. rewrite dval_app, Hval. unfold dval. simpl.
        rewrite code_digit_char by exact Hmod. lia.
      * intros Hpos.
        assert (Hq : 0 < n / 10) by (destruct Hn'; lia).
        specialize (Hbnd Hq).
        replace (Z.of_nat (length ds) + 1 - 1) with (Z.of_nat (length ds)) by lia.
        assert (Hp : 10 ^ Z.of_nat (length ds)
                     = 10 * 10 ^ (Z.of_nat (length ds) - 1)).
        { rewrite <- Z.pow_succ_r by lia. f_equal. lia. }
        lia.
Qed.

Lemma utoa_spec (n : Z) :
  0 <= n ->
  all_digits (utoa n) /\ (0 < length (utoa n))%nat /\
  (forall a, dval a (utoa n) = a * 10 ^ Z.of_nat (length (utoa n)) + n) /\
  (0 < n -> 10 ^ (Z.of_nat (length (utoa n)) - 1) <= n < 10 ^ Z.of_nat (length (utoa n))).
Proof.
  intros Hn. unfold utoa.
  destruct (udigits_spec (Z.to_nat (Z.log2 n)) n []) as (ds & Hds & H).
  - split; [exact Hn|].
    rewrite Nat2Z.inj_succ, Z2Nat.id by apply Z.log2_nonneg.
    destruct (Z.eq_dec n 0) as [->|Hne]; [reflexivity|].
    apply Z.log2_spec. lia.
  - rewrite Hds, app_nil_r. exact H.
Qed.

Lemma scan_digits_app (ds rest : cbuf) (a : Z) (k : nat) :
  all_digits ds ->
  scan_digits (ds ++ rest) a k = scan_digits rest (dval a ds) (k + length ds).
Proof.
  intros Hall. revert a k. induction Hall as [|c ds Hc Hall IH]; intros a k.
  - simpl. f_equal. lia.
  - simpl. rewrite Hc, IH. unfold dval. simpl. f_equal. lia.
Qed.

Lemma scan_digits_stop (s : cbuf) (a : Z) (k : nat) :
  stops_digits s -> scan_digits s a k = (a, k, s).
Proof.
  unfold stops_digits, at_. destruct s as [|c s]; simpl; [reflexivity|].
  now intros ->.
Qed.

Lemma skip_space_blanks (n : nat) (s : cbuf) :
  skip_space (repeat BLANK n ++ s) = skip_space s.
Proof. induction n as [|n IH]; simpl; [reflexivity|exact IH]. Qed.

Lemma skip_space_stop (c : uchar) (s : cbuf) :
  isspace c = false -> skip_space (c :: s) = c :: s.
Proof. intros H. simpl. now rewrite H. Qed.

Lemma digit_not_space (c : uchar) : isdigit c = true -> isspace c = false.
Proof.
  unfold isdigit, isspace. intros H. apply andb_prop in H as [H1 H2].
  apply Z.leb_le in H1, H2.
  apply orb_false_intro; [apply Z.eqb_neq; lia|].
  apply andb_false_intro2. apply Z.leb_gt. lia.
Qed.

Lemma digit_not_sign (c : uchar) :
  isdigit c = true -> Ascii.eqb c "-"%char = false /\ Ascii.eqb c "+"%char = false.
Proof.
  unfold isdigit. intros H. apply andb_prop in H as [H1 H2].
  apply Z.leb_le in H1, H2.
  split; apply Ascii.eqb_neq; intros ->; vm_compute in H1; now apply H1.
Qed.

Lemma all_digits_head (ds : cbuf) :
  all_digits ds -> (0 < length ds)%nat ->
  exists c ds', ds = c :: ds' /\ isdigit c = true.
Proof.
  intros Hall Hlen. destruct ds as [|c ds']; [simpl in Hlen; lia|].
  exists c, ds'. split; [reflexivity|]. now inversion Hall.
Qed.

(** Reading back what ["%d"] wrote. *)
Lemma sscanf_d_itoa (n : nat) (v : Z) :
  sscanf_d (repeat BLANK n ++ itoa v) = Some v.
Proof.
  unfold sscanf_d. rewrite skip_space_blanks. unfold itoa.
  destruct (Z.ltb_spec v 0) as [Hneg|Hpos].
  - destruct (utoa_spec (- v) ltac:(lia)) as (Hall & Hlen & Hval & _).
    rewrite skip_space_stop by reflexivity. simpl scan_sign.
    rewrite <- (app_nil_r (utoa (- v))).
    rewrite scan_digits_app, scan_digits_stop by (assumption || reflexivity).
    rewrite Hval. simpl Nat.add.
    destruct (length (utoa (- v))) eqn:E; [lia|]. simpl. f_equal; lia.
  - destruct (utoa_spec v Hpos) as (Hall & Hlen & Hval & _).
    destruct (all_digits_head _ Hall Hlen) as (c & ds' & Hds & Hc).
    rewrite Hds.
    rewrite skip_space_stop by now apply digit_not_space.
    unfold scan_sign. destruct (digit_not_sign c Hc) as (-> & ->).
    rewrite <- Hds.
    rewrite <- (app_nil_r (utoa v)).
    rewrite scan_digits_app, scan_digits_stop by (assumption || reflexivity).
    rewrite Hval. simpl Nat.add.
    destruct (length (utoa v)) eqn:E; [lia|]. simpl. f_equal; lia.
Qed.

Lemma blank_from_null_true (s : cbuf) (n : nat) :
  blank_from_null s n true = repeat BLANK n.
Proof.
  revert s; induction n as [|n IH]; intros s; simpl; [reflexivity|].
  now rewrite IH.
Qed.

Lemma blank_from_null_clean (s : cbuf) (n : nat) :
  clean_text s -> (length s <= n)%nat ->
  blank_from_null s n false = s ++ repeat BLANK (n - length s).
Proof.
  intros Hs. revert n. induction Hs as [|c s [Hc1 Hc2] Hs IH]; intros n Hn.
  - destruct n as [|n]; simpl; [reflexivity|].
    now rewrite blank_from_null_true.
  - destruct n as [|n]; simpl in Hn; [lia|].
    simpl. unfold at_. simpl. rewrite Hc1, Hc2. simpl. f_equal.
    apply IH. lia.
Qed.

Lemma all_digits_clean (ds : cbuf) : all_digits ds -> clean_text ds.
Proof.
  intros H. eapply Forall_impl; [exact H|].
  intros c Hc. simpl in Hc. unfold isdigit in Hc.
  apply andb_prop in Hc as [H1 H2]. apply Z.leb_le in H1, H2.
  split; apply Ascii.eqb_neq; intros ->; vm_compute in H1; now apply H1.
Qed.

Lemma clean_text_app (s t : cbuf) : clean_text s -> clean_text t -> clean_text (s ++ t).
Proof. intros Hs Ht. apply Forall_app. now split. Qed.

Lemma clean_text_blanks (n : nat) : clean_text (repeat BLANK n).
Proof. induction n; simpl; constructor; [split; reflexivity|assumption]. Qed.

Lemma clean_text_no_nul (s : cbuf) : clean_text s -> ~ In NUL s.
Proof.
  intros Hs Hin. unfold clean_text in Hs. rewrite Forall_forall in Hs.
  rewrite <- list_elem_of_In in Hin.
  destruct (Hs _ Hin) as [H _]. discriminate H.
Qed.

Lemma strlen_clean (s : cbuf) : clean_text s -> strlen s = length s.
Proof.
  induction 1 as [|c s [Hc _] Hs IH]; simpl; [reflexivity|].
  now rewrite Hc, IH.
Qed.

Lemma fmt_label_id (l : cbuf) :
  length l = 8%nat -> clean_text l -> fmt_label l = l.
Proof.
  intros Hlen Hcl. unfold fmt_label, cstr, pad_right.
  rewrite strlen_clean by exact Hcl.
  rewrite firstn_all, firstn_all2 by lia.
  rewrite Hlen. simpl. apply app_nil_r.
Qed.

(** The card written for a label and a 20-byte value field. *)
Lemma fits_string_to_card_value (l field : cbuf) :
  length l = 8%nat -> clean_text l -> map toupper l = l ->
  length field = 20%nat -> clean_text field ->
  fits_string_to_card_ (l ++ lit "= " ++ field)
  = l ++ lit "= " ++ field ++ repeat BLANK 50.
Proof.
  intros Hl Hcl Hup Hf Hcf. unfold fits_string_to_card_.
  rewrite blank_from_null_clean.
  - rewrite !length_app, Hl, Hf. simpl length. simpl Nat.sub.
    rewrite <- !app_assoc.
    rewrite take_app_length' by (symmetry; exact Hl).
    rewrite drop_app_length' by (symmetry; exact Hl).
    now rewrite Hup.
  - apply clean_text_app; [exact Hcl|].
    apply clean_text_app; [|exact Hcf].
    repeat constructor.
  - rewrite !length_app, Hl, Hf. simpl. lia.
Qed.

Lemma value_field_written (l field : cbuf) :
  length l = 8%nat -> length field = 20%nat ->
  value_field (l ++ lit "= " ++ field ++ repeat BLANK 50) = field.
Proof.
  intros Hl Hf. unfold value_field.
  rewrite app_assoc.
  rewrite drop_app_length' by (rewrite length_app, Hl; reflexivity).
  apply take_app_length'. symmetry; exact Hf.
Qed.

Lemma strncmp_written (l rest : cbuf) :
  length l = 8%nat -> strncmp l (l ++ rest) 8 = 0.
Proof.
  intros Hl. apply strncmp_refl_prefix.
  rewrite take_app_length' by (symmetry; exact Hl).
  symmetry. apply firstn_all2. lia.
Qed.

Lemma scan_cards_skip (l : cbuf) (pre rest : header) (i0 : Z) :
  (forall c, In c pre -> strncmp l c 8 <> 0) ->
  scan_cards l (pre ++ rest) i0 = scan_cards l rest (i0 + nHead pre).
Proof.
  revert i0; induction pre as [|c pre IH]; intros i0 Hpre.
  - unfold nHead. simpl. f_equal. lia.
  - rewrite <- app_comm_cons, scan_cards_cons.
    destruct (Z.eqb_spec (strncmp l c 8) 0) as [E|E].
    + exfalso. apply (Hpre c); [now left|exact E].
    + rewrite IH by (intros c' Hc'; apply Hpre; now right).
      f_equal. unfold nHead. simpl length. lia.
Qed.

Lemma In_take {A} (x : A) (n : nat) (l : list A) : In x (take n l) -> In x l.
Proof.
  intros H. rewrite <- (take_drop n l). apply in_or_app. now left.
Qed.

Lemma no_match_all (l : cbuf) (h : header) :
  fits_find_card_ l h = nHead h -> forall c, In c h -> strncmp l c 8 <> 0.
Proof.
  rewrite fits_find_card_scan. intros E c Hin.
  destruct (scan_cards_spec l h 0) as (_ & Hlt & _). cbn zeta in Hlt.
  destruct (In_card_at h c Hin) as (j & Hj & <-).
  specialize (Hlt j ltac:(lia)). now rewrite Z.sub_0_r in Hlt.
Qed.

Lemma nHead_nonneg (h : header) : 0 <= nHead h.
Proof. unfold nHead. apply Nat2Z.is_nonneg. Qed.

Lemma nHead_app (h1 h2 : header) : nHead (h1 ++ h2) = nHead h1 + nHead h2.
Proof. unfold nHead. rewrite length_app. apply Nat2Z.inj_add. Qed.

Lemma nHead_cons (c : card) (h : header) : nHead (c :: h) = 1 + nHead h.
Proof. unfold nHead. simpl length. lia. Qed.

Lemma card_at_app_r (pre : header) (c : card) (rest : header) :
  card_at (pre ++ c :: rest) (nHead pre) = c.
Proof.
  unfold card_at, nHead. rewrite Nat2Z.id.
  rewrite app_nth2 by lia. now rewrite Nat.sub_diag.
Qed.

(** After [fits_add_card_] on a header that has no card with the label,
    the accessors' scan stops at the card just written. *)
Lemma scan_after_add (l pCard : cbuf) (h : header) :
  fits_find_card_ l h = nHead h ->
  strncmp l (fits_string_to_card_ pCard) 8 = 0 ->
  let h' := fst (fits_add_card_ pCard h) in
  scan_cards l h' 0 < nHead h' /\
  card_at h' (scan_cards l h' 0) = fits_string_to_card_ pCard.
Proof.
  intros Hno Hnew. cbn zeta.
  pose proof (no_match_all l h Hno) as Hall.
  unfold fits_add_card_.
  set (new := fits_string_to_card_ pCard) in *.
  set (e := fits_find_card_ Card_end h).
  destruct ((0 <? nHead h) && (e <? nHead h)) eqn:Hc; cbn [fst].
  - apply andb_prop in Hc as [_ He]. apply Z.ltb_lt in He.
    assert (He0 : 0 <= e).
    { unfold e. rewrite fits_find_card_scan.
      destruct (scan_cards_spec Card_end h 0) as (Hb & _). cbn zeta in Hb. lia. }
    assert (Hpre : nHead (take (Z.to_nat e) h) = e).
    { unfold nHead in *. rewrite length_take. lia. }
    rewrite scan_cards_skip
      by (intros c Hc; apply Hall; apply (In_take _ _ _ Hc)).
    rewrite scan_cards_cons, Hnew. simpl Z.eqb. cbv iota.
    rewrite Z.add_0_l. split.
    + rewrite nHead_app, nHead_cons.
      match goal with |- _ < _ + (1 + nHead ?x) => pose proof (nHead_nonneg x) end.
      lia.
    + apply card_at_app_r.
  - rewrite scan_cards_skip by exact Hall.
    rewrite scan_cards_cons, Hnew. simpl Z.eqb. cbv iota.
    rewrite Z.add_0_l. split.
    + rewrite nHead_app, nHead_cons.
      match goal with |- _ < _ + (1 + nHead ?x) => pose proof (nHead_nonneg x) end.
      lia.
    + apply card_at_app_r.
Qed.

(** *** The real conversion read back *)
















Lemma Qcompare_Gt_lt (q : Q) : (q ?= 0)%Q = Gt -> (0 < q)%Q.
Proof. intros H. now apply Qgt_alt. Qed.


Lemma clean_text_itoa (v : Z) : clean_text (itoa v).
Proof.
  unfold itoa. destruct (v <? 0) eqn:E.
  - constructor; [split; reflexivity|].
    apply all_digits_clean. apply utoa_spec. apply Z.ltb_lt in E. lia.
  - apply all_digits_clean. apply utoa_spec. apply Z.ltb_ge in E. lia.
Qed.



Lemma pad_left_length (w : nat) (s : cbuf) :
  (length s <= w)%nat -> length (pad_left w s) = w.
Proof.
  intros H. unfold pad_left. rewrite length_app, repeat_length. lia.
Qed.

(** What the accessors return for a label whose first match is a card
    written by [fits_add_card_] with a 20-byte value field. *)
Lemma accessors_after_add (l field : cbuf) (h : header) :
  length l = 8%nat -> clean_text l -> map toupper l = l ->
  length field = 20%nat -> clean_text field ->
  fits_find_card_ l h = nHead h ->
  let h' := fst (fits_add_card_ (fmt_label l ++ lit "= " ++ field) h) in
  fits_get_card_ival_ l h' = (TRUE_MWDUST, sscanf_d field) /\
  fits_get_card_rval_ l h' = (TRUE_MWDUST, sscanf_f field).
Proof.
  intros Hl Hcl Hup Hf Hcf Hno. cbn zeta.
  rewrite fmt_label_id by assumption.
  pose proof (fits_string_to_card_value l field Hl Hcl Hup Hf Hcf) as Hcard.
  destruct (scan_after_add l (l ++ lit "= " ++ field) h Hno) as (Hlt & Hat).
  { rewrite Hcard. now apply strncmp_written. }
  cbn zeta in Hlt, Hat. apply Z.ltb_lt in Hlt.
  unfold fits_get_card_ival_, fits_get_card_rval_.
  rewrite Hlt, Hat, Hcard, value_field_written by assumption.
  split; reflexivity.
Qed.


(** ** The projection *)

Local Open Scope R_scope.

Lemma strcmp_refl (s : cbuf) : strcmp s s = 0%Z.
Proof. unfold strcmp. now apply strncmp_refl_prefix. Qed.

Lemma lb2fpix_lambert (h : header) (gall galb : R) (nsgp : Z)
  (scale crpix1 crpix2 crval1 crval2 : Q) :
  ctypes h = (lit "LAMBERT--X", lit "LAMBERT--Y") ->
  snd (fits_get_card_ival_ Label_lam_nsgp h) = Some nsgp ->
  snd (fits_get_card_rval_ Label_lam_scal h) = Some scale ->
  snd (fits_get_card_rval_ Label_crpix1 h) = Some crpix1 ->
  snd (fits_get_card_rval_ Label_crpix2 h) = Some crpix2 ->
  snd (fits_get_card_rval_ Label_crval1 h) = Some crval1 ->
  snd (fits_get_card_rval_ Label_crval2 h) = Some crval2 ->
  lambert_lb2fpix gall galb h
  = (sqrt (1 - IZR nsgp * sin (galb / dradeg)) * cos (gall / dradeg) * Q2R scale
     + Q2R crpix1 - Q2R crval1 - 1,
     - IZR nsgp * sqrt (1 - IZR nsgp * sin (galb / dradeg)) * sin (gall / dradeg)
       * Q2R scale
     + Q2R crpix2 - Q2R crval2 - 1).
Proof.
  intros Hct Hn Hs Hp1 Hp2 Hv1 Hv2. unfold lambert_lb2fpix.
  rewrite Hct, !strcmp_refl. simpl andb. cbv iota.
  unfold stored_int, stored_float. rewrite Hn, Hs, Hp1, Hp2, Hv1, Hv2.
  reflexivity.
Qed.

(** Any other pair of axis types gives the sentinel coordinates. *)
Lemma lb2fpix_unsupported (h : header) (gall galb : R) :
  strcmp (fst (ctypes h)) (lit "LAMBERT--X") <> 0%Z ->
  strcmp (fst (ctypes h)) (lit "GLON-ZEA") <> 0%Z ->
  lambert_lb2fpix gall galb h = (-99, -99).
Proof.
  intros H1 H2. unfold lambert_lb2fpix.
  destruct (ctypes h) as [c1 c2]. cbn [fst] in *.
  apply Z.eqb_neq in H1, H2. now rewrite H1, H2.
Qed.

(** C1.  Under the custom polar convention, [lambert_lb2fpix] returns
    [x = sqrt(1 - nsgp sin b) cos l scale + CRPIX1 - CRVAL1 - 1] and
    [y = - nsgp sqrt(1 - nsgp sin b) sin l scale + CRPIX2 - CRVAL2 - 1],
    the angles [l] and [b] being given in degrees (divided by [dradeg]
    before the sine and cosine are taken). *)
Theorem lambert_lb2fpix_custom_polar (h : header) (gall galb : R) (nsgp : Z)
  (scale crpix1 crpix2 crval1 crval2 : Q) :
  ctypes h = (lit "LAMBERT--X", lit "LAMBERT--Y") ->
  snd (fits_get_card_ival_ Label_lam_nsgp h) = Some nsgp ->
  snd (fits_get_card_rval_ Label_lam_scal h) = Some scale ->
  snd (fits_get_card_rval_ Label_crpix1 h) = Some crpix1 ->
  snd (fits_get_card_rval_ Label_crpix2 h) = Some crpix2 ->
  snd (fits_get_card_rval_ Label_crval1 h) = Some crval1 ->
  snd (fits_get_card_rval_ Label_crval2 h) = Some crval2 ->
  lambert_lb2fpix gall galb h
  = (sqrt (1 - IZR nsgp * sin (galb / dradeg)) * cos (gall / dradeg) * Q2R scale
     + Q2R crpix1 - Q2R crval1 - 1,
     - IZR nsgp * sqrt (1 - IZR nsgp * sin (galb / dradeg)) * sin (gall / dradeg)
       * Q2R scale
     + Q2R crpix2 - Q2R crval2 - 1).
Proof. apply lb2fpix_lambert. Qed.

(** C8.  Under the standard zenithal-equal-area convention with CRVAL2
    above 89.9999, the direction (l=0, b=90) maps to the fractional pixel
    (CRPIX1 - 1, CRPIX2 - 1), whatever LONPOLE and CRVAL1 are and whatever
    the (invertible) scale and rotation matrix is. *)
Theorem lambert_lb2fpix_zea_pole (h : header) (crval2 crpix1 crpix2 : Q) :
  ctypes h = (lit "GLON-ZEA", lit "GLAT-ZEA") ->
  snd (fits_get_card_rval_ Label_crval2 h) = Some crval2 ->
  89.9999 < Q2R crval2 ->
  snd (fits_get_card_rval_ Label_crpix1 h) = Some crpix1 ->
  snd (fits_get_card_rval_ Label_crpix2 h) = Some crpix2 ->
  (let '(cd1_1, cd1_2, cd2_1, cd2_2) := zea_matrix h in
   cd1_1 * cd2_2 - cd1_2 * cd2_1 <> 0) ->
  lambert_lb2fpix 0 90 h = (Q2R crpix1 - 1, Q2R crpix2 - 1).
Proof.
  intros Hct Hv2 Hnorth Hp1 Hp2 Hdet. unfold lambert_lb2fpix.
  rewrite Hct, !strcmp_refl.
  change (strcmp (lit "GLON-ZEA") (lit "LAMBERT--X") =? 0)%Z with false.
  simpl andb. cbv iota.
  destruct (zea_matrix h) as [[[cd1_1 cd1_2] cd2_1] cd2_2].
  unfold stored_float. rewrite Hv2, Hp1, Hp2.
  destruct (Rlt_dec 89.9999 (Q2R crval2)) as [_|Hn]; [|contradiction].
  replace (0.5 / dradeg * (90 - 90)) with 0 by (unfold Rdiv; ring).
  rewrite sin_0.
  f_equal; field; exact Hdet.
Qed.

Lemma Zfloor_half_nearest (x : R) :
  IZR (Zfloor (x + 0.5)) - 1 / 2 <= x < IZR (Zfloor (x + 0.5)) + 1 / 2.
Proof. pose proof (Zfloor_bound (x + 0.5)). rlra. Qed.

(** C2 (as amended).  [lambert_lb2pix] rounds each fractional pixel
    coordinate to the nearest integer and clamps it from above only: the
    index returned is the smaller of that integer and NAXISk - 1.  It
    never exceeds NAXISk - 1, and it lies in [0, NAXISk - 1] whenever the
    rounded coordinate is not negative and NAXISk is at least 1. *)
Theorem lambert_lb2pix_rounds_and_clamps_above (h : header) (gall galb : R)
  (naxis1 naxis2 : Z) :
  snd (fits_get_card_ival_ Label_naxis1 h) = Some naxis1 ->
  snd (fits_get_card_ival_ Label_naxis2 h) = Some naxis2 ->
  let ix := fst (lambert_lb2pix gall galb h) in
  let iy := snd (lambert_lb2pix gall galb h) in
  exists rx ry : Z,
    IZR rx - 1 / 2 <= fst (lambert_lb2fpix gall galb h) < IZR rx + 1 / 2 /\
    IZR ry - 1 / 2 <= snd (lambert_lb2fpix gall galb h) < IZR ry + 1 / 2 /\
    ix = Z.min rx (naxis1 - 1) /\ iy = Z.min ry (naxis2 - 1) /\
    (ix <= naxis1 - 1)%Z /\ (iy <= naxis2 - 1)%Z /\
    ((0 <= rx)%Z -> (1 <= naxis1)%Z -> (0 <= ix <= naxis1 - 1)%Z) /\
    ((0 <= ry)%Z -> (1 <= naxis2)%Z -> (0 <= iy <= naxis2 - 1)%Z).
Proof.
  intros H1 H2. cbn zeta. unfold lambert_lb2pix, stored_int. rewrite H1, H2.
  destruct (lambert_lb2fpix gall galb h) as [xr yr]. cbn [fst snd].
  exists (Zfloor (xr + 0.5)), (Zfloor (yr + 0.5)).
  split; [apply Zfloor_half_nearest|]. split; [apply Zfloor_half_nearest|].
  destruct (Z.leb_spec naxis1 (Zfloor (xr + 0.5)));
    destruct (Z.leb_spec naxis2 (Zfloor (yr + 0.5)));
    repeat split; lia.
Qed.

Local Open Scope Z_scope.

(** ** Windowed reads *)





















Lemma skip_bytes_nval (off : Z) (st : rstate) :
  r_nval (skip_bytes off st) = r_nval st.
Proof. reflexivity. Qed.













(** ** Point reads and windowed reads of a 2-D map agree *)








Lemma ccalloc_length (n : nat) : length (ccalloc_ n) = n.
Proof. unfold ccalloc_. now rewrite length_map, length_seq. Qed.






(** ** The two modes of the map sampler *)

Lemma fold_min_spec (l : list Z) (a : Z) :
  let m := fold_left (fun vmin x => if x <? vmin then x else vmin) l a in
  In m (a :: l) /\ m <= a /\ Forall (fun y => m <= y) l.
Proof.
  revert a. induction l as [|x l IH]; intros a; cbn zeta.
  - simpl. split; [auto|]. split; [lia|constructor].
  - cbn [fold_left]. specialize (IH (if x <? a then x else a)).
    cbn zeta in IH. destruct IH as (Hin & Hle & Hall).
    destruct (Z.ltb_spec x a).
    + split; [simpl in *; destruct Hin; auto|].
      split; [lia|]. constructor; [lia|exact Hall].
    + split; [simpl in *; destruct Hin; auto|].
      split; [lia|]. constructor; [lia|exact Hall].
Qed.

Lemma fold_max_spec (l : list Z) (a : Z) :
  let m := fold_left (fun vmax x => if vmax <? x then x else vmax) l a in
  In m (a :: l) /\ a <= m /\ Forall (fun y => y <= m) l.
Proof.
  revert a. induction l as [|x l IH]; intros a; cbn zeta.
  - simpl. split; [auto|]. split; [lia|constructor].
  - cbn [fold_left]. specialize (IH (if a <? x then x else a)).
    cbn zeta in IH. destruct IH as (Hin & Hle & Hall).
    destruct (Z.ltb_spec a x).
    + split; [simpl in *; destruct Hin; auto|].
      split; [lia|]. constructor; [lia|exact Hall].
    + split; [simpl in *; destruct Hin; auto|].
      split; [lia|]. constructor; [lia|exact Hall].
Qed.

(** [ivector_minimum] and [ivector_maximum] of a vector that is not empty
    are members of it and bound it. *)
Lemma ivector_bounds (l : list Z) :
  l <> [] ->
  In (ivector_minimum l) l /\ In (ivector_maximum l) l /\
  forall x, In x l -> ivector_minimum l <= x <= ivector_maximum l.
Proof.
  destruct l as [|a l]; [congruence|]. intros _.
  unfold ivector_minimum, ivector_maximum. cbn [tl]. change (zat (a :: l) 0) with a.
  destruct (fold_min_spec l a) as (Hin & Hle & Hall).
  destruct (fold_max_spec l a) as (Hin' & Hle' & Hall').
  cbn zeta in *. split; [exact Hin|]. split; [exact Hin'|].
  intros x [<-|Hx]; [lia|].
  rewrite Forall_forall in Hall, Hall'.
  apply list_elem_of_In in Hx. specialize (Hall x Hx). specialize (Hall' x Hx). lia.
Qed.

Lemma interp_pixel_range (xr : R) (naxis : Z) :
  2 <= naxis -> 0 <= fst (interp_pixel xr naxis) <= naxis - 2.
Proof.
  intros H. unfold interp_pixel.
  destruct (Z.ltb_spec (Ztrunc xr) 0).
  - destruct (Z.leb_spec (naxis - 1) 0); simpl; lia.
  - destruct (Z.leb_spec (naxis - 1) (Ztrunc xr)); simpl; lia.
Qed.














Local Open Scope R_scope.




Local Open Scope Z_scope.


(** * Further properties of the code *)

(** ** The projection, further *)

Local Open Scope R_scope.

(** X1.  A header whose axis types are neither the custom polar pair nor
    the standard zenithal pair is not an error for [lambert_lb2fpix]: it
    returns the coordinates (-99, -99) for every direction, and
    [lambert_lb2pix] then returns the pixel (-99, -99) on every image
    with NAXIS1 and NAXIS2 above -99. *)
Theorem lambert_lb2fpix_unsupported_projection (h : header) (gall galb : R)
  (naxis1 naxis2 : Z) :
  ~ (strcmp (fst (ctypes h)) (lit "LAMBERT--X") = 0%Z /\
     strcmp (snd (ctypes h)) (lit "LAMBERT--Y") = 0%Z) ->
  ~ (strcmp (fst (ctypes h)) (lit "GLON-ZEA") = 0%Z /\
     strcmp (snd (ctypes h)) (lit "GLAT-ZEA") = 0%Z) ->
  snd (fits_get_card_ival_ Label_naxis1 h) = Some naxis1 ->
  snd (fits_get_card_ival_ Label_naxis2 h) = Some naxis2 ->
  (-99 < naxis1)%Z -> (-99 < naxis2)%Z ->
  lambert_lb2fpix gall galb h = (-99, -99) /\
  lambert_lb2pix gall galb h = ((-99)%Z, (-99)%Z).
Proof.
  intros HL HZ H1 H2 Hn1 Hn2.
  assert (E : lambert_lb2fpix gall galb h = (-99, -99)).
  { unfold lambert_lb2fpix. destruct (ctypes h) as [c1 c2]. cbn [fst snd] in *.
    destruct (Z.eqb_spec (strcmp c1 (lit "LAMBERT--X")) 0) as [A|A];
      destruct (Z.eqb_spec (strcmp c2 (lit "LAMBERT--Y")) 0) as [B|B];
      try (exfalso; apply HL; split; assumption);
      destruct (Z.eqb_spec (strcmp c1 (lit "GLON-ZEA")) 0) as [C|C];
      destruct (Z.eqb_spec (strcmp c2 (lit "GLAT-ZEA")) 0) as [D|D];
      try (exfalso; apply HZ; split; assumption); reflexivity. }
  split; [exact E|].
  unfold lambert_lb2pix. rewrite E. unfold stored_int. rewrite H1, H2.
  assert (F : Zfloor (-99 + 0.5) = (-99)%Z) by (apply Zfloor_eq; simpl; rlra).
  rewrite F.
  destruct (Z.leb_spec naxis1 (-99)); destruct (Z.leb_spec naxis2 (-99));
    try lia; reflexivity.
Qed.

(** X2.  Under the standard zenithal convention with a reference
    latitude below -89.9999 degrees, every direction of latitude -90
    maps to the reference pixel (CRPIX1 - 1, CRPIX2 - 1), whatever its
    longitude, LONPOLE, CRVAL1 and the matrix, provided the matrix is
    invertible. *)
Theorem lambert_lb2fpix_zea_south_pole (h : header) (gall : R)
  (crval2 crpix1 crpix2 : Q) :
  ctypes h = (lit "GLON-ZEA", lit "GLAT-ZEA") ->
  snd (fits_get_card_rval_ Label_crval2 h) = Some crval2 ->
  Q2R crval2 < -89.9999 ->
  snd (fits_get_card_rval_ Label_crpix1 h) = Some crpix1 ->
  snd (fits_get_card_rval_ Label_crpix2 h) = Some crpix2 ->
  (let '(cd1_1, cd1_2, cd2_1, cd2_2) := zea_matrix h in
   cd1_1 * cd2_2 - cd1_2 * cd2_1 <> 0) ->
  lambert_lb2fpix gall (-90) h = (Q2R crpix1 - 1, Q2R crpix2 - 1).
Proof.
  intros Hct Hv2 Hsouth Hp1 Hp2 Hdet. unfold lambert_lb2fpix.
  rewrite Hct, !strcmp_refl.
  change (strcmp (lit "GLON-ZEA") (lit "LAMBERT--X") =? 0)%Z with false.
  simpl andb. cbv iota.
  destruct (zea_matrix h) as [[[cd1_1 cd1_2] cd2_1] cd2_2].
  unfold stored_float. rewrite Hv2, Hp1, Hp2.
  destruct (Rlt_dec 89.9999 (Q2R crval2)) as [Hn|_]; [rlra|].
  destruct (Rlt_dec (Q2R crval2) (-89.9999)) as [_|Hn]; [|contradiction].
  replace (0.5 / dradeg * (90 - - -90)) with 0 by (unfold Rdiv; ring).
  rewrite sin_0.
  f_equal; field; exact Hdet.
Qed.

(** X3.  The custom polar transform is equal-area in radius: for a
    hemisphere sign of 1 or -1, the point [lambert_lb2xy] returns lies at
    the squared distance scale^2 * (1 - nsgp * sin b) from the origin. *)
Theorem lambert_lb2xy_radius (gall galb : R) (nsgp : Z) (scale : R) :
  (nsgp = 1 \/ nsgp = -1)%Z ->
  let p := lambert_lb2xy gall galb nsgp scale in
  fst p * fst p + snd p * snd p
  = scale * scale * (1 - IZR nsgp * sin (galb / dradeg)).
Proof.
  intros Hs. cbn zeta. unfold lambert_lb2xy. cbn [fst snd].
  set (s := sin (galb / dradeg)).
  assert (Hb : -1 <= s <= 1) by apply SIN_bound.
  assert (Hpos : 0 <= 1 - IZR nsgp * s) by (destruct Hs as [-> | ->]; rlra).
  pose proof (sqrt_sqrt _ Hpos) as Hq.
  pose proof (sin2_cos2 (gall / dradeg)) as Hsc. unfold Rsqr in Hsc.
  set (rho := sqrt (1 - IZR nsgp * s)) in *.
  set (sl := sin (gall / dradeg)) in *. set (cl := cos (gall / dradeg)) in *.
  assert (Hn2 : IZR nsgp * IZR nsgp = 1) by (destruct Hs as [-> | ->]; rlra).
  replace (rho * cl * scale * (rho * cl * scale)
           + - IZR nsgp * rho * sl * scale * (- IZR nsgp * rho * sl * scale))
    with (scale * scale * (rho * rho) * (cl * cl + IZR nsgp * IZR nsgp * (sl * sl)))
    by ring.
  rewrite Hn2, Hq. replace (cl * cl + 1 * (sl * sl)) with (sl * sl + cl * cl) by ring.
  rewrite Hsc. ring.
Qed.

Local Open Scope Z_scope.

Local Open Scope R_scope.

(** X4.  Under the standard zenithal convention with an invertible
    matrix, [lambert_lb2fpix] inverts the matrix: the offset of the pixel
    it returns from the reference pixel, mapped through the matrix, lies
    at the distance 2 * dradeg * sin ((90 - theta) / (2 * dradeg)) from
    the origin, theta being the latitude, negated for a reference
    latitude below -89.9999. *)
Theorem lambert_lb2fpix_zea_radius (h : header) (gall galb : R)
  (crval2 crpix1 crpix2 : Q) (cd1_1 cd1_2 cd2_1 cd2_2 : R) :
  ctypes h = (lit "GLON-ZEA", lit "GLAT-ZEA") ->
  snd (fits_get_card_rval_ Label_crval2 h) = Some crval2 ->
  snd (fits_get_card_rval_ Label_crpix1 h) = Some crpix1 ->
  snd (fits_get_card_rval_ Label_crpix2 h) = Some crpix2 ->
  zea_matrix h = (cd1_1, cd1_2, cd2_1, cd2_2) ->
  cd1_1 * cd2_2 - cd1_2 * cd2_1 <> 0 ->
  let p := lambert_lb2fpix gall galb h in
  let dX := fst p - (Q2R crpix1 - 1) in
  let dY := snd p - (Q2R crpix2 - 1) in
  let theta :=
    if Rlt_dec 89.9999 (Q2R crval2) then galb
    else if Rlt_dec (Q2R crval2) (-89.9999) then - galb else galb in
  let Rtheta := 2 * dradeg * sin (0.5 / dradeg * (90 - theta)) in
  (cd1_1 * dX + cd1_2 * dY) * (cd1_1 * dX + cd1_2 * dY)
  + (cd2_1 * dX + cd2_2 * dY) * (cd2_1 * dX + cd2_2 * dY)
  = Rtheta * Rtheta.
Proof.
  intros Hct Hv2 Hp1 Hp2 Hm Hdet. cbv zeta. unfold lambert_lb2fpix.
  rewrite Hct, !strcmp_refl.
  change (strcmp (lit "GLON-ZEA") (lit "LAMBERT--X") =? 0)%Z with false.
  simpl andb. cbv iota. rewrite Hm.
  unfold stored_float. rewrite Hv2, Hp1, Hp2.
  set (tp := if Rlt_dec 89.9999 (Q2R crval2)
             then (galb, gall + 180 + zea_lonpole h
                         - match (fits_get_card_rval_ Label_crval1 h).2 with
                           | Some q => Q2R q
                           | None => indet_float "crval1"
                           end)
             else if Rlt_dec (Q2R crval2) (-89.9999)
                  then (- galb, zea_lonpole h
                                + match (fits_get_card_rval_ Label_crval1 h).2 with
                                  | Some q => Q2R q
                                  | None => indet_float "crval1"
                                  end - gall)
                  else (galb, gall + 180 + zea_lonpole h
                              - match (fits_get_card_rval_ Label_crval1 h).2 with
                                | Some q => Q2R q
                                | None => indet_float "crval1"
                                end)).
  assert (Ht : fst tp = if Rlt_dec 89.9999 (Q2R crval2) then galb
                        else if Rlt_dec (Q2R crval2) (-89.9999) then - galb else galb).
  { unfold tp. destruct (Rlt_dec 89.9999 (Q2R crval2)); [reflexivity|].
    destruct (Rlt_dec (Q2R crval2) (-89.9999)); reflexivity. }
  rewrite <- Ht. destruct tp as [theta phi]. cbn [fst snd].
  set (ph := (phi - 360 * IZR (Zfloor (phi / 360))) / dradeg).
  set (Rt := 2 * dradeg * sin (0.5 / dradeg * (90 - theta))).
  pose proof (sin2_cos2 ph) as Hsc. unfold Rsqr in Hsc.
  set (sp := sin ph) in *. set (cp := cos ph) in *.
  replace (cd1_1 * ((cd2_2 * (Rt * sp) - cd1_2 * (- Rt * cp)) / (cd1_1 * cd2_2 - cd1_2 * cd2_1)
                    + (Q2R crpix1 - 1) - (Q2R crpix1 - 1))
           + cd1_2 * ((cd1_1 * (- Rt * cp) - cd2_1 * (Rt * sp)) / (cd1_1 * cd2_2 - cd1_2 * cd2_1)
                      + (Q2R crpix2 - 1) - (Q2R crpix2 - 1)))
    with (Rt * sp) by (field; exact Hdet).
  replace (cd2_1 * ((cd2_2 * (Rt * sp) - cd1_2 * (- Rt * cp)) / (cd1_1 * cd2_2 - cd1_2 * cd2_1)
                    + (Q2R crpix1 - 1) - (Q2R crpix1 - 1))
           + cd2_2 * ((cd1_1 * (- Rt * cp) - cd2_1 * (Rt * sp)) / (cd1_1 * cd2_2 - cd1_2 * cd2_1)
                      + (Q2R crpix2 - 1) - (Q2R crpix2 - 1)))
    with (- Rt * cp) by (field; exact Hdet).
  replace (Rt * sp * (Rt * sp) + - Rt * cp * (- Rt * cp))
    with (Rt * Rt * (sp * sp + cp * cp)) by ring.
  rewrite Hsc. ring.
Qed.

Local Open Scope Z_scope.

(** ** The map sampler, further *)

(** X5.  On a vector that is not empty, [ivector_minimum] and
    [ivector_maximum] return members of the vector, and every member
    lies between them. *)
Theorem ivector_extrema (pData : list Z) :
  pData <> [] ->
  In (ivector_minimum pData) pData /\ In (ivector_maximum pData) pData /\
  forall x, In x pData -> ivector_minimum pData <= x <= ivector_maximum pData.
Proof. apply ivector_bounds. Qed.

Lemma Ztrunc_nonneg (x : R) : (0 <= x)%R -> Ztrunc x = Zfloor x.
Proof. intros H. unfold Ztrunc. destruct (Rle_dec 0 x); [reflexivity|contradiction]. Qed.

Lemma Ztrunc_neg (x : R) : (x < 0)%R -> Ztrunc x = - Zfloor (- x).
Proof. intros H. unfold Ztrunc. destruct (Rle_dec 0 x); [rlra|reflexivity]. Qed.

(** X6.  One axis of the interpolating branch, on an axis of two pixels
    at least: the pixel chosen is in [0, naxis - 2]; inside the image it
    is the integer part of the coordinate and the weight [dx] of that
    pixel is one minus the fractional part; the weight lies in [0, 1]
    for every coordinate outside (-1, 0); for a coordinate in (-1, 0) the
    pixel is 0 and the weight is 1 - xr, which is above 1. *)
Theorem interp_pixel_weight (xr : R) (naxis : Z) :
  2 <= naxis ->
  let xPix := fst (interp_pixel xr naxis) in
  let dx := snd (interp_pixel xr naxis) in
  0 <= xPix <= naxis - 2 /\
  ((0 <= xr < IZR (naxis - 1))%R ->
   (IZR xPix <= xr < IZR xPix + 1)%R /\ dx = (IZR xPix + 1 - xr)%R) /\
  ((0 <= xr \/ xr <= -1)%R -> (0 <= dx <= 1)%R) /\
  ((-1 < xr < 0)%R -> xPix = 0 /\ dx = (1 - xr)%R /\ (1 < dx)%R).
Proof.
  intros Hn. cbn zeta.
  split; [apply interp_pixel_range; exact Hn|].
  unfold interp_pixel.
  split; [|split].
  - intros (H0 & H1). rewrite Ztrunc_nonneg by exact H0.
    pose proof (Zfloor_bound xr) as (Hf1 & Hf2).
    assert (Hf0 : 0 <= Zfloor xr) by (apply Zfloor_lub; exact H0).
    destruct (Z.ltb_spec (Zfloor xr) 0); [lia|].
    assert (Hlt : Zfloor xr < naxis - 1).
    { apply lt_IZR. rlra. }
    destruct (Z.leb_spec (naxis - 1) (Zfloor xr)); [lia|].
    cbn [fst snd]. split; [rlra|ring].
  - intros [H0|H1].
    + rewrite Ztrunc_nonneg by exact H0.
      pose proof (Zfloor_bound xr) as (Hf1 & Hf2).
      assert (Hf0 : 0 <= Zfloor xr) by (apply Zfloor_lub; exact H0).
      destruct (Z.ltb_spec (Zfloor xr) 0); [lia|].
      destruct (Z.leb_spec (naxis - 1) (Zfloor xr)); cbn [snd]; rlra.
    + rewrite Ztrunc_neg by rlra.
      assert (Hf : 1 <= Zfloor (- xr)) by (apply Zfloor_lub; rlra).
      destruct (Z.ltb_spec (- Zfloor (- xr)) 0); [|lia].
      destruct (Z.leb_spec (naxis - 1) 0); cbn [snd]; rlra.
  - intros (H0 & H1). rewrite Ztrunc_neg by exact H1.
    assert (Hf : Zfloor (- xr) = 0) by (apply Zfloor_eq; simpl; rlra).
    rewrite Hf. change (- 0) with 0.
    destruct (Z.ltb_spec 0 0); [lia|].
    destruct (Z.leb_spec (naxis - 1) 0); [lia|].
    cbn [fst snd]. split; [reflexivity|]. split; [simpl; ring|simpl; rlra].
Qed.


Lemma point_loop_no_member (pFileIn : cbuf) (iloop qInterp : Z) (dirs : list (R * R))
  (pNS : list Z) (iGal : nat) (qRead : option header) (pOutput : list R) :
  Forall (fun ns => ns <> iloop) pNS ->
  point_loop pFileIn iloop qInterp dirs pNS iGal qRead pOutput = Some pOutput.
Proof.
  revert pNS iGal. induction dirs as [|[gall galb] dirs IH]; intros pNS iGal Hns;
    [reflexivity|].
  destruct pNS as [|ns pNS]; [reflexivity|].
  cbn [point_loop]. inversion Hns as [|? ? Hne Hrest]; subst.
  destruct (Z.eqb_spec ns iloop); [contradiction|]. apply IH. exact Hrest.
Qed.

Lemma hemisphere_indices_no_member (iloop : Z) (pNS : list Z) (iGal : nat) :
  Forall (fun ns => ns <> iloop) pNS -> hemisphere_indices iloop pNS iGal = [].
Proof.
  revert iGal. induction pNS as [|ns pNS IH]; intros iGal Hns; [reflexivity|].
  cbn [hemisphere_indices]. inversion Hns as [|? ? Hne Hrest]; subst.
  destruct (Z.eqb_spec ns iloop); [contradiction|]. apply IH. exact Hrest.
Qed.

Lemma bulk_hemisphere_no_member (pFileIn : cbuf) (iloop qInterp : Z)
  (dirs : list (R * R)) (pNS : list Z) (pOutput : list R) :
  Forall (fun ns => ns <> iloop) pNS ->
  bulk_hemisphere pFileIn iloop qInterp dirs pNS pOutput = Some pOutput.
Proof.
  intros Hns. unfold bulk_hemisphere.
  rewrite hemisphere_indices_no_member by exact Hns. reflexivity.
Qed.

(** X8.  [lambert_getval] never reads the map of a hemisphere in which no
    direction lies: when every latitude is 0 or more the result does not
    depend on the south file, and when every latitude is negative it
    does not depend on the north file, in either mode. *)
Theorem lambert_getval_unused_hemisphere (pFileN pFileS pFile' : cbuf)
  (dirs : list (R * R)) (qInterp qNoloop : Z) :
  (Forall (fun d => (0 <= snd d)%R) dirs ->
   lambert_getval pFileN pFileS dirs qInterp qNoloop
   = lambert_getval pFileN pFile' dirs qInterp qNoloop) /\
  (Forall (fun d => (snd d < 0)%R) dirs ->
   lambert_getval pFileN pFileS dirs qInterp qNoloop
   = lambert_getval pFile' pFileS dirs qInterp qNoloop).
Proof.
  split; intros Hd.
  - assert (Hns : Forall (fun ns => ns <> 1)
                    (map (fun d : R * R => if Rle_dec 0 d.2 then 0 else 1) dirs)).
    { apply Forall_map. eapply Forall_impl; [exact Hd|].
      intros d H. cbn beta. destruct (Rle_dec 0 d.2); [discriminate|contradiction]. }
    unfold lambert_getval. cbv zeta.
    change (0 =? 0) with true. change (1 =? 0) with false. cbv iota.
    destruct (qNoloop =? 0).
    + destruct (point_loop pFileN 0 qInterp dirs _ 0 None _) as [out|]; [|reflexivity].
      now rewrite (point_loop_no_member pFileS 1), (point_loop_no_member pFile' 1)
        by exact Hns.
    + destruct (bulk_hemisphere pFileN 0 qInterp dirs _ _) as [out|]; [|reflexivity].
      now rewrite (bulk_hemisphere_no_member pFileS 1), (bulk_hemisphere_no_member pFile' 1)
        by exact Hns.
  - assert (Hns : Forall (fun ns => ns <> 0)
                    (map (fun d : R * R => if Rle_dec 0 d.2 then 0 else 1) dirs)).
    { apply Forall_map. eapply Forall_impl; [exact Hd|].
      intros d H. cbn beta. destruct (Rle_dec 0 d.2); [rlra|discriminate]. }
    unfold lambert_getval. cbv zeta.
    change (0 =? 0) with true. change (1 =? 0) with false. cbv iota.
    destruct (qNoloop =? 0).
    + now rewrite (point_loop_no_member pFileN 0), (point_loop_no_member pFile' 0)
        by exact Hns.
    + now rewrite (bulk_hemisphere_no_member pFileN 0), (bulk_hemisphere_no_member pFile' 0)
        by exact Hns.
Qed.

(** ** Point reads *)



(** ** The card store, further *)

Lemma strncmp_take_l (s1 s2 : cbuf) (n : nat) :
  strncmp (take n s1) s2 n = strncmp s1 s2 n.
Proof.
  revert s1 s2. induction n as [|n IH]; intros s1 s2; [reflexivity|].
  destruct s1 as [|c s1]; [reflexivity|].
  cbn [take strncmp at_ nth tl]. now rewrite IH.
Qed.

Lemma strncmp_same_prefix (s1 s1' s2 : cbuf) (n : nat) :
  take n s1 = take n s1' -> strncmp s1 s2 n = strncmp s1' s2 n.
Proof. intros H. now rewrite <- (strncmp_take_l s1), <- (strncmp_take_l s1'), H. Qed.

Lemma scan_cards_ext (l l' : cbuf) (h : header) (i0 : Z) :
  take 8 l = take 8 l' -> scan_cards l h i0 = scan_cards l' h i0.
Proof.
  intros H. revert i0. induction h as [|c h IH]; intros i0; [reflexivity|].
  rewrite !scan_cards_cons, (strncmp_same_prefix l l' c 8 H). now rewrite IH.
Qed.

Lemma toupper_idem (c : uchar) : toupper (toupper c) = toupper c.
Proof.
  destruct c as [[] [] [] [] [] [] [] []]; vm_compute; reflexivity.
Qed.

Lemma toupper_clean (c : uchar) :
  Ascii.eqb c NUL = false /\ Ascii.eqb c NEWLINE = false ->
  Ascii.eqb (toupper c) NUL = false /\ Ascii.eqb (toupper c) NEWLINE = false.
Proof.
  destruct c as [[] [] [] [] [] [] [] []]; vm_compute; auto.
Qed.

Lemma blank_from_null_length (s : cbuf) (n : nat) (q : bool) :
  length (blank_from_null s n q) = n.
Proof.
  revert s q. induction n as [|n IH]; intros s q; [reflexivity|].
  cbn [blank_from_null length]. now rewrite IH.
Qed.

Lemma blank_from_null_is_clean (s : cbuf) (n : nat) (q : bool) :
  clean_text (blank_from_null s n q).
Proof.
  revert s q. induction n as [|n IH]; intros s q; [constructor|].
  cbn [blank_from_null]. constructor; [|apply IH].
  destruct q; [split; reflexivity|]. cbn [orb].
  destruct (Ascii.eqb (at_ s 0) NUL) eqn:E1; [split; reflexivity|]. cbn [orb].
  destruct (Ascii.eqb (at_ s 0) NEWLINE) eqn:E2; [split; reflexivity|].
  split; assumption.
Qed.

Lemma clean_text_take (n : nat) (s : cbuf) : clean_text s -> clean_text (take n s).
Proof. apply Forall_take. Qed.

Lemma clean_text_drop (n : nat) (s : cbuf) : clean_text s -> clean_text (drop n s).
Proof. apply Forall_drop. Qed.

Lemma clean_text_toupper (s : cbuf) : clean_text s -> clean_text (map toupper s).
Proof.
  intros H. induction H as [|c s Hc Hs IH]; [constructor|].
  cbn [map]. constructor; [now apply toupper_clean|exact IH].
Qed.

Lemma string_to_card_normal (pString : cbuf) :
  let pCard := fits_string_to_card_ pString in
  length pCard = 80%nat /\ clean_text pCard /\
  map toupper (take 8 pCard) = take 8 pCard /\
  drop 8 pCard = drop 8 (blank_from_null pString 80 false) /\
  fits_string_to_card_ pCard = pCard.
Proof.
  cbn zeta. unfold fits_string_to_card_.
  set (b := blank_from_null pString 80 false).
  assert (Hb : length b = 80%nat) by apply blank_from_null_length.
  assert (Hc : clean_text b) by apply blank_from_null_is_clean.
  assert (Hlen : length (map toupper (take 8 b) ++ drop 8 b) = 80%nat).
  { rewrite length_app, length_map, length_take, length_drop. lia. }
  assert (Hclean : clean_text (map toupper (take 8 b) ++ drop 8 b)).
  { apply clean_text_app; [apply clean_text_toupper, clean_text_take|apply clean_text_drop];
      exact Hc. }
  assert (Ht : take 8 (map toupper (take 8 b) ++ drop 8 b) = map toupper (take 8 b)).
  { rewrite take_app_length'; [reflexivity|]. rewrite length_map, length_take. lia. }
  assert (Hd : drop 8 (map toupper (take 8 b) ++ drop 8 b) = drop 8 b).
  { rewrite drop_app_length'; [reflexivity|]. rewrite length_map, length_take. lia. }
  split; [exact Hlen|]. split; [exact Hclean|].
  split.
  { rewrite Ht, map_map. apply map_ext. intros c. apply toupper_idem. }
  split; [exact Hd|].
  rewrite (blank_from_null_clean _ 80 Hclean) by lia.
  rewrite Hlen. cbn [Nat.sub repeat]. rewrite app_nil_r.
  rewrite Ht, Hd, map_map. f_equal. apply map_ext. intros c. apply toupper_idem.
Qed.


(** X11.  [fits_string_to_card_] always yields a card in normal form: 80
    bytes, no NUL and no newline, the 8 label bytes in upper case, the
    other bytes those of the text up to its first NUL or newline and
    blanks from there on; and a card in that form is left as it is. *)
Theorem fits_string_to_card_normal_form (pString : cbuf) :
  let pCard := fits_string_to_card_ pString in
  length pCard = 80%nat /\ clean_text pCard /\
  map toupper (take 8 pCard) = take 8 pCard /\
  drop 8 pCard = drop 8 (blank_from_null pString 80 false) /\
  fits_string_to_card_ pCard = pCard.
Proof. apply string_to_card_normal. Qed.

Lemma scan_cards_split (l : cbuf) (h : header) :
  scan_cards l h 0 < nHead h ->
  exists pre c rest,
    h = pre ++ c :: rest /\ nHead pre = scan_cards l h 0 /\
    (forall x, In x pre -> strncmp l x 8 <> 0) /\ strncmp l c 8 = 0.
Proof.
  induction h as [|c h IH]; [unfold nHead; simpl; lia|].
  rewrite scan_cards_cons. destruct (Z.eqb_spec (strncmp l c 8) 0) as [E|E].
  - intros _. exists [], c, h. repeat split; [intros x []|exact E].
  - intros Hlt. pose proof (scan_cards_skip l [c] h 0) as Hs.
    cbn [app] in Hs. rewrite scan_cards_cons in Hs.
    destruct (Z.eqb_spec (strncmp l c 8) 0) as [|_]; [contradiction|].
    pose proof (scan_cards_spec l h 0) as Hspec. cbn zeta in Hspec.
    pose proof (scan_cards_spec l h 1) as Hspec1. cbn zeta in Hspec1.
    assert (Hshift : scan_cards l h (0 + 1) = scan_cards l h 0 + 1).
    { clear. generalize 0. induction h as [|x h IH]; intros i0; [reflexivity|].
      rewrite !scan_cards_cons. destruct (strncmp l x 8 =? 0); [reflexivity|].
      apply IH. }
    rewrite Hshift in Hlt |- *. rewrite nHead_cons in Hlt.
    destruct IH as (pre & c' & rest & -> & Hn & Hpre & Hc); [lia|].
    exists (c :: pre), c', rest. split; [reflexivity|].
    split; [rewrite nHead_cons; lia|]. split; [|exact Hc].
    intros x [<-|Hx]; [exact E|now apply Hpre].
Qed.

Lemma insert_at_split (pre : header) (c c' : card) (rest : header) :
  <[Z.to_nat (nHead pre) := c']> (pre ++ c :: rest) = pre ++ c' :: rest.
Proof.
  unfold nHead. rewrite Nat2Z.id.
  replace (length pre) with (length pre + 0)%nat by lia.
  now rewrite insert_app_r.
Qed.

Lemma scan_at_split (l : cbuf) (pre : header) (c : card) (rest : header) :
  (forall x, In x pre -> strncmp l x 8 <> 0) -> strncmp l c 8 = 0 ->
  scan_cards l (pre ++ c :: rest) 0 = nHead pre.
Proof.
  intros Hpre Hc. rewrite scan_cards_skip by exact Hpre.
  rewrite scan_cards_cons, Hc. reflexivity.
Qed.

Lemma nHead_split_ltb (pre : header) (c : card) (rest : header) :
  (nHead pre <? nHead (pre ++ c :: rest)) = true.
Proof.
  apply Z.ltb_lt. rewrite nHead_app, nHead_cons.
  pose proof (nHead_nonneg rest). lia.
Qed.

Lemma fits_add_card_ext (a b : cbuf) (h : header) :
  fits_string_to_card_ a = fits_string_to_card_ b ->
  fits_add_card_ a h = fits_add_card_ b h.
Proof. intros H. unfold fits_add_card_. now rewrite H. Qed.

(** What [fits_change_card_] does with a card whose label is [l]. *)
Lemma fits_change_card_cases (l pCard : cbuf) (h : header) :
  take 8 (fits_string_to_card_ pCard) = take 8 l ->
  (fits_find_card_ l h = nHead h ->
   fits_change_card_ pCard h = fits_add_card_ pCard h) /\
  (forall pre c rest,
      h = pre ++ c :: rest ->
      (forall x, In x pre -> strncmp l x 8 <> 0) -> strncmp l c 8 = 0 ->
      fits_change_card_ pCard h
      = (pre ++ fits_string_to_card_ pCard :: rest, nHead pre)).
Proof.
  intros Ht. unfold fits_change_card_. cbv zeta.
  rewrite (fits_find_card_scan (fits_string_to_card_ pCard)),
    (scan_cards_ext _ l h 0 Ht). split.
  - rewrite fits_find_card_scan. intros ->. rewrite Z.ltb_irrefl.
    apply fits_add_card_ext. apply string_to_card_normal.
  - intros pre c rest -> Hpre Hc.
    rewrite (scan_at_split l pre c rest Hpre Hc), nHead_split_ltb.
    now rewrite insert_at_split.
Qed.

Lemma take_8_written (l rest : cbuf) : length l = 8%nat -> take 8 (l ++ rest) = take 8 l.
Proof.
  intros H. rewrite take_app_length' by (symmetry; exact H).
  symmetry. apply take_ge. lia.
Qed.

Lemma accessors_after_change (l field : cbuf) (h : header) :
  length l = 8%nat -> clean_text l -> map toupper l = l ->
  length field = 20%nat -> clean_text field ->
  let r := fits_change_card_ (fmt_label l ++ lit "= " ++ field) h in
  fits_get_card_ival_ l (fst r) = (TRUE_MWDUST, sscanf_d field) /\
  fits_get_card_rval_ l (fst r) = (TRUE_MWDUST, sscanf_f field) /\
  (fits_find_card_ l h < nHead h ->
   snd r = fits_find_card_ l h /\ nHead (fst r) = nHead h).
Proof.
  intros Hl Hcl Hup Hf Hcf. cbn zeta.
  pose proof (fits_string_to_card_value l field Hl Hcl Hup Hf Hcf) as Hcard.
  rewrite fmt_label_id in * by assumption.
  destruct (fits_change_card_cases l (l ++ lit "= " ++ field) h) as (Habs & Hpres).
  { rewrite Hcard. now apply take_8_written. }
  destruct (Z.lt_ge_cases (scan_cards l h 0) (nHead h)) as [Hlt|Hge].
  - destruct (scan_cards_split l h Hlt) as (pre & c & rest & Eh & Hn & Hpre & Hc).
    rewrite (Hpres pre c rest Eh Hpre Hc), Hcard. cbn [fst snd].
    assert (Hm : strncmp l (l ++ lit "= " ++ field ++ repeat BLANK 50) 8 = 0)
      by now apply strncmp_written.
    unfold fits_get_card_ival_, fits_get_card_rval_.
    rewrite (scan_at_split l pre _ rest Hpre Hm), nHead_split_ltb.
    rewrite card_at_app_r, value_field_written by assumption.
    split; [reflexivity|]. split; [reflexivity|]. intros _.
    rewrite fits_find_card_scan. split; [exact Hn|].
    rewrite Eh, !nHead_app, !nHead_cons. reflexivity.
  - assert (Hno : fits_find_card_ l h = nHead h).
    { rewrite fits_find_card_scan. pose proof (scan_cards_spec l h 0) as Hs.
      cbn zeta in Hs. lia. }
    rewrite (Habs Hno).
    destruct (accessors_after_add l field h Hl Hcl Hup Hf Hcf Hno) as (Hi & Hr).
    cbn zeta in Hi, Hr. rewrite fmt_label_id in * by assumption.
    split; [exact Hi|]. split; [exact Hr|]. intros Hlt. lia.
Qed.



Lemma first_match_none (l : cbuf) (h : header) :
  first_match l h = None <-> scan_cards l h 0 = nHead h.
Proof.
  unfold first_match. split.
  - intros Hf. pose proof (scan_cards_spec l h 0) as Hs. cbn zeta in Hs.
    destruct (Z.lt_ge_cases (scan_cards l h 0) (nHead h)) as [Hlt|Hge]; [|lia].
    destruct (scan_cards_split l h Hlt) as (pre & c & rest & -> & _ & _ & Hc).
    exfalso. eapply find_none with (x := c) in Hf.
    + rewrite Hc in Hf. discriminate.
    + apply in_or_app. right. left. reflexivity.
  - intros Hs. destruct (find (fun c => strncmp l c 8 =? 0) h) as [c|] eqn:Hf;
      [|reflexivity].
    apply find_some in Hf. destruct Hf as (Hin & Hc).
    apply Z.eqb_eq in Hc. exfalso.
    eapply (no_match_all l h); [rewrite fits_find_card_scan; exact Hs|exact Hin|exact Hc].
Qed.

Lemma first_match_split (l : cbuf) (pre : header) (c : card) (rest : header) :
  (forall x, In x pre -> strncmp l x 8 <> 0) -> strncmp l c 8 = 0 ->
  first_match l (pre ++ c :: rest) = Some c.
Proof.
  intros Hpre Hc. unfold first_match.
  induction pre as [|x pre IH]; cbn [app find].
  - now rewrite Hc.
  - destruct (Z.eqb_spec (strncmp l x 8) 0) as [E|_].
    + exfalso. apply (Hpre x); [left; reflexivity|exact E].
    + apply IH. intros y Hy. apply Hpre. right. exact Hy.
Qed.

(** The accessors read the first matching card. *)
Lemma accessors_first_match (l : cbuf) (h : header) :
  fits_get_card_ival_ l h
  = match first_match l h with
    | Some c => (TRUE_MWDUST, sscanf_d (value_field c))
    | None => (FALSE_MWDUST, None)
    end /\
  fits_get_card_rval_ l h
  = match first_match l h with
    | Some c => (TRUE_MWDUST, sscanf_f (value_field c))
    | None => (FALSE_MWDUST, None)
    end.
Proof.
  unfold fits_get_card_ival_, fits_get_card_rval_.
  pose proof (scan_cards_spec l h 0) as Hs. cbn zeta in Hs.
  destruct (Z.lt_ge_cases (scan_cards l h 0) (nHead h)) as [Hlt|Hge].
  - destruct (scan_cards_split l h Hlt) as (pre & c & rest & -> & Hn & Hpre & Hc).
    rewrite (first_match_split l pre c rest Hpre Hc).
    rewrite (scan_at_split l pre c rest Hpre Hc), nHead_split_ltb, card_at_app_r.
    split; reflexivity.
  - assert (E : scan_cards l h 0 = nHead h) by lia.
    rewrite (proj2 (first_match_none l h) E), E, Z.ltb_irrefl. split; reflexivity.
Qed.

Lemma first_match_replace (l : cbuf) (pre : header) (c c' : card) (rest : header) :
  strncmp l c 8 <> 0 -> strncmp l c' 8 <> 0 ->
  first_match l (pre ++ c' :: rest) = first_match l (pre ++ c :: rest).
Proof.
  intros Hc Hc'. unfold first_match. apply Z.eqb_neq in Hc, Hc'.
  induction pre as [|x pre IH]; cbn [app find].
  - now rewrite Hc, Hc'.
  - now rewrite IH.
Qed.

(** Changing the card of one label leaves what is read under every other
    label as it was, when a card of the changed label exists. *)
Lemma change_frame (l1 l2 pCard : cbuf) (h : header) :
  length l1 = 8%nat -> ~ In NUL l1 -> length l2 = 8%nat -> ~ In NUL l2 ->
  l1 <> l2 ->
  take 8 (fits_string_to_card_ pCard) = l1 ->
  fits_find_card_ l1 h < nHead h ->
  first_match l2 (fst (fits_change_card_ pCard h)) = first_match l2 h.
Proof.
  intros Hl1 Hn1 Hl2 Hn2 Hne Ht Hlt. rewrite fits_find_card_scan in Hlt.
  destruct (scan_cards_split l1 h Hlt) as (pre & c & rest & -> & Hn & Hpre & Hc).
  destruct (fits_change_card_cases l1 pCard (pre ++ c :: rest)) as (_ & Hpres).
  { rewrite Ht. symmetry. apply take_ge. lia. }
  rewrite (Hpres pre c rest eq_refl Hpre Hc). cbn [fst].
  apply first_match_replace.
  - intros E. apply (strncmp_label l2 c Hl2 Hn2) in E.
    apply (strncmp_label l1 c Hl1 Hn1) in Hc. congruence.
  - intros E. apply (strncmp_label l2 _ Hl2 Hn2) in E. congruence.
Qed.

Lemma found_of_value (l : cbuf) (h : header) (v : Z) :
  snd (fits_get_card_ival_ l h) = Some v -> fits_find_card_ l h < nHead h.
Proof.
  rewrite fits_find_card_scan. unfold fits_get_card_ival_.
  destruct (Z.ltb_spec (scan_cards l h 0) (nHead h)); [auto|discriminate].
Qed.

Lemma found_of_first_match (l : cbuf) (h : header) (c : card) :
  first_match l h = Some c -> fits_find_card_ l h < nHead h.
Proof.
  intros H. rewrite fits_find_card_scan.
  pose proof (scan_cards_spec l h 0) as Hs. cbn zeta in Hs.
  destruct (Z.lt_ge_cases (scan_cards l h 0) (nHead h)) as [Hlt|Hge]; [exact Hlt|].
  assert (E : scan_cards l h 0 = nHead h) by lia.
  apply first_match_none in E. congruence.
Qed.

Lemma written_label (l field : cbuf) :
  length l = 8%nat -> clean_text l -> map toupper l = l ->
  length field = 20%nat -> clean_text field ->
  take 8 (fits_string_to_card_ (fmt_label l ++ lit "= " ++ field)) = l.
Proof.
  intros Hl Hcl Hup Hf Hcf. rewrite fmt_label_id by assumption.
  rewrite fits_string_to_card_value by assumption.
  rewrite take_8_written by exact Hl. apply take_ge. lia.
Qed.

Lemma clean_fmt_d20 (v : Z) : clean_text (fmt_d20 v).
Proof. apply clean_text_app; [apply clean_text_blanks|apply clean_text_itoa]. Qed.

(** What [fits_swap_cards_ival_] does to two cards that hold numbers. *)
Lemma swap_cards_ival_spec (pLabel1 pLabel2 : cbuf) (h : header)
  (v1 v2 : Z) :
  length pLabel1 = 8%nat -> clean_text pLabel1 -> map toupper pLabel1 = pLabel1 ->
  length pLabel2 = 8%nat -> clean_text pLabel2 -> map toupper pLabel2 = pLabel2 ->
  pLabel1 <> pLabel2 ->
  snd (fits_get_card_ival_ pLabel1 h) = Some v1 ->
  snd (fits_get_card_ival_ pLabel2 h) = Some v2 ->
  (length (itoa v1) <= 20)%nat -> (length (itoa v2) <= 20)%nat ->
  let h' := fits_swap_cards_ival_ pLabel1 pLabel2 h in
  fits_get_card_ival_ pLabel1 h' = (TRUE_MWDUST, Some v2) /\
  fits_get_card_ival_ pLabel2 h' = (TRUE_MWDUST, Some v1) /\
  nHead h' = nHead h /\
  forall l, length l = 8%nat -> ~ In NUL l -> l <> pLabel1 -> l <> pLabel2 ->
            fits_get_card_ival_ l h' = fits_get_card_ival_ l h /\
            fits_get_card_rval_ l h' = fits_get_card_rval_ l h.
Proof.
  intros Hl1 Hc1 Hu1 Hl2 Hc2 Hu2 Hne Hv1 Hv2 Hf1 Hf2. cbn zeta.
  unfold fits_swap_cards_ival_, stored_int. rewrite Hv1, Hv2. cbv zeta.
  pose proof (clean_text_no_nul _ Hc1) as Hn1.
  pose proof (clean_text_no_nul _ Hc2) as Hn2.
  pose proof (found_of_value _ _ _ Hv1) as Hp1.
  pose proof (found_of_value _ _ _ Hv2) as Hp2.
  assert (Hd1 : length (fmt_d20 v1) = 20%nat) by now apply pad_left_length.
  assert (Hd2 : length (fmt_d20 v2) = 20%nat) by now apply pad_left_length.
  unfold fits_change_card_ival_.
  set (h1 := fst (fits_change_card_ (fmt_label pLabel1 ++ lit "= " ++ fmt_d20 v2) h)).
  destruct (accessors_after_change pLabel1 (fmt_d20 v2) h Hl1 Hc1 Hu1 Hd2
              (clean_fmt_d20 v2)) as (Hg1 & _ & Hk1).
  cbn zeta in Hg1, Hk1. fold h1 in Hg1, Hk1. destruct (Hk1 Hp1) as (_ & Hlen1).
  assert (Hfr1 : forall l, length l = 8%nat -> ~ In NUL l -> l <> pLabel1 ->
                           first_match l h1 = first_match l h).
  { intros l Hl Hn Hdiff. unfold h1.
    apply (change_frame pLabel1 l); auto.
    apply written_label; auto. apply clean_fmt_d20. }
  assert (Hp2' : fits_find_card_ pLabel2 h1 < nHead h1).
  { destruct (first_match pLabel2 h) as [c|] eqn:E.
    - apply (found_of_first_match pLabel2 h1 c).
      rewrite Hfr1 by auto. exact E.
    - apply first_match_none in E. rewrite fits_find_card_scan in Hp2. lia. }
  set (h2 := fst (fits_change_card_ (fmt_label pLabel2 ++ lit "= " ++ fmt_d20 v1) h1)).
  destruct (accessors_after_change pLabel2 (fmt_d20 v1) h1 Hl2 Hc2 Hu2 Hd1
              (clean_fmt_d20 v1)) as (Hg2 & _ & Hk2).
  cbn zeta in Hg2, Hk2. fold h2 in Hg2, Hk2. destruct (Hk2 Hp2') as (_ & Hlen2).
  assert (Hfr2 : forall l, length l = 8%nat -> ~ In NUL l -> l <> pLabel2 ->
                           first_match l h2 = first_match l h1).
  { intros l Hl Hn Hdiff. unfold h2.
    apply (change_frame pLabel2 l); auto.
    apply written_label; auto. apply clean_fmt_d20. }
  split; [|split; [|split]].
  - destruct (accessors_first_match pLabel1 h2) as (E2 & _).
    destruct (accessors_first_match pLabel1 h1) as (E1 & _).
    rewrite E2, Hfr2, <- E1, Hg1 by auto. f_equal. apply sscanf_d_itoa.
  - rewrite Hg2. f_equal. apply sscanf_d_itoa.
  - lia.
  - intros l Hl Hn Hd1' Hd2'.
    destruct (accessors_first_match l h2) as (A2 & B2).
    destruct (accessors_first_match l h) as (A & B).
    rewrite A2, B2, A, B, Hfr2, Hfr1 by auto. split; reflexivity.
Qed.

(** X13.  [fits_swap_cards_ival_] exchanges the integer values of two
    cards that exist and hold numbers: afterwards the first label reads
    the old value of the second and the second the old value of the
    first, every other label reads as before, and no card is added. *)
Theorem fits_swap_cards_ival_exchanges (pLabel1 pLabel2 : cbuf) (h : header)
  (v1 v2 : Z) :
  length pLabel1 = 8%nat -> clean_text pLabel1 -> map toupper pLabel1 = pLabel1 ->
  length pLabel2 = 8%nat -> clean_text pLabel2 -> map toupper pLabel2 = pLabel2 ->
  pLabel1 <> pLabel2 ->
  snd (fits_get_card_ival_ pLabel1 h) = Some v1 ->
  snd (fits_get_card_ival_ pLabel2 h) = Some v2 ->
  (length (itoa v1) <= 20)%nat -> (length (itoa v2) <= 20)%nat ->
  let h' := fits_swap_cards_ival_ pLabel1 pLabel2 h in
  fits_get_card_ival_ pLabel1 h' = (TRUE_MWDUST, Some v2) /\
  fits_get_card_ival_ pLabel2 h' = (TRUE_MWDUST, Some v1) /\
  nHead h' = nHead h /\
  forall l, length l = 8%nat -> ~ In NUL l -> l <> pLabel1 -> l <> pLabel2 ->
            fits_get_card_ival_ l h' = fits_get_card_ival_ l h /\
            fits_get_card_rval_ l h' = fits_get_card_rval_ l h.
Proof. apply swap_cards_ival_spec. Qed.


Lemma strncmp_end_end : strncmp Card_end Card_end 8 = 0.
Proof. reflexivity. Qed.

Lemma fits_add_card_before_END (pCard : cbuf) (init : header) :
  (forall c, In c init -> strncmp Card_end c 8 <> 0) ->
  fits_add_card_ pCard (init ++ [Card_end])
  = (init ++ [fits_string_to_card_ pCard; Card_end], nHead init).
Proof.
  intros Hinit. unfold fits_add_card_. cbv zeta.
  assert (E : fits_find_card_ Card_end (init ++ [Card_end]) = nHead init).
  { rewrite fits_find_card_scan.
    apply (scan_at_split Card_end init Card_end [] Hinit strncmp_end_end). }
  assert (En : nHead (init ++ [Card_end]) = nHead init + 1)
    by (rewrite nHead_app; reflexivity).
  assert (Ec : card_at (init ++ [Card_end]) (nHead init) = Card_end)
    by apply card_at_app_r.
  pose proof (nHead_nonneg init) as Hnn.
  rewrite E, En, Ec.
  replace (0 <? nHead init + 1) with true by (symmetry; apply Z.ltb_lt; lia).
  replace (nHead init <? nHead init + 1) with true by (symmetry; apply Z.ltb_lt; lia).
  rewrite Z.ltb_irrefl. cbn [andb].
  unfold nHead. rewrite Nat2Z.id, take_app_length. reflexivity.
Qed.

Lemma fits_delete_card_at_split (l : cbuf) (pre : header) (c : card) (rest : header) :
  (forall x, In x pre -> strncmp l x 8 <> 0) -> strncmp l c 8 = 0 ->
  fits_delete_card_ l (pre ++ c :: rest) = (pre ++ rest, nHead pre).
Proof.
  intros Hpre Hc. unfold fits_delete_card_. cbv zeta.
  rewrite fits_find_card_scan, (scan_at_split l pre c rest Hpre Hc), nHead_split_ltb.
  unfold nHead. rewrite Nat2Z.id, take_app_length.
  replace (S (length pre)) with (length pre + 1)%nat by lia.
  rewrite <- drop_drop, drop_app_length. reflexivity.
Qed.

Lemma fits_delete_card_no_match (l : cbuf) (h : header) :
  fits_find_card_ l h = nHead h -> fits_delete_card_ l h = (h, nHead h).
Proof.
  intros H. unfold fits_delete_card_. cbv zeta. now rewrite H, Z.ltb_irrefl.
Qed.

(** X14.  On a header that ends with its only END card, [fits_add_card_]
    puts the new card just before the END card, which stays last: the
    cards before it keep their places, the index returned is the old
    position of the END card, and the header is one card longer.  When
    no card had the label of the new card, [fits_delete_card_] of that
    label then gives the header back. *)
Theorem fits_add_card_then_delete (pCard : cbuf) (h : header) :
  ends_with_END h ->
  let pLabel := take 8 (fits_string_to_card_ pCard) in
  let h' := fst (fits_add_card_ pCard h) in
  fits_find_card_ pLabel h = nHead h ->
  snd (fits_add_card_ pCard h) = nHead h - 1 /\
  nHead h' = nHead h + 1 /\
  (forall j, 0 <= j < nHead h - 1 -> card_at h' j = card_at h j) /\
  card_at h' (nHead h - 1) = fits_string_to_card_ pCard /\
  card_at h' (nHead h) = Card_end /\
  ends_with_END h' /\
  fits_delete_card_ pLabel h' = (h, nHead h - 1).
Proof.
  intros (init & -> & Hinit). cbv zeta. intros Hfresh.
  destruct (string_to_card_normal pCard) as (Hlen & Hclean & _). cbn zeta in Hlen, Hclean.
  set (crd := fits_string_to_card_ pCard) in *.
  assert (Hl : length (take 8 crd) = 8%nat) by (rewrite length_take; lia).
  assert (Hnn : ~ In NUL (take 8 crd))
    by (apply clean_text_no_nul, clean_text_take, Hclean).
  assert (Hm : strncmp (take 8 crd) crd 8 = 0) by (now apply strncmp_label).
  pose proof (no_match_all _ _ Hfresh) as Hall.
  assert (Hpre : forall x, In x init -> strncmp (take 8 crd) x 8 <> 0).
  { intros x Hx. apply Hall. apply in_or_app. left. exact Hx. }
  assert (Hne : strncmp Card_end crd 8 <> 0).
  { intros E. apply (Hall Card_end); [apply in_or_app; right; left; reflexivity|].
    rewrite (strncmp_same_prefix Card_end Label_end crd 8 eq_refl) in E.
    apply (strncmp_label Label_end crd eq_refl) in E;
      [|vm_compute; intros Hq;
        repeat (destruct Hq as [Hq|Hq]; [discriminate Hq|]); destruct Hq].
    rewrite E. reflexivity. }
  rewrite (fits_add_card_before_END pCard init Hinit). cbn [fst snd]. fold crd.
  rewrite !nHead_app. change (nHead [Card_end]) with 1.
  change (nHead [crd; Card_end]) with 2.
  replace (nHead init + 1 - 1) with (nHead init) by lia.
  split; [reflexivity|]. split; [lia|].
  split.
  { intros j Hj. unfold card_at. unfold nHead in Hj.
    rewrite !app_nth1 by lia. reflexivity. }
  split; [apply card_at_app_r|].
  split.
  { change (init ++ [crd; Card_end]) with (init ++ [crd] ++ [Card_end]).
    rewrite app_assoc. replace (nHead init + 1) with (nHead (init ++ [crd]))
      by (rewrite nHead_app; reflexivity).
    apply card_at_app_r. }
  split.
  { exists (init ++ [crd]). split; [now rewrite <- app_assoc|].
    intros c Hc. apply in_app_or in Hc. destruct Hc as [Hc|[<-|[]]];
      [now apply Hinit|exact Hne]. }
  apply (fits_delete_card_at_split (take 8 crd) init crd [Card_end] Hpre Hm).
Qed.

Lemma filter_no_blank (h : header) :
  (forall c, In c h -> strncmp Label_empty c 8 <> 0) ->
  List.filter (fun c => negb (blank_label c)) h = h /\
  List.filter blank_label h = [].
Proof.
  induction h as [|c h IH]; intros H; [split; reflexivity|].
  assert (Hc : blank_label c = false).
  { unfold blank_label. apply Z.eqb_neq. apply H. left. reflexivity. }
  destruct IH as (IH1 & IH2); [intros x Hx; apply H; right; exact Hx|].
  cbn [List.filter]. rewrite Hc. cbn [negb]. now rewrite IH1, IH2.
Qed.


Lemma first_blank_split (h : header) :
  (forall c, In c h -> strncmp Label_empty c 8 <> 0) \/
  exists pre c rest,
    h = pre ++ c :: rest /\
    (forall x, In x pre -> strncmp Label_empty x 8 <> 0) /\
    strncmp Label_empty c 8 = 0.
Proof.
  pose proof (scan_cards_spec Label_empty h 0) as Hs. cbn zeta in Hs.
  destruct (Z.lt_ge_cases (scan_cards Label_empty h 0) (nHead h)) as [Hlt|Hge].
  - right. destruct (scan_cards_split Label_empty h Hlt) as (pre & c & rest & E & _ & Hp & Hc).
    exists pre, c, rest. auto.
  - left. apply no_match_all. rewrite fits_find_card_scan. lia.
Qed.

Lemma last_app_cons {A} (pre : list A) (c : A) (rest : list A) :
  rest <> [] -> last (pre ++ c :: rest) = last (pre ++ rest).
Proof.
  intros Hne. rewrite !last_app.
  destruct rest as [|r rest]; [congruence|].
  rewrite last_cons. destruct (last (r :: rest)) eqn:E; [reflexivity|].
  apply last_None in E. discriminate.
Qed.

Lemma purge_blank_cards_spec (fuel : nat) :
  forall (h : header) (n : Z),
    (length h < fuel)%nat ->
    fits_purge_blank_cards_ fuel h = List.filter (fun c => negb (blank_label c)) h /\
    fits_purge_blank_cards_count fuel h n
    = (List.filter (fun c => negb (blank_label c)) h,
       n + count_blank h - (if last_blank h then 1 else 0)).
Proof.
  induction fuel as [|fuel IH]; intros h n Hlen; [lia|].
  cbn [fits_purge_blank_cards_ fits_purge_blank_cards_count].
  destruct (first_blank_split h) as [Hno|(pre & c & rest & -> & Hpre & Hc)].
  - rewrite fits_delete_card_no_match
      by (rewrite fits_find_card_scan;
          pose proof (scan_cards_spec Label_empty h 0) as Hs; cbn zeta in Hs;
          destruct (Z.lt_ge_cases (scan_cards Label_empty h 0) (nHead h)) as [Hlt|Hge];
          [|lia];
          destruct (scan_cards_split Label_empty h Hlt) as (p & x & r & -> & _ & _ & Hx);
          exfalso; apply (Hno x); [apply in_or_app; right; left; reflexivity|exact Hx]).
    rewrite Z.eqb_refl.
    destruct (filter_no_blank h Hno) as (F1 & F2). rewrite F1.
    split; [reflexivity|]. f_equal. unfold count_blank. rewrite F2.
    assert (Hl : last_blank h = false).
    { unfold last_blank. destruct (last h) as [x|] eqn:E; [|reflexivity].
      apply last_Some_elem_of, list_elem_of_In in E.
      unfold blank_label. apply Z.eqb_neq. now apply Hno. }
    rewrite Hl. simpl. lia.
  - rewrite (fits_delete_card_at_split Label_empty pre c rest Hpre Hc).
    assert (Hbc : blank_label c = true) by (unfold blank_label; now apply Z.eqb_eq).
    destruct (filter_no_blank pre Hpre) as (P1 & P2).
    assert (Ff : List.filter (fun c => negb (blank_label c)) (pre ++ c :: rest)
                 = List.filter (fun c => negb (blank_label c)) (pre ++ rest)).
    { rewrite !List.filter_app. cbn [List.filter]. now rewrite Hbc. }
    assert (Fc : count_blank (pre ++ c :: rest) = count_blank (pre ++ rest) + 1).
    { unfold count_blank. rewrite !List.filter_app. cbn [List.filter]. rewrite Hbc.
      rewrite !length_app. cbn [length]. lia. }
    rewrite Ff, Fc.
    destruct rest as [|r rest].
    + rewrite !app_nil_r, Z.eqb_refl.
      split; [now rewrite P1|]. rewrite P1. f_equal.
      unfold count_blank. rewrite P2.
      assert (Hl : last_blank (pre ++ [c]) = true).
      { unfold last_blank. now rewrite last_snoc. }
      rewrite Hl. simpl. lia.
    + replace (nHead pre =? nHead (pre ++ r :: rest)) with false
        by (symmetry; apply Z.eqb_neq; rewrite nHead_app, nHead_cons;
            pose proof (nHead_nonneg rest); lia).
      rewrite length_app in Hlen. cbn [length] in Hlen.
      destruct (IH (pre ++ r :: rest) (n + 1)) as (I1 & I2);
        [rewrite length_app; cbn [length]; lia|].
      split; [exact I1|]. rewrite I2. f_equal.
      unfold last_blank. rewrite (last_app_cons pre c (r :: rest)) by discriminate.
      lia.
Qed.

(** X15.  [fits_purge_blank_cards_] removes exactly the cards whose
    label is blank and keeps the others in their order.  The count it
    returns is the number of cards removed, except that a blank card at
    the very end of the header is removed without being counted. *)
Theorem fits_purge_blank_cards_removes_blanks (fuel : nat) (h : header) :
  (length h < fuel)%nat ->
  fits_purge_blank_cards_ fuel h = List.filter (fun c => negb (blank_label c)) h /\
  fits_purge_blank_cards_count fuel h 0
  = (List.filter (fun c => negb (blank_label c)) h,
     count_blank h - (if last_blank h then 1 else 0)).
Proof.
  intros Hlen. destruct (purge_blank_cards_spec fuel h 0 Hlen) as (H1 & H2).
  split; [exact H1|]. rewrite H2. reflexivity.
Qed.


(** *** String cards *)

Lemma fits_string_to_card_text (l rest : cbuf) :
  length l = 8%nat -> clean_text l -> map toupper l = l ->
  clean_text rest -> (length rest <= 72)%nat ->
  fits_string_to_card_ (l ++ rest) = l ++ rest ++ repeat BLANK (72 - length rest).
Proof.
  intros Hl Hcl Hup Hcr Hr. unfold fits_string_to_card_.
  rewrite blank_from_null_clean.
  - rewrite !length_app, Hl. rewrite <- !app_assoc.
    rewrite take_app_length' by (symmetry; exact Hl).
    rewrite drop_app_length' by (symmetry; exact Hl).
    rewrite Hup.
    replace (80 - (8 + length rest))%nat with (72 - length rest)%nat by lia.
    reflexivity.
  - now apply clean_text_app.
  - rewrite length_app, Hl. lia.
Qed.

(** After [fits_change_card_], the first card of the label is the card
    written. *)
Lemma card_after_change (l pCard : cbuf) (h : header) :
  length l = 8%nat -> ~ In NUL l ->
  take 8 (fits_string_to_card_ pCard) = l ->
  let h' := fst (fits_change_card_ pCard h) in
  scan_cards l h' 0 < nHead h' /\
  card_at h' (scan_cards l h' 0) = fits_string_to_card_ pCard.
Proof.
  intros Hl Hn Ht. cbn zeta.
  assert (Hm : strncmp l (fits_string_to_card_ pCard) 8 = 0)
    by (apply strncmp_label; assumption).
  destruct (fits_change_card_cases l pCard h) as (Habs & Hpres).
  { rewrite Ht. symmetry. apply take_ge. lia. }
  destruct (Z.lt_ge_cases (scan_cards l h 0) (nHead h)) as [Hlt|Hge].
  - destruct (scan_cards_split l h Hlt) as (pre & c & rest & Eh & _ & Hpre & Hc).
    rewrite (Hpres pre c rest Eh Hpre Hc). cbn [fst].
    rewrite (scan_at_split l pre _ rest Hpre Hm). split.
    + apply Z.ltb_lt. apply nHead_split_ltb.
    + apply card_at_app_r.
  - assert (Hno : fits_find_card_ l h = nHead h).
    { rewrite fits_find_card_scan. pose proof (scan_cards_spec l h 0) as Hs.
      cbn zeta in Hs. lia. }
    rewrite (Habs Hno). exact (scan_after_add l pCard h Hno Hm).
Qed.

Lemma rtrim_snoc_nonblank (s : cbuf) (c : uchar) :
  Ascii.eqb c BLANK = false -> rtrim (s ++ [c]) = s ++ [c].
Proof.
  intros Hc. induction s as [|x s IH]; cbn [app rtrim].
  - now rewrite Hc.
  - rewrite IH. destruct (s ++ [c]) eqn:E; [|reflexivity].
    destruct s; discriminate.
Qed.

Lemma rtrim_snoc_blank (s : cbuf) : rtrim (s ++ [BLANK]) = rtrim s.
Proof.
  induction s as [|x s IH]; cbn [app rtrim]; [reflexivity|]. now rewrite IH.
Qed.

Lemma cstr_terminated (b t : cbuf) : ~ In NUL b -> cstr (b ++ NUL :: t) = b.
Proof.
  intros Hb. unfold cstr.
  assert (E : strlen (b ++ NUL :: t) = length b).
  { induction b as [|c b IH]; [reflexivity|]. cbn [app strlen].
    destruct (Ascii.eqb_spec c NUL) as [->|_]; [exfalso; apply Hb; left; reflexivity|].
    rewrite IH; [reflexivity|]. intros H. apply Hb. right. exact H. }
  rewrite E. apply take_app_length.
Qed.

Lemma trim_blanks_spec (b : cbuf) :
  forall t, ~ In NUL b -> cstr (trim_blanks (b ++ NUL :: t) (length b)) = rtrim b.
Proof.
  induction b as [|c b IH] using rev_ind; intros t Hb.
  - reflexivity.
  - rewrite length_app. cbn [length]. rewrite Nat.add_1_r. cbn [trim_blanks].
    assert (Hb' : ~ In NUL b) by (intros H; apply Hb, in_or_app; left; exact H).
    assert (Hat : at_ ((b ++ [c]) ++ NUL :: t) (length b) = c).
    { unfold at_. rewrite <- app_assoc. rewrite app_nth2 by lia.
      now rewrite Nat.sub_diag. }
    rewrite Hat. destruct (Ascii.eqb_spec c BLANK) as [->|Hc].
    + rewrite rtrim_snoc_blank. rewrite <- (IH (NUL :: t) Hb'). do 2 f_equal.
      rewrite <- app_assoc. cbn [app].
      replace (length b) with (length b + 0)%nat at 1 by lia.
      exact (poke_app_r b (BLANK :: NUL :: t) 0 NUL).
    + rewrite rtrim_snoc_nonblank by (now apply Ascii.eqb_neq).
      now apply cstr_terminated.
Qed.

Lemma poke_take_drop (b : cbuf) (i : nat) (c : uchar) :
  (i < length b)%nat -> poke b i c = take i b ++ c :: drop (S i) b.
Proof. intros H. unfold poke. now apply insert_take_drop. Qed.

Lemma copy_string_value_spec (r : cbuf) :
  forall (pre post pTemp : cbuf) (k fuel : nat),
    length pre = (11 + k)%nat ->
    Forall (fun c => Ascii.eqb c QUOTE = false) r ->
    (length r < fuel)%nat -> (11 + k + length r < 80)%nat ->
    (k + length r < length pTemp)%nat ->
    copy_string_value (pre ++ r ++ QUOTE :: post) pTemp (11 + k) fuel
    = (take k pTemp ++ r ++ QUOTE :: drop (k + length r + 1) pTemp,
       (11 + k + length r)%nat).
Proof.
  induction r as [|c r IH]; intros pre post pTemp k fuel Hpre Hq Hfuel Hlt Hroom;
    (destruct fuel as [|fuel]; [cbn [length] in Hfuel; lia|]);
    cbn [copy_string_value].
  - cbn [length app] in *.
    replace (11 + k <? 80)%nat with true by (symmetry; apply Nat.ltb_lt; lia).
    assert (Hat : at_ (pre ++ QUOTE :: post) (11 + k) = QUOTE).
    { unfold at_. rewrite app_nth2 by lia. now rewrite Hpre, Nat.sub_diag. }
    rewrite Hat. change (Ascii.eqb QUOTE QUOTE) with true. cbv iota.
    f_equal; [|lia].
    replace (11 + k - 11)%nat with k by lia.
    rewrite poke_take_drop by lia. do 2 f_equal. f_equal. lia.
  - cbn [length app] in *.
    replace (11 + k <? 80)%nat with true by (symmetry; apply Nat.ltb_lt; lia).
    assert (Hat : at_ (pre ++ c :: r ++ QUOTE :: post) (11 + k) = c).
    { unfold at_. rewrite app_nth2 by lia. now rewrite Hpre, Nat.sub_diag. }
    rewrite Hat. inversion Hq as [|? ? Hc Hq']; subst. rewrite Hc.
    replace (11 + k - 11)%nat with k by lia.
    replace (pre ++ c :: r ++ QUOTE :: post) with ((pre ++ [c]) ++ r ++ QUOTE :: post)
      by (now rewrite <- app_assoc).
    replace (S (11 + k)) with (11 + S k)%nat by lia.
    assert (Hpl : length (poke pTemp k c) = length pTemp)
      by (unfold poke; apply length_insert).
    rewrite (IH (pre ++ [c]) post (poke pTemp k c) (S k) fuel);
      try (rewrite ?Hpl, ?length_app; cbn [length]; lia);
      [|exact Hq'].
    f_equal; [|lia]. rewrite poke_take_drop by lia.
    assert (Hk : length (take k pTemp ++ [c]) = S k)
      by (rewrite length_app, length_take; cbn [length]; lia).
    replace (take k pTemp ++ c :: drop (S k) pTemp)
      with ((take k pTemp ++ [c]) ++ drop (S k) pTemp) by (now rewrite <- app_assoc).
    rewrite take_app_length' by (symmetry; exact Hk).
    replace (S k + length r + 1)%nat with (S k + (length r + 1))%nat by lia.
    rewrite <- drop_drop.
    rewrite drop_app_length' by (symmetry; exact Hk).
    rewrite drop_drop. rewrite <- app_assoc. cbn [app]. do 4 f_equal.
    f_equal. lia.
Qed.


Lemma strlen_terminated (b t : cbuf) : ~ In NUL b -> strlen (b ++ NUL :: t) = length b.
Proof.
  intros Hb. induction b as [|c b IH]; [reflexivity|]. cbn [app strlen].
  destruct (Ascii.eqb_spec c NUL) as [->|_]; [exfalso; apply Hb; left; reflexivity|].
  rewrite IH; [reflexivity|]. intros H. apply Hb. right. exact H.
Qed.

(** Reading a string card back. *)
Lemma fits_get_card_string_written (l body post : cbuf) (h : header) :
  length l = 8%nat -> ~ In NUL body ->
  Forall (fun c => Ascii.eqb c QUOTE = false) body -> (length body <= 68)%nat ->
  scan_cards l h 0 < nHead h ->
  card_at h (scan_cards l h 0) = (l ++ lit "= '") ++ body ++ QUOTE :: post ->
  fst (fits_get_card_string_ l h) = TRUE_MWDUST /\
  string_at (snd (fits_get_card_string_ l h)) = rtrim body.
Proof.
  intros Hl Hnn Hq Hlen Hlt Hcard. unfold fits_get_card_string_. cbv zeta.
  apply Z.ltb_lt in Hlt. rewrite Hlt, Hcard.
  assert (Hpre : length (l ++ lit "= '") = (11 + 0)%nat)
    by (rewrite length_app, Hl; reflexivity).
  assert (Hat : at_ ((l ++ lit "= '") ++ body ++ QUOTE :: post) 10 = QUOTE).
  { unfold at_. rewrite app_nth1 by (rewrite Hpre; lia).
    rewrite app_nth2 by lia. rewrite Hl. reflexivity. }
  rewrite Hat. change (Ascii.eqb QUOTE QUOTE) with true. cbv iota.
  assert (Hj : length (ccalloc_ 70) = 70%nat)
    by (unfold ccalloc_; now rewrite length_map, length_seq).
  pose proof (copy_string_value_spec body (l ++ lit "= '") post (ccalloc_ 70) 0 69
                Hpre Hq ltac:(lia) ltac:(lia) ltac:(rewrite Hj; lia)) as Hcopy.
  cbn [Nat.add] in Hcopy. rewrite Hcopy. cbn [fst snd].
  rewrite take_0. cbn [app].
  cbn [Nat.sub].
  assert (Hp : poke (body ++ QUOTE :: drop (length body + 1) (ccalloc_ 70))
                 (length body) NUL
               = body ++ NUL :: drop (length body + 1) (ccalloc_ 70)).
  { replace (length body) with (length body + 0)%nat at 2 by lia.
    apply (poke_app_r body (QUOTE :: drop (length body + 1) (ccalloc_ 70)) 0 NUL). }
  rewrite Nat.sub_0_r, Hp.
  rewrite strlen_terminated by exact Hnn.
  split; [reflexivity|]. unfold string_at. now apply trim_blanks_spec.
Qed.

Lemma rtrim_fmt_s68 (s : cbuf) : clean_text s -> rtrim (fmt_s68 s) = rtrim (take 68 s).
Proof.
  intros Hs. unfold fmt_s68, cstr, pad_right. rewrite strlen_clean by exact Hs.
  rewrite firstn_all. destruct (take 68 s) as [|c t] eqn:E.
  - reflexivity.
  - cbn [length Nat.sub repeat]. now rewrite app_nil_r.
Qed.

Lemma fmt_s68_props (s : cbuf) :
  quotable s ->
  clean_text (fmt_s68 s) /\ Forall (fun c => Ascii.eqb c QUOTE = false) (fmt_s68 s) /\
  (length (fmt_s68 s) <= 68)%nat.
Proof.
  intros (Hs & Hq). unfold fmt_s68, cstr, pad_right. rewrite strlen_clean by exact Hs.
  rewrite firstn_all.
  assert (Hl : (length (take 68 s) <= 68)%nat) by (rewrite length_take; lia).
  split; [|split].
  - apply clean_text_app; [now apply clean_text_take|apply clean_text_blanks].
  - apply Forall_app. split; [now apply Forall_take|].
    destruct (length (take 68 s)) as [|[|n]]; cbn [Nat.sub repeat]; repeat constructor.
  - rewrite length_app, repeat_length. lia.
Qed.

Lemma string_card_text (l s : cbuf) :
  length l = 8%nat -> clean_text l -> map toupper l = l -> quotable s ->
  fits_string_to_card_ (fmt_label l ++ lit "= '" ++ fmt_s68 s ++ lit "'")
  = (l ++ lit "= '") ++ fmt_s68 s ++ QUOTE :: repeat BLANK (68 - length (fmt_s68 s)).
Proof.
  intros Hl Hcl Hup Hs. rewrite fmt_label_id by assumption.
  destruct (fmt_s68_props s Hs) as (Hc & Hq & Hlen).
  rewrite fits_string_to_card_text; try assumption.
  - rewrite !length_app. cbn [length lit list_ascii_of_string].
    rewrite <- !app_assoc. cbn [app lit list_ascii_of_string].
    replace (72 - (3 + (length (fmt_s68 s) + 1)))%nat
      with (68 - length (fmt_s68 s))%nat by lia.
    reflexivity.
  - apply clean_text_app; [repeat constructor|].
    apply clean_text_app; [exact Hc|repeat constructor].
  - rewrite !length_app. cbn [length lit list_ascii_of_string]. lia.
Qed.

(** X16.  A string value written by [fits_change_card_string_] is read
    back by [fits_get_card_string_], for every 8-byte label that
    [fits_string_to_card_] leaves unchanged, every header and every
    string without NUL, newline and quote: the string read is the first
    68 bytes of the string written, without their trailing blanks.  The
    same holds for [fits_add_card_string_] when no card had the label. *)
Theorem change_then_get_card_string (pLabel s : cbuf) (h : header) :
  length pLabel = 8%nat -> clean_text pLabel -> map toupper pLabel = pLabel ->
  quotable s ->
  (let h' := fst (fits_change_card_string_ s pLabel h) in
   fst (fits_get_card_string_ pLabel h') = TRUE_MWDUST /\
   string_at (snd (fits_get_card_string_ pLabel h')) = rtrim (take 68 s)) /\
  (fits_find_card_ pLabel h = nHead h ->
   let h' := fst (fits_add_card_string_ s pLabel h) in
   fst (fits_get_card_string_ pLabel h') = TRUE_MWDUST /\
   string_at (snd (fits_get_card_string_ pLabel h')) = rtrim (take 68 s)).
Proof.
  intros Hl Hcl Hup Hs.
  destruct (fmt_s68_props s Hs) as (Hc & Hq & Hlen).
  pose proof (string_card_text pLabel s Hl Hcl Hup Hs) as Hcard.
  pose proof (clean_text_no_nul _ Hcl) as Hnn.
  assert (Ht : take 8 (fits_string_to_card_
                          (fmt_label pLabel ++ lit "= '" ++ fmt_s68 s ++ lit "'"))
               = pLabel).
  { rewrite Hcard, <- !app_assoc. rewrite take_8_written by exact Hl.
    apply take_ge. lia. }
  assert (Hread : let h' := fst (fits_change_card_string_ s pLabel h) in
                  fst (fits_get_card_string_ pLabel h') = TRUE_MWDUST /\
                  string_at (snd (fits_get_card_string_ pLabel h')) = rtrim (take 68 s)).
  { cbn zeta. unfold fits_change_card_string_.
    destruct (card_after_change pLabel _ h Hl Hnn Ht) as (Hlt & Hat).
    cbn zeta in Hlt, Hat. rewrite Hcard in Hat.
    rewrite <- (rtrim_fmt_s68 s (proj1 Hs)).
    apply (fits_get_card_string_written pLabel (fmt_s68 s) _ _ Hl
             (clean_text_no_nul _ Hc) Hq Hlen Hlt Hat). }
  split; [exact Hread|].
  intros Hfresh. cbn zeta in *. unfold fits_add_card_string_.
  unfold fits_change_card_string_ in Hread.
  destruct (fits_change_card_cases pLabel
              (fmt_label pLabel ++ lit "= '" ++ fmt_s68 s ++ lit "'") h) as (Habs & _).
  { rewrite Ht. symmetry. apply take_ge. lia. }
  rewrite <- (Habs Hfresh). exact Hread.
Qed.


(** ** Headers on files *)

Lemma drop_at (s : cbuf) (i : nat) :
  (i < length s)%nat -> drop i s = at_ s i :: drop (S i) s.
Proof.
  revert i; induction s as [|c s IH]; intros i Hi; [simpl in Hi; lia|].
  destruct i as [|i]; [reflexivity|].
  cbn [drop]. rewrite IH by (simpl in Hi; lia). reflexivity.
Qed.

Lemma length_concat_80 (h : header) :
  wf_header h -> length (concat h) = (80 * length h)%nat.
Proof.
  induction 1 as [|c h Hc Hh IH]; [reflexivity|].
  cbn [concat length]. rewrite length_app, Hc, IH. lia.
Qed.

Lemma fputc_at_end (c : uchar) (f : FILE) :
  f_pos f = Z.of_nat (length (f_data f)) ->
  fputc c f = mkFILE (f_data f ++ [c]) (f_pos f + 1).
Proof.
  intros Hp. unfold fputc. rewrite Hp, Nat2Z.id.
  rewrite take_ge by lia. rewrite Nat.sub_diag.
  rewrite drop_ge by lia. reflexivity.
Qed.

Lemma put_bytes_at_end (pCard : cbuf) (n : nat) :
  forall (i : nat) (f : FILE),
    f_pos f = Z.of_nat (length (f_data f)) ->
    (i + n <= length pCard)%nat ->
    fold_left (fun f' iChar => fputc (at_ pCard iChar) f') (seq i n) f
    = mkFILE (f_data f ++ take n (drop i pCard)) (f_pos f + Z.of_nat n).
Proof.
  induction n as [|n IH]; intros i f Hp Hn.
  - cbn [seq fold_left take]. rewrite app_nil_r, Z.add_0_r. destruct f; reflexivity.
  - cbn [seq fold_left]. rewrite fputc_at_end by exact Hp.
    rewrite IH; cbn [f_data f_pos].
    + rewrite (drop_at pCard i) by lia. cbn [take].
      rewrite <- app_assoc. cbn [app]. f_equal. lia.
    + rewrite length_app. cbn [length]. lia.
    + lia.
Qed.

Lemma fits_put_next_card_at_end (pCard : cbuf) (f : FILE) :
  f_pos f = Z.of_nat (length (f_data f)) -> length pCard = 80%nat ->
  snd (fits_put_next_card_ pCard f) = mkFILE (f_data f ++ pCard) (f_pos f + 80).
Proof.
  intros Hp Hl. unfold fits_put_next_card_. cbn [snd].
  rewrite put_bytes_at_end by (try exact Hp; rewrite Hl; lia).
  rewrite drop_0, take_ge by lia. reflexivity.
Qed.

Lemma put_cards_at_end (h : header) :
  forall f : FILE,
    f_pos f = Z.of_nat (length (f_data f)) -> wf_header h ->
    fold_left (fun f' c => snd (fits_put_next_card_ c f')) h f
    = mkFILE (f_data f ++ concat h) (f_pos f + 80 * nHead h).
Proof.
  induction h as [|c h IH]; intros f Hp Hwf.
  - cbn [fold_left concat]. rewrite app_nil_r. unfold nHead. cbn [length].
    rewrite Z.add_0_r. destruct f; reflexivity.
  - inversion Hwf as [|? ? Hc Hh]; subst.
    cbn [fold_left concat]. rewrite fits_put_next_card_at_end by assumption.
    rewrite IH; cbn [f_data f_pos]; [|rewrite length_app; lia|exact Hh].
    rewrite <- app_assoc. f_equal. rewrite nHead_cons. lia.
Qed.

Lemma put_blank_cards_at_end (n : nat) :
  forall f : FILE,
    f_pos f = Z.of_nat (length (f_data f)) ->
    put_blank_cards n f
    = mkFILE (f_data f ++ repeat BLANK (80 * n)) (f_pos f + 80 * Z.of_nat n).
Proof.
  induction n as [|n IH]; intros f Hp.
  - cbn [put_blank_cards]. rewrite Nat.mul_0_r. cbn [repeat].
    rewrite app_nil_r, Z.add_0_r. destruct f; reflexivity.
  - cbn [put_blank_cards].
    rewrite fits_put_next_card_at_end by (try exact Hp; reflexivity).
    rewrite IH; cbn [f_data f_pos].
    + rewrite <- app_assoc. unfold Card_empty. rewrite <- repeat_app.
      f_equal; [f_equal; f_equal; lia|lia].
    + rewrite length_app. unfold Card_empty. rewrite repeat_length. lia.
Qed.

(** The file that [fits_write_fits_header_] makes of a header. *)
Lemma fits_write_fits_header_file (h : header) :
  wf_header h ->
  exists pad : nat,
    (pad < 36)%nat /\ ((length h + pad) mod 36 = 0)%nat /\
    fits_write_fits_header_ h fopen_write
    = mkFILE (concat h ++ repeat BLANK (80 * pad)) (80 * (nHead h + Z.of_nat pad)).
Proof.
  intros Hwf. unfold fits_write_fits_header_.
  rewrite put_cards_at_end by (try reflexivity; exact Hwf).
  cbn [fopen_write f_data f_pos app ftell]. rewrite Z.add_0_l.
  assert (Hn : 0 <= nHead h) by (unfold nHead; lia).
  assert (Hj : (80 * nHead h) mod 2880 / 80 = nHead h mod 36).
  { replace 2880 with (80 * 36) by reflexivity.
    rewrite Zmult_mod_distr_l. rewrite Z.mul_comm, Z.div_mul by lia. reflexivity. }
  rewrite Hj.
  assert (Hm : 0 <= nHead h mod 36 < 36) by (apply Z.mod_pos_bound; lia).
  assert (Hnat : Z.of_nat (length h mod 36) = nHead h mod 36).
  { unfold nHead. rewrite Nat2Z.inj_mod. reflexivity. }
  destruct (Z.eqb_spec (nHead h mod 36) 0) as [E|E].
  - exists 0%nat. split; [lia|]. split.
    + rewrite Nat.add_0_r. lia.
    + rewrite Nat.mul_0_r. cbn [repeat]. rewrite app_nil_r. f_equal. lia.
  - exists (Z.to_nat (36 - nHead h mod 36)). split; [lia|]. split.
    + apply Nat2Z.inj. rewrite Nat2Z.inj_mod, Nat2Z.inj_add, Z2Nat.id by lia.
      fold (nHead h). change (Z.of_nat 36) with 36. change (Z.of_nat 0) with 0.
      rewrite <- Zplus_mod_idemp_l.
      replace (nHead h mod 36 + (36 - nHead h mod 36)) with (1 * 36) by ring.
      apply Z_mod_mult.
    + rewrite put_blank_cards_at_end; cbn [f_data f_pos].
      * f_equal. rewrite Z2Nat.id by lia. lia.
      * rewrite length_concat_80 by exact Hwf. unfold nHead. lia.
Qed.


Lemma fits_get_next_card_at (done c rest : cbuf) :
  length c = 80%nat ->
  fits_get_next_card_ (mkFILE (done ++ c ++ rest) (Z.of_nat (length done)))
  = (strncmp Card_end c 8, c,
     mkFILE (done ++ c ++ rest) (Z.of_nat (length done) + 80)).
Proof.
  intros Hc. unfold fits_get_next_card_, remaining. cbn [f_data f_pos].
  rewrite Nat2Z.id, drop_app_length.
  assert (E : take 80 (c ++ rest) = c) by (apply take_app_length'; symmetry; exact Hc).
  rewrite E, Hc. cbn [Nat.sub repeat]. rewrite app_nil_r. reflexivity.
Qed.

Lemma read_cards_run (todo : header) :
  forall (done e rest : cbuf) (hacc : header) (fuel : nat),
    wf_header todo -> (forall c, In c todo -> strncmp Card_end c 8 <> 0) ->
    length e = 80%nat -> strncmp Card_end e 8 = 0 ->
    (length todo < fuel)%nat ->
    read_cards fuel
      (mkFILE (done ++ concat todo ++ e ++ rest) (Z.of_nat (length done))) hacc
    = Some (mkFILE (done ++ concat todo ++ e ++ rest)
              (Z.of_nat (length done) + 80 * nHead todo + 80),
            fold_left keep_card todo hacc).
Proof.
  induction todo as [|c todo IH]; intros done e rest hacc fuel Hwf Hno He Hend Hfuel.
  - destruct fuel as [|fuel]; [simpl in Hfuel; lia|].
    cbn [concat app read_cards fold_left].
    rewrite fits_get_next_card_at by exact He. rewrite Hend. cbn [Z.eqb].
    unfold nHead. cbn [length]. do 2 f_equal. f_equal. lia.
  - destruct fuel as [|fuel]; [simpl in Hfuel; lia|].
    inversion Hwf as [|? ? Hc Hh]; subst.
    cbn [concat read_cards fold_left]. rewrite <- !app_assoc.
    rewrite fits_get_next_card_at by exact Hc.
    destruct (Z.eqb_spec (strncmp Card_end c 8) 0) as [E|_];
      [exfalso; exact (Hno c (or_introl eq_refl) E)|].
    fold (keep_card hacc c).
    specialize (IH (done ++ c) e rest (keep_card hacc c) fuel Hh).
    rewrite length_app, Hc, <- !app_assoc in IH.
    replace (Z.of_nat (length done) + 80) with (Z.of_nat (length done + 80)) by lia.
    rewrite IH; [|intros x Hx; apply Hno; right; exact Hx|exact He|exact Hend
                 |simpl in Hfuel; lia].
    rewrite nHead_cons. do 2 f_equal. f_equal. lia.
Qed.

Lemma skip_to_end_card_run (todo : header) :
  forall (done e rest : cbuf) (fuel : nat),
    wf_header todo -> (forall c, In c todo -> strncmp Card_end c 8 <> 0) ->
    length e = 80%nat -> strncmp Card_end e 8 = 0 ->
    (length todo < fuel)%nat ->
    skip_to_end_card fuel
      (mkFILE (done ++ concat todo ++ e ++ rest) (Z.of_nat (length done)))
    = Some (mkFILE (done ++ concat todo ++ e ++ rest)
              (Z.of_nat (length done) + 80 * nHead todo + 80)).
Proof.
  induction todo as [|c todo IH]; intros done e rest fuel Hwf Hno He Hend Hfuel.
  - destruct fuel as [|fuel]; [simpl in Hfuel; lia|].
    cbn [concat app skip_to_end_card].
    rewrite fits_get_next_card_at by exact He. rewrite Hend. cbn [Z.eqb].
    unfold nHead. cbn [length]. do 2 f_equal. lia.
  - destruct fuel as [|fuel]; [simpl in Hfuel; lia|].
    inversion Hwf as [|? ? Hc Hh]; subst.
    cbn [concat skip_to_end_card]. rewrite <- !app_assoc.
    rewrite fits_get_next_card_at by exact Hc.
    destruct (Z.eqb_spec (strncmp Card_end c 8) 0) as [E|_];
      [exfalso; exact (Hno c (or_introl eq_refl) E)|].
    specialize (IH (done ++ c) e rest fuel Hh).
    rewrite length_app, Hc, <- !app_assoc in IH.
    replace (Z.of_nat (length done) + 80) with (Z.of_nat (length done + 80)) by lia.
    rewrite IH; [|intros x Hx; apply Hno; right; exact Hx|exact He|exact Hend
                 |simpl in Hfuel; lia].
    rewrite nHead_cons. do 2 f_equal. lia.
Qed.


Lemma fits_get_next_card_k (contents : cbuf) (k : nat) :
  80 * Z.of_nat k <= Z.of_nat (length contents) ->
  fits_get_next_card_ (mkFILE contents (80 * Z.of_nat k))
  = (strncmp Card_end (file_card contents k) 8, file_card contents k,
     mkFILE contents (Z.min (Z.of_nat (length contents)) (80 * Z.of_nat k + 80))).
Proof.
  intros Hk. unfold file_card, fits_get_next_card_, remaining. cbn [f_data f_pos fst snd].
  do 2 f_equal. rewrite length_take, length_drop. lia.
Qed.

Lemma fits_get_next_card_eof (contents : cbuf) (p : Z) :
  Z.of_nat (length contents) <= p ->
  fits_get_next_card_ (mkFILE contents p)
  = (strncmp Card_end (repeat EOF_char 80) 8, repeat EOF_char 80, mkFILE contents p).
Proof.
  intros Hp. unfold fits_get_next_card_, remaining. cbn [f_data f_pos].
  rewrite drop_ge by lia. cbn [take length Nat.sub app].
  rewrite Z.add_0_r. reflexivity.
Qed.

Lemma strncmp_end_eof : strncmp Card_end (repeat EOF_char 80) 8 <> 0.
Proof. vm_compute. discriminate. Qed.

Lemma file_card_past_end (contents : cbuf) (k : nat) :
  Z.of_nat (length contents) <= 80 * Z.of_nat k ->
  file_card contents k = repeat EOF_char 80.
Proof.
  intros Hk. unfold file_card. rewrite fits_get_next_card_eof by exact Hk.
  reflexivity.
Qed.

(** An END card begins inside the file. *)
Lemma file_card_END_inside (contents : cbuf) (k : nat) :
  strncmp Card_end (file_card contents k) 8 = 0 ->
  80 * Z.of_nat k < Z.of_nat (length contents).
Proof.
  intros Hend.
  destruct (Z_lt_le_dec (80 * Z.of_nat k) (Z.of_nat (length contents))) as [H|H];
    [exact H|].
  rewrite file_card_past_end in Hend by exact H.
  exfalso. exact (strncmp_end_eof Hend).
Qed.

Lemma skip_cards_pos (n : nat) :
  forall (contents : cbuf) (p : Z),
    0 <= p <= Z.of_nat (length contents) ->
    skip_cards n (mkFILE contents p)
    = mkFILE contents (Z.min (Z.of_nat (length contents)) (p + 80 * Z.of_nat n)).
Proof.
  induction n as [|n IH]; intros contents p Hp.
  - cbn [skip_cards]. f_equal. lia.
  - cbn [skip_cards].
    assert (E : snd (fits_get_next_card_ (mkFILE contents p))
                = mkFILE contents (Z.min (Z.of_nat (length contents)) (p + 80))).
    { unfold fits_get_next_card_, remaining. cbn [f_data f_pos snd].
      f_equal. rewrite length_take, length_drop. lia. }
    rewrite E, IH by lia. f_equal. lia.
Qed.

(** The loop over the cards reaches the first END card. *)
Lemma skip_to_end_card_reach (contents : cbuf) (k : nat) (fuel : nat) :
  forall j : nat,
    (j <= k)%nat -> (k - j < fuel)%nat ->
    (forall i, (j <= i < k)%nat -> strncmp Card_end (file_card contents i) 8 <> 0) ->
    strncmp Card_end (file_card contents k) 8 = 0 ->
    skip_to_end_card fuel (mkFILE contents (80 * Z.of_nat j))
    = Some (mkFILE contents
              (Z.min (Z.of_nat (length contents)) (80 * Z.of_nat k + 80))).
Proof.
  induction fuel as [|fuel IH]; intros j Hj Hfuel Hno Hend; [lia|].
  pose proof (file_card_END_inside contents k Hend) as Hin.
  cbn [skip_to_end_card]. rewrite fits_get_next_card_k by lia.
  destruct (Nat.eq_dec j k) as [->|Hne].
  - rewrite Hend. cbn [Z.eqb]. reflexivity.
  - destruct (Z.eqb_spec (strncmp Card_end (file_card contents j) 8) 0) as [E|_];
      [exfalso; apply (Hno j); [lia|exact E]|].
    replace (Z.min (Z.of_nat (length contents)) (80 * Z.of_nat j + 80))
      with (80 * Z.of_nat (S j)) by lia.
    apply IH; [lia|lia| |exact Hend].
    intros i Hi. apply Hno. lia.
Qed.

Lemma read_cards_reach_fuel (contents : cbuf) (k : nat) (fuel : nat) :
  forall (j : nat) (h : header),
    (j <= k)%nat -> (k - j < fuel)%nat ->
    (forall i, (j <= i < k)%nat -> strncmp Card_end (file_card contents i) 8 <> 0) ->
    strncmp Card_end (file_card contents k) 8 = 0 ->
    exists h', read_cards fuel (mkFILE contents (80 * Z.of_nat j)) h
               = Some (mkFILE contents
                         (Z.min (Z.of_nat (length contents)) (80 * Z.of_nat k + 80)),
                       h').
Proof.
  induction fuel as [|fuel IH]; intros j h Hj Hfuel Hno Hend; [lia|].
  pose proof (file_card_END_inside contents k Hend) as Hin.
  cbn [read_cards]. rewrite fits_get_next_card_k by lia.
  destruct (Nat.eq_dec j k) as [->|Hne].
  - rewrite Hend. cbn [Z.eqb]. exists h. reflexivity.
  - destruct (Z.eqb_spec (strncmp Card_end (file_card contents j) 8) 0) as [E|_];
      [exfalso; apply (Hno j); [lia|exact E]|].
    replace (Z.min (Z.of_nat (length contents)) (80 * Z.of_nat j + 80))
      with (80 * Z.of_nat (S j)) by lia.
    apply IH; [lia|lia| |exact Hend].
    intros i Hi. apply Hno. lia.
Qed.

(** Without an END card the loop finds none, whatever the number of cards
    it tries. *)
Lemma skip_to_end_card_never (contents : cbuf) :
  (forall k, strncmp Card_end (file_card contents k) 8 <> 0) ->
  forall (fuel : nat) (p : Z),
    (exists k : nat, p = 80 * Z.of_nat k) \/ Z.of_nat (length contents) <= p ->
    skip_to_end_card fuel (mkFILE contents p) = None.
Proof.
  intros Hno. induction fuel as [|fuel IH]; intros p Hp; [reflexivity|].
  cbn [skip_to_end_card].
  destruct (Z_lt_le_dec p (Z.of_nat (length contents))) as [Hlt|Hge].
  - destruct Hp as [[k ->]|Hp]; [|lia].
    rewrite fits_get_next_card_k by lia.
    destruct (Z.eqb_spec (strncmp Card_end (file_card contents k) 8) 0) as [E|_];
      [exfalso; exact (Hno k E)|].
    apply IH.
    destruct (Z_lt_le_dec (80 * Z.of_nat k + 80) (Z.of_nat (length contents)));
      [left; exists (S k); lia|right; lia].
  - rewrite fits_get_next_card_eof by exact Hge.
    destruct (Z.eqb_spec (strncmp Card_end (repeat EOF_char 80) 8) 0) as [E|_];
      [exfalso; exact (strncmp_end_eof E)|].
    apply IH. right. exact Hge.
Qed.

Lemma read_cards_never (contents : cbuf) :
  (forall k, strncmp Card_end (file_card contents k) 8 <> 0) ->
  forall (fuel : nat) (p : Z) (h : header),
    (exists k : nat, p = 80 * Z.of_nat k) \/ Z.of_nat (length contents) <= p ->
    read_cards fuel (mkFILE contents p) h = None.
Proof.
  intros Hno. induction fuel as [|fuel IH]; intros p h Hp; [reflexivity|].
  cbn [read_cards].
  destruct (Z_lt_le_dec p (Z.of_nat (length contents))) as [Hlt|Hge].
  - destruct Hp as [[k ->]|Hp]; [|lia].
    rewrite fits_get_next_card_k by lia.
    destruct (Z.eqb_spec (strncmp Card_end (file_card contents k) 8) 0) as [E|_];
      [exfalso; exact (Hno k E)|].
    apply IH.
    destruct (Z_lt_le_dec (80 * Z.of_nat k + 80) (Z.of_nat (length contents)));
      [left; exists (S k); lia|right; lia].
  - rewrite fits_get_next_card_eof by exact Hge.
    destruct (Z.eqb_spec (strncmp Card_end (repeat EOF_char 80) 8) 0) as [E|_];
      [exfalso; exact (strncmp_end_eof E)|].
    apply IH. right. exact Hge.
Qed.


Lemma block_end_cards (m : Z) :
  0 <= m ->
  (80 * m) mod 2880 / 80 = m mod 36 /\
  block_end (80 * m)
  = (if m mod 36 =? 0 then 80 * m else 80 * m + 80 * (36 - m mod 36)).
Proof.
  clear. intros Hm. unfold block_end.
  destruct (Z.eqb_spec (m mod 36) 0) as [E|E];
    split; Z.div_mod_to_equations; lia.
Qed.

Lemma block_end_le (n : Z) : n <= block_end n.
Proof. clear. unfold block_end. Z.div_mod_to_equations. lia. Qed.

Lemma cards_in_fuel (contents : cbuf) (k : nat) :
  80 * Z.of_nat k < Z.of_nat (length contents) ->
  (k - 0 < cards_in (fopen contents))%nat.
Proof.
  intros Hk. unfold cards_in, fopen. cbn [f_data].
  assert (k <= length contents / 80)%nat; [|lia].
  apply Nat.div_le_lower_bound; lia.
Qed.

(** The stream after the END card has been read and the rest of its
    block skipped. *)
Lemma skip_rest_of_block (contents : cbuf) (k : nat) :
  let f1 := mkFILE contents (Z.min (Z.of_nat (length contents)) (80 * Z.of_nat k + 80)) in
  (if (ftell f1 mod 2880) / 80 =? 0 then f1
   else skip_cards (Z.to_nat (36 - (ftell f1 mod 2880) / 80)) f1)
  = mkFILE contents
      (Z.min (Z.of_nat (length contents)) (block_end (80 * (Z.of_nat k + 1)))).
Proof.
  cbv zeta. unfold ftell. cbn [f_pos].
  set (len := Z.of_nat (length contents)).
  assert (Hlen : 0 <= len) by (unfold len; lia).
  pose proof (block_end_le (80 * (Z.of_nat k + 1))) as Hle.
  destruct (Z_le_gt_dec (80 * Z.of_nat k + 80) len) as [Hin|Hout].
  - replace (Z.min len (80 * Z.of_nat k + 80)) with (80 * (Z.of_nat k + 1)) by lia.
    destruct (block_end_cards (Z.of_nat k + 1)) as (Hj & Hb); [lia|].
    rewrite Hj, Hb.
    assert (Hm : 0 <= (Z.of_nat k + 1) mod 36 < 36) by (apply Z.mod_pos_bound; lia).
    destruct (Z.eqb_spec ((Z.of_nat k + 1) mod 36) 0) as [E|E].
    + f_equal. lia.
    + rewrite skip_cards_pos by (fold len; lia). fold len.
      rewrite Z2Nat.id by lia. reflexivity.
  - replace (Z.min len (80 * Z.of_nat k + 80)) with len by lia.
    assert (Hj : 0 <= len mod 2880 / 80 < 36).
    { clear. Z.div_mod_to_equations. lia. }
    destruct (Z.eqb_spec (len mod 2880 / 80) 0) as [E|E].
    + f_equal. lia.
    + rewrite skip_cards_pos by (fold len; lia). fold len. f_equal. lia.
Qed.

(** X17.  On a file whose first END card is the card [k], counting the
    80-byte cards from 0, [fits_skip_header_] and [fits_read_fits_header_]
    both return and leave the stream at the end of the 2880-byte block
    that holds the END card, or at the end of the file when the file is
    shorter than that. *)
Theorem fits_skip_header_ends_at_block (contents : cbuf) (k : nat) :
  (forall i, (i < k)%nat -> strncmp Card_end (file_card contents i) 8 <> 0) ->
  strncmp Card_end (file_card contents k) 8 = 0 ->
  let stop := Z.min (Z.of_nat (length contents)) (block_end (80 * (Z.of_nat k + 1))) in
  fits_skip_header_ (fopen contents) = Some (mkFILE contents stop) /\
  exists h, fits_read_fits_header_ (fopen contents) = Some (mkFILE contents stop, h).
Proof.
  intros Hno Hend stop.
  pose proof (file_card_END_inside contents k Hend) as Hin.
  pose proof (cards_in_fuel contents k Hin) as Hfuel.
  assert (Hno' : forall i, (0 <= i < k)%nat ->
                           strncmp Card_end (file_card contents i) 8 <> 0)
    by (intros i Hi; apply Hno; lia).
  split.
  - unfold fits_skip_header_.
    change (fopen contents) with (mkFILE contents (80 * Z.of_nat 0)) at 2.
    rewrite (skip_to_end_card_reach contents k _ 0%nat) by (try lia; assumption).
    rewrite skip_rest_of_block. reflexivity.
  - unfold fits_read_fits_header_.
    change (fopen contents) with (mkFILE contents (80 * Z.of_nat 0)) at 2.
    destruct (read_cards_reach_fuel contents k (cards_in (fopen contents)) 0%nat []
                ltac:(lia) Hfuel Hno' Hend) as (h' & ->).
    cbv zeta. rewrite skip_rest_of_block. eexists. reflexivity.
Qed.

Lemma existsb_first (p : nat -> bool) (n : nat) :
  existsb p (seq 0 n) = true ->
  exists k, (k < n)%nat /\ p k = true /\ forall i, (i < k)%nat -> p i = false.
Proof.
  induction n as [|n IH]; [discriminate|].
  rewrite seq_S, existsb_app. cbn [existsb Nat.add]. rewrite orb_false_r.
  destruct (existsb p (seq 0 n)) eqn:E.
  - intros _. destruct (IH eq_refl) as (k & Hk & Hp & Hfirst).
    exists k. split; [lia|]. split; assumption.
  - cbn [orb]. intros Hn. exists n. split; [lia|]. split; [exact Hn|].
    intros i Hi. destruct (p i) eqn:Ei; [|reflexivity].
    assert (Ht : existsb p (seq 0 n) = true).
    { apply existsb_exists. exists i. split; [apply in_seq; lia|exact Ei]. }
    congruence.
Qed.

Lemma has_END_false (contents : cbuf) :
  has_END contents = false ->
  forall k, strncmp Card_end (file_card contents k) 8 <> 0.
Proof.
  intros Hno k Hend.
  pose proof (file_card_END_inside contents k Hend) as Hin.
  pose proof (cards_in_fuel contents k Hin) as Hfuel.
  assert (Ht : has_END contents = true); [|congruence].
  unfold has_END. apply existsb_exists. exists k. split.
  - apply in_seq. lia.
  - rewrite Hend. reflexivity.
Qed.

(** X18.  The header readers need an END card.  On a file that has no END
    card at an offset that is a multiple of 80, the loop over the cards
    finds no end whatever the number of cards it tries, the end of the
    file not stopping it: [fits_skip_header_] and
    [fits_read_file_fits_header_only_] never return.  On a file that has
    one, both return. *)
Theorem fits_header_readers_need_END (contents : cbuf) :
  (has_END contents = false ->
   (forall fuel, skip_to_end_card fuel (fopen contents) = None) /\
   (forall fuel h, read_cards fuel (fopen contents) h = None) /\
   fits_skip_header_ (fopen contents) = None /\
   fits_read_file_fits_header_only_ contents = None) /\
  (has_END contents = true ->
   exists f h, fits_skip_header_ (fopen contents) = Some f /\
               fits_read_file_fits_header_only_ contents = Some h).
Proof.
  split.
  - intros Hno. pose proof (has_END_false contents Hno) as Hall.
    assert (H0 : (exists k : nat, 0 = 80 * Z.of_nat k) \/ Z.of_nat (length contents) <= 0)
      by (left; exists 0%nat; reflexivity).
    assert (Hs : forall fuel, skip_to_end_card fuel (fopen contents) = None)
      by (intros fuel; exact (skip_to_end_card_never contents Hall fuel 0 H0)).
    assert (Hr : forall fuel h, read_cards fuel (fopen contents) h = None)
      by (intros fuel h; exact (read_cards_never contents Hall fuel 0 h H0)).
    split; [exact Hs|]. split; [exact Hr|]. split.
    + unfold fits_skip_header_. rewrite Hs. reflexivity.
    + unfold fits_read_file_fits_header_only_. cbv zeta. rewrite Hr. reflexivity.
  - intros Hyes. unfold has_END in Hyes.
    destruct (existsb_first _ _ Hyes) as (k & Hk & Hend & Hfirst).
    apply Z.eqb_eq in Hend.
    assert (Hno : forall i, (0 <= i < k)%nat ->
                            strncmp Card_end (file_card contents i) 8 <> 0).
    { intros i Hi E. specialize (Hfirst i ltac:(lia)). rewrite E in Hfirst.
      discriminate Hfirst. }
    assert (Hfuel : (k - 0 < cards_in (fopen contents))%nat) by lia.
    eexists. 
    destruct (read_cards_reach_fuel contents k (cards_in (fopen contents)) 0%nat []
                ltac:(lia) Hfuel Hno Hend) as (h' & Hr).
    eexists. split.
    + unfold fits_skip_header_.
      change (fopen contents) with (mkFILE contents (80 * Z.of_nat 0)) at 2.
      rewrite (skip_to_end_card_reach contents k _ 0%nat) by (try lia; assumption).
      reflexivity.
    + unfold fits_read_file_fits_header_only_. cbv zeta.
      change (fopen contents) with (mkFILE contents (80 * Z.of_nat 0)) at 2.
      rewrite Hr. reflexivity.
Qed.


Lemma find_card_none (l : cbuf) (h : header) :
  (forall c, In c h -> strncmp l c 8 <> 0) -> fits_find_card_ l h = nHead h.
Proof.
  intros H. rewrite fits_find_card_scan.
  pose proof (scan_cards_skip l h [] 0 H) as E. rewrite app_nil_r in E.
  rewrite E. reflexivity.
Qed.

Lemma fits_add_card_no_END (pCard : cbuf) (h : header) :
  (forall c, In c h -> strncmp Card_end c 8 <> 0) ->
  fits_add_card_ pCard h = (h ++ [fits_string_to_card_ pCard], nHead h).
Proof.
  intros H. unfold fits_add_card_. cbv zeta. rewrite find_card_none by exact H.
  rewrite Z.ltb_irrefl, andb_false_r. reflexivity.
Qed.

Lemma keep_cards_normal (todo : header) :
  forall hacc : header,
    (forall c, In c hacc -> strncmp Card_end c 8 <> 0) ->
    Forall (fun c => fits_string_to_card_ c = c /\ strncmp Card_end c 8 <> 0) todo ->
    fold_left keep_card todo hacc
    = hacc ++ List.filter (fun c => negb (strncmp c Card_empty 80 =? 0)) todo.
Proof.
  induction todo as [|c todo IH]; intros hacc Hacc Htodo.
  - cbn [fold_left List.filter]. rewrite app_nil_r. reflexivity.
  - inversion Htodo as [|? ? [Hn He] Ht]; subst.
    cbn [fold_left List.filter]. unfold keep_card at 2.
    destruct (strncmp c Card_empty 80 =? 0); cbn [negb].
    + apply IH; assumption.
    + rewrite fits_add_card_no_END by exact Hacc. cbn [fst]. rewrite Hn.
      rewrite IH; [rewrite <- app_assoc; reflexivity| |exact Ht].
      intros x Hx. apply in_app_or in Hx. destruct Hx as [Hx|[<-|[]]];
        [apply Hacc; exact Hx|exact He].
Qed.

(** A card in normal form that compares equal to the blank card has a
    blank label. *)
Lemma empty_card_blank (c : card) :
  fits_string_to_card_ c = c -> strncmp c Card_empty 80 = 0 -> blank_label c = true.
Proof.
  intros Hn He.
  destruct (string_to_card_normal c) as (Hlen & Hclean & _). rewrite Hn in Hlen, Hclean.
  assert (E : take 80 Card_empty = take 80 c).
  { apply strncmp_zero_prefix; [apply clean_text_no_nul; exact Hclean|lia|exact He]. }
  rewrite (take_ge c) in E by lia. rewrite <- E. reflexivity.
Qed.

Lemma filter_blank_after_empty (l : header) :
  Forall (fun c => fits_string_to_card_ c = c /\ strncmp Card_end c 8 <> 0) l ->
  List.filter (fun c => negb (blank_label c))
    (List.filter (fun c => negb (strncmp c Card_empty 80 =? 0)) l)
  = List.filter (fun c => negb (blank_label c)) l.
Proof.
  induction 1 as [|c l [Hn _] Hl IH]; [reflexivity|].
  cbn [List.filter].
  destruct (Z.eqb_spec (strncmp c Card_empty 80) 0) as [E|E]; cbn [negb].
  - rewrite (empty_card_blank c Hn E). cbn [negb]. exact IH.
  - cbn [List.filter]. rewrite IH. reflexivity.
Qed.

Lemma read_cards_from_start (todo : header) (e rest : cbuf) (fuel : nat) :
  wf_header todo -> (forall c, In c todo -> strncmp Card_end c 8 <> 0) ->
  length e = 80%nat -> strncmp Card_end e 8 = 0 ->
  (length todo < fuel)%nat ->
  read_cards fuel (fopen (concat todo ++ e ++ rest)) []
  = Some (mkFILE (concat todo ++ e ++ rest) (80 * nHead todo + 80),
          fold_left keep_card todo []).
Proof.
  intros Hwf Hno He Hend Hfuel.
  exact (read_cards_run todo [] e rest [] fuel Hwf Hno He Hend Hfuel).
Qed.

(** The size of the file that [fits_write_fits_header_] makes. *)
Lemma fits_write_fits_header_size (h : header) :
  wf_header h ->
  exists pad : nat,
    fits_write_fits_header_ h fopen_write
    = mkFILE (concat h ++ repeat BLANK (80 * pad)) (block_end (80 * nHead h)) /\
    block_end (80 * nHead h) = 80 * (nHead h + Z.of_nat pad).
Proof.
  intros Hwf. destruct (fits_write_fits_header_file h Hwf) as (pad & Hpad & Hmod & Hw).
  exists pad. rewrite Hw.
  assert (E : block_end (80 * nHead h) = 80 * (nHead h + Z.of_nat pad)); [|now rewrite E].
  assert (Hn : 0 <= nHead h) by (unfold nHead; lia).
  destruct (block_end_cards (nHead h) Hn) as (_ & ->).
  assert (Hz : (nHead h + Z.of_nat pad) mod 36 = 0).
  { unfold nHead. rewrite <- Nat2Z.inj_add.
    change 36 with (Z.of_nat 36). rewrite <- Nat2Z.inj_mod, Hmod. reflexivity. }
  assert (Hp : 0 <= Z.of_nat pad < 36) by lia.
  clear - Hz Hp Hn.
  destruct (Z.eqb_spec (nHead h mod 36) 0) as [E|E];
    Z.div_mod_to_equations; lia.
Qed.


(** X19.  A header written by [fits_write_fits_header_] to a new file is
    read back by [fits_read_fits_header_]: for cards in normal form none
    of which is labelled END, followed by the END card, the file written
    is a whole number of 2880-byte blocks, the smallest that holds the
    cards; the reader consumes the whole file and returns the cards
    whose label is not blank, in their order, with the required cards
    added.  A header without blank labels that has its required cards is
    read back as it was written. *)
Theorem fits_write_then_read_header (init : header) :
  Forall (fun c => fits_string_to_card_ c = c /\ strncmp Card_end c 8 <> 0) init ->
  let h := init ++ [Card_end] in
  let f := fits_write_fits_header_ h fopen_write in
  let kept := List.filter (fun c => negb (blank_label c)) h in
  f_pos f = Z.of_nat (length (f_data f)) /\
  Z.of_nat (length (f_data f)) = block_end (80 * nHead h) /\
  fits_read_fits_header_ (fopen (f_data f))
  = Some (mkFILE (f_data f) (f_pos f), fits_add_required_cards_ kept) /\
  fits_read_file_fits_header_only_ (f_data f) = Some (fits_add_required_cards_ kept) /\
  (kept = h -> fits_add_required_cards_ h = h ->
   fits_read_file_fits_header_only_ (f_data f) = Some h).
Proof.
  intros Hinit h f kept.
  assert (Hwfi : wf_header init).
  { eapply Forall_impl; [exact Hinit|]. intros c [Hn _].
    destruct (string_to_card_normal c) as (Hlen & _). rewrite Hn in Hlen. exact Hlen. }
  assert (Hnoi : forall c, In c init -> strncmp Card_end c 8 <> 0).
  { intros c Hc. rewrite Forall_forall in Hinit.
    apply (Hinit c). apply list_elem_of_In. exact Hc. }
  assert (Hwf : wf_header h).
  { apply Forall_app. split; [exact Hwfi|]. constructor; [reflexivity|constructor]. }
  destruct (fits_write_fits_header_size h Hwf) as (pad & Hw & Hb).
  fold f in Hw.
  set (rest := repeat BLANK (80 * pad)) in *.
  assert (Hdata : f_data f = concat init ++ Card_end ++ rest).
  { rewrite Hw. cbn [f_data]. unfold h. rewrite concat_app. cbn [concat].
    rewrite app_nil_r, <- app_assoc. reflexivity. }
  assert (Hpos : f_pos f = block_end (80 * nHead h)) by (rewrite Hw; reflexivity).
  assert (Hnh : nHead h = nHead init + 1) by (unfold h; rewrite nHead_app; reflexivity).
  assert (Hlen : Z.of_nat (length (f_data f)) = block_end (80 * nHead h)).
  { rewrite Hb, Hw. cbn [f_data]. rewrite length_app, length_concat_80 by exact Hwf.
    unfold rest. rewrite repeat_length. unfold nHead. lia. }
  assert (Hread : read_cards (cards_in (fopen (f_data f))) (fopen (f_data f)) []
                  = Some (mkFILE (f_data f) (80 * nHead init + 80),
                          List.filter (fun c => negb (strncmp c Card_empty 80 =? 0)) init)).
  { rewrite Hdata.
    rewrite read_cards_from_start; try assumption; try reflexivity.
    - rewrite keep_cards_normal by (try exact Hinit; intros c []). reflexivity.
    - rewrite <- (Nat.sub_0_r (length init)).
      apply (cards_in_fuel (concat init ++ Card_end ++ rest) (length init)).
      rewrite !length_app, length_concat_80 by exact Hwfi.
      change (length Card_end) with 80%nat. lia. }
  assert (Hkept : List.filter (fun c => negb (blank_label c))
                    (fst (fits_add_card_ Card_end
                         (List.filter (fun c => negb (strncmp c Card_empty 80 =? 0)) init)))
                  = kept).
  { rewrite fits_add_card_no_END.
    - cbn [fst]. unfold kept, h. rewrite !List.filter_app.
      rewrite filter_blank_after_empty by exact Hinit. reflexivity.
    - intros c Hc. apply List.filter_In in Hc. apply Hnoi. exact (proj1 Hc). }
  assert (Hstop : (let f1 := mkFILE (f_data f) (80 * nHead init + 80) in
                   if (ftell f1 mod 2880) / 80 =? 0 then f1
                   else skip_cards (Z.to_nat (36 - (ftell f1 mod 2880) / 80)) f1)
                  = mkFILE (f_data f) (f_pos f)).
  { pose proof (skip_rest_of_block (f_data f) (length init)) as Hs. cbv zeta in Hs.
    fold (nHead init) in Hs.
    pose proof (block_end_le (80 * nHead h)) as Hle.
    replace (Z.min (Z.of_nat (length (f_data f))) (80 * nHead init + 80))
      with (80 * nHead init + 80) in Hs by lia.
    cbv zeta. rewrite Hs. f_equal. rewrite Hpos, Hlen, Hnh. lia. }
  assert (Hall : fits_read_fits_header_ (fopen (f_data f))
                 = Some (mkFILE (f_data f) (f_pos f), fits_add_required_cards_ kept)).
  { unfold fits_read_fits_header_. rewrite Hread. cbv zeta in Hstop |- *.
    rewrite Hstop.
    rewrite (proj1 (purge_blank_cards_spec _ _ 0 (Nat.lt_succ_diag_r _))).
    rewrite Hkept. reflexivity. }
  assert (Honly : fits_read_file_fits_header_only_ (f_data f)
                  = Some (fits_add_required_cards_ kept)).
  { unfold fits_read_file_fits_header_only_. cbv zeta. rewrite Hread.
    rewrite (proj1 (purge_blank_cards_spec _ _ 0 (Nat.lt_succ_diag_r _))).
    rewrite Hkept. reflexivity. }
  split; [lia|]. split; [exact Hlen|]. split; [exact Hall|]. split; [exact Honly|].
  intros Hk Hr. rewrite Honly, Hk, Hr. reflexivity.
Qed.


(** ** The required cards *)


Lemma itoa_small (k : Z) :
  1 <= k <= 999 ->
  itoa k = utoa k /\ all_digits (utoa k) /\ (1 <= length (utoa k) <= 3)%nat /\
  dval 0 (utoa k) = k.
Proof.
  intros Hk. destruct (utoa_spec k ltac:(lia)) as (Hd & Hl & Hv & Hb).
  split; [unfold itoa; destruct (Z.ltb_spec k 0); [lia|reflexivity]|].
  split; [exact Hd|]. split; [|rewrite Hv; lia].
  split; [lia|].
  destruct (le_lt_dec (length (utoa k)) 3) as [H|H]; [exact H|].
  exfalso. specialize (Hb ltac:(lia)).
  assert (10 ^ 3 <= 10 ^ (Z.of_nat (length (utoa k)) - 1))
    by (apply Z.pow_le_mono_r; lia).
  change (10 ^ 3) with 1000 in *. lia.
Qed.








Lemma END_label (c : cbuf) : strncmp Card_end c 8 = 0 <-> take 8 c = Label_end.
Proof.
  rewrite (strncmp_same_prefix Card_end Label_end c 8 eq_refl).
  apply strncmp_label; [reflexivity|].
  vm_compute. intros H. repeat (destruct H as [H|H]; [discriminate H|]). exact H.
Qed.

Lemma first_match_app (l : cbuf) (a b : header) :
  first_match l (a ++ b)
  = match first_match l a with Some c => Some c | None => first_match l b end.
Proof.
  unfold first_match. induction a as [|c a IH]; [reflexivity|].
  cbn [app find]. destruct (strncmp l c 8 =? 0); [reflexivity|exact IH].
Qed.

(** A card put before the END card hides no card and shows under its own
    label only. *)
Lemma first_match_before_END (l : cbuf) (init : header) (new : card) :
  plain_label l -> strncmp Card_end new 8 <> 0 ->
  (forall c, first_match l (init ++ [Card_end]) = Some c ->
             first_match l (init ++ [new; Card_end]) = Some c) /\
  (take 8 new <> l -> first_match l (init ++ [Card_end]) = None ->
   first_match l (init ++ [new; Card_end]) = None).
Proof.
  intros [Hl Hnul] Hnew. rewrite !first_match_app.
  destruct (first_match l init) as [c0|]; [split; [auto|discriminate]|].
  unfold first_match. cbn [find].
  destruct (Z.eqb_spec (strncmp l Card_end 8) 0) as [E|E].
  - split; [|discriminate]. intros c Hc.
    apply (strncmp_label l Card_end Hl Hnul) in E.
    destruct (Z.eqb_spec (strncmp l new 8) 0) as [E'|_]; [|exact Hc].
    apply (strncmp_label l new Hl Hnul) in E'.
    exfalso. apply Hnew. apply END_label. rewrite E', <- E. reflexivity.
  - split; [discriminate|]. intros Hne _.
    destruct (Z.eqb_spec (strncmp l new 8) 0) as [E'|_]; [|reflexivity].
    apply (strncmp_label l new Hl Hnul) in E'. contradiction.
Qed.







Lemma ival_first_match (l : cbuf) (h h' : header) :
  first_match l h' = first_match l h ->
  fits_get_card_ival_ l h' = fits_get_card_ival_ l h /\
  fits_get_card_rval_ l h' = fits_get_card_rval_ l h.
Proof.
  intros E. destruct (accessors_first_match l h) as (-> & ->).
  destruct (accessors_first_match l h') as (-> & ->). rewrite E. split; reflexivity.
Qed.









(** ** The axes *)

(** The label ["NAXIS%d  "] that [fits_compute_axes_] looks for selects
    the cards of the label ["NAXIS%-3d"]. *)
Lemma compute_axes_label (k : Z) (h : header) :
  1 <= k <= 999 ->
  fits_get_card_ival_ (lit "NAXIS" ++ itoa k ++ lit "  ") h
  = fits_get_card_ival_ (axis_label k) h.
Proof.
  intros Hk. unfold fits_get_card_ival_.
  rewrite (scan_cards_ext (lit "NAXIS" ++ itoa k ++ lit "  ") (axis_label k) h 0);
    [reflexivity|].
  destruct (itoa_small k Hk) as (Hi & _ & Hl & _).
  unfold axis_label, pad_right. rewrite Hi.
  destruct (utoa k) as [|a [|b [|c [|d ds]]]]; cbn [length] in Hl; try lia; reflexivity.
Qed.

Lemma axes_loop_spec (h : header) (n : nat) :
  forall (iAxis ival : Z),
    0 <= iAxis -> iAxis + Z.of_nat n <= 999 ->
    length (axes_loop h n iAxis ival) = n /\
    forall j, (j < n)%nat ->
      nth j (axes_loop h n iAxis ival) 0
      = stored_int (fits_get_card_ival_ (axis_label (iAxis + Z.of_nat j + 1)) h)
          (match j with
           | O => ival
           | S j' => nth j' (axes_loop h n iAxis ival) 0
           end).
Proof.
  induction n as [|n IH]; intros iAxis ival H0 Hmax; [split; [reflexivity|lia]|].
  cbn [axes_loop]. rewrite compute_axes_label by lia.
  set (ival' := stored_int (fits_get_card_ival_ (axis_label (iAxis + 1)) h) ival).
  destruct (IH (iAxis + 1) ival' ltac:(lia) ltac:(lia)) as (Hlen & Hnth).
  split; [cbn [length]; now rewrite Hlen|].
  intros [|j] Hj.
  - cbn [nth]. unfold ival'. do 3 f_equal. lia.
  - cbn [nth]. rewrite Hnth by lia.
    replace (iAxis + 1 + Z.of_nat j + 1) with (iAxis + Z.of_nat (S j) + 1) by lia.
    f_equal; destruct j; reflexivity.
Qed.

Lemma ndata_fold (l : list Z) :
  forall (pre : list Z) (a : Z),
    fold_left (fun nData iAxis => nData * zat (pre ++ l) iAxis)
      (seq (length pre) (length l)) a
    = fold_left Z.mul l a.
Proof.
  induction l as [|x l IH]; intros pre a; [reflexivity|].
  cbn [length seq fold_left].
  assert (E : zat (pre ++ x :: l) (length pre) = x).
  { unfold zat. rewrite app_nth2 by lia. rewrite Nat.sub_diag. reflexivity. }
  rewrite E.
  specialize (IH (pre ++ [x]) (a * x)).
  rewrite length_app, <- app_assoc in IH. cbn [length app] in IH.
  rewrite Nat.add_1_r in IH. exact IH.
Qed.

(** X21.  The axes that [fits_compute_axes_] returns and the number of
    data points that [fits_compute_ndata_] makes of them, on a header
    whose NAXIS card reads [n], 9 at most: there are [n] axes; the length
    of the axis [k] is the value of the card NAXISk, and when that card
    is missing or holds no number it is the length of the axis before it
    (for the first axis, whatever the variable held).  The number of data
    points is the product of the lengths; it is 0 for NAXIS = 0 and 1,
    not 0, for a negative NAXIS. *)
Theorem fits_compute_ndata_product (h : header) (n : Z) :
  snd (fits_get_card_ival_ Label_naxis h) = Some n -> n <= 9 ->
  let pNaxis := snd (fits_compute_axes_ h) in
  fst (fits_compute_axes_ h) = n /\
  length pNaxis = Z.to_nat n /\
  (forall k, 1 <= k <= n ->
     zat pNaxis (Z.to_nat (k - 1))
     = match snd (fits_get_card_ival_ (axis_label k) h) with
       | Some v => v
       | None => if k =? 1 then indet_int "ival" else zat pNaxis (Z.to_nat (k - 2))
       end) /\
  fits_compute_ndata_ h = (if n =? 0 then 0 else product pNaxis) /\
  (n < 0 -> fits_compute_ndata_ h = 1).
Proof.
  intros Hn Hmax pNaxis.
  assert (Hax : fits_compute_axes_ h
                = (n, if 0 <? n then axes_loop h (Z.to_nat n) 0 (indet_int "ival") else [])).
  { unfold fits_compute_axes_, stored_int. rewrite Hn. reflexivity. }
  assert (Hlen : length pNaxis = Z.to_nat n /\
                 forall k, 1 <= k <= n ->
                   zat pNaxis (Z.to_nat (k - 1))
                   = stored_int (fits_get_card_ival_ (axis_label k) h)
                       (if k =? 1 then indet_int "ival"
                        else zat pNaxis (Z.to_nat (k - 2)))).
  { unfold pNaxis. rewrite Hax. cbn [snd].
    destruct (Z.ltb_spec 0 n) as [Hpos|Hneg].
    - destruct (axes_loop_spec h (Z.to_nat n) 0 (indet_int "ival") ltac:(lia) ltac:(lia))
        as (Hl & Hnth).
      split; [exact Hl|]. intros k Hk. unfold zat.
      rewrite (Hnth (Z.to_nat (k - 1))) by lia.
      replace (0 + Z.of_nat (Z.to_nat (k - 1)) + 1) with k by lia.
      f_equal. destruct (Z.eqb_spec k 1) as [->|Hne]; [reflexivity|].
      replace (Z.to_nat (k - 1)) with (S (Z.to_nat (k - 2))) by lia. reflexivity.
    - split; [cbn [length]; lia|]. intros k Hk. lia. }
  destruct Hlen as (Hlen & Hnth).
  assert (Hnd : fits_compute_ndata_ h = (if n =? 0 then 0 else product pNaxis)).
  { unfold fits_compute_ndata_, pNaxis. rewrite Hax. cbn [snd].
    destruct (Z.eqb_spec n 0) as [E|E]; [reflexivity|].
    unfold pNaxis in Hlen. rewrite Hax in Hlen. cbn [snd] in Hlen.
    set (l := if 0 <? n then axes_loop h (Z.to_nat n) 0 (indet_int "ival") else [])
      in *.
    rewrite <- Hlen. exact (ndata_fold l [] 1). }
  split; [rewrite Hax; reflexivity|]. split; [exact Hlen|]. split; [|split].
  - intros k Hk. rewrite (Hnth k Hk). unfold stored_int.
    destruct (snd (fits_get_card_ival_ (axis_label k) h)); reflexivity.
  - exact Hnd.
  - intros Hneg. rewrite Hnd. destruct (Z.eqb_spec n 0) as [E|_]; [lia|].
    unfold pNaxis. rewrite Hax. cbn [snd].
    destruct (Z.ltb_spec 0 n); [lia|reflexivity].
Qed.


(** ** Transposition *)

Lemma fold_left_flat_map {A B C : Type} (f : A -> B -> A) (g : C -> list B)
  (l : list C) (a : A) :
  fold_left f (flat_map g l) a = fold_left (fun a x => fold_left f (g x) a) l a.
Proof.
  revert a. induction l as [|x l IH]; intros a; [reflexivity|].
  cbn [flat_map fold_left]. rewrite fold_left_app. apply IH.
Qed.

Lemma fold_left_map {A B C : Type} (f : A -> B -> A) (g : C -> B) (l : list C) (a : A) :
  fold_left f (map g l) a = fold_left (fun a x => f a (g x)) l a.
Proof. revert a. induction l as [|x l IH]; intros a; [reflexivity|]. apply IH. Qed.

Lemma poke_length (b : cbuf) (i : nat) (c : uchar) : length (poke b i c) = length b.
Proof. unfold poke. apply length_insert. Qed.

Lemma at_poke (b : cbuf) (i j : nat) (c : uchar) :
  (i < length b)%nat ->
  at_ (poke b i c) j = if Nat.eq_dec j i then c else at_ b j.
Proof.
  revert i j. induction b as [|x b IH]; intros i j Hi; [simpl in Hi; lia|].
  destruct i as [|i]; destruct j as [|j]; try reflexivity.
  cbn [length] in Hi. unfold poke, at_ in *. cbn [insert list_insert nth].
  rewrite IH by lia.
  destruct (Nat.eq_dec j i), (Nat.eq_dec (S j) (S i)); try reflexivity; lia.
Qed.

(** Bytes copied from [old] to places of a buffer, one pair (place,
    source) at a time. *)
Lemma scatter_spec (old : cbuf) (pairs : list (nat * nat)) :
  forall new : cbuf,
    let out := fold_left (fun b p => poke b (fst p) (at_ old (snd p))) pairs new in
    length out = length new /\
    (forall d s, In (d, s) pairs -> (forall s', In (d, s') pairs -> s' = s) ->
                 (d < length new)%nat -> at_ out d = at_ old s) /\
    (forall d, (forall s, ~ In (d, s) pairs) -> at_ out d = at_ new d).
Proof.
  induction pairs as [|[d0 s0] pairs IH]; intros new; cbv zeta.
  - cbn [fold_left]. split; [reflexivity|]. split; [intros d s []|reflexivity].
  - cbn [fold_left fst snd].
    destruct (IH (poke new d0 (at_ old s0))) as (Hlen & Hset & Hkeep). cbv zeta in *.
    rewrite poke_length in Hlen, Hset.
    split; [exact Hlen|]. split.
    + intros d s Hin Hfun Hd.
      destruct (in_dec (fun a b : nat => Nat.eq_dec a b) d (map fst pairs)) as [Hd'|Hd'].
      * apply in_map_iff in Hd'. destruct Hd' as ([d1 s1] & E & Hin1).
        cbn [fst] in E. subst d1.
        assert (s1 = s) by (apply Hfun; right; exact Hin1). subst s1.
        apply Hset; [exact Hin1| |exact Hd].
        intros s' Hs'. apply Hfun. right. exact Hs'.
      * rewrite Hkeep.
        -- destruct Hin as [E|Hin].
           ++ injection E as -> ->. rewrite at_poke by exact Hd.
              destruct (Nat.eq_dec d d); [reflexivity|lia].
           ++ exfalso. apply Hd'. apply in_map_iff. exists (d, s). split; [reflexivity|exact Hin].
        -- intros s' Hs'. apply Hd'. apply in_map_iff. exists (d, s').
           split; [reflexivity|exact Hs'].
    + intros d Hno. rewrite Hkeep by (intros s Hs; apply (Hno s); right; exact Hs).
      destruct (Nat.lt_ge_cases d0 (length new)) as [Hlt|Hge].
      * rewrite at_poke by exact Hlt.
        destruct (Nat.eq_dec d d0) as [->|_]; [|reflexivity].
        exfalso. apply (Hno s0). left. reflexivity.
      * assert (E : poke new d0 (at_ old s0) = new)
          by (apply list_insert_ge; lia).
        rewrite E. reflexivity.
Qed.


Lemma fold_left_ext {A B : Type} (f g : A -> B -> A) (l : list B) (a : A) :
  (forall a x, f a x = g a x) -> fold_left f l a = fold_left g l a.
Proof.
  intros H. revert a. induction l as [|x l IH]; intros a; [reflexivity|].
  cbn [fold_left]. rewrite H. apply IH.
Qed.

Lemma In_upto (n x : Z) : In x (upto n) <-> 0 <= x < n.
Proof.
  unfold upto. rewrite in_map_iff. split.
  - intros (k & <- & Hk). apply in_seq in Hk. lia.
  - intros Hx. exists (Z.to_nat x). split; [lia|]. apply in_seq. lia.
Qed.

Lemma transpose_bytes_pairs (size n1 n2 : Z) (pData pNewData : cbuf) :
  transpose_bytes size n1 n2 pData pNewData
  = fold_left (fun b p => poke b (fst p) (at_ pData (snd p)))
      (transpose_pairs size n1 n2) pNewData.
Proof.
  unfold transpose_bytes, transpose_pairs.
  rewrite fold_left_flat_map. apply fold_left_ext. intros a iRow.
  rewrite fold_left_flat_map. apply fold_left_ext. intros a' iCol.
  rewrite fold_left_map. reflexivity.
Qed.

Lemma In_transpose_pairs (size n1 n2 : Z) (d s : nat) :
  In (d, s) (transpose_pairs size n1 n2) <->
  exists r c b, 0 <= r < n2 /\ 0 <= c < n1 /\ 0 <= b < size /\
                d = Z.to_nat (size * (c * n2 + r) + b) /\
                s = Z.to_nat (size * (r * n1 + c) + b).
Proof.
  unfold transpose_pairs. rewrite in_flat_map. split.
  - intros (r & Hr & H). apply in_flat_map in H. destruct H as (c & Hc & H).
    apply in_map_iff in H. destruct H as (b & E & Hb).
    apply In_upto in Hr, Hc, Hb. injection E as <- <-.
    exists r, c, b. repeat split; lia.
  - intros (r & c & b & Hr & Hc & Hb & -> & ->).
    exists r. split; [apply In_upto; exact Hr|].
    apply in_flat_map. exists c. split; [apply In_upto; exact Hc|].
    apply in_map_iff. exists b. split; [reflexivity|apply In_upto; exact Hb].
Qed.

(** A place of the new array is written from one place of the old. *)
Lemma transpose_place_unique (size n1 n2 r c b r' c' b' : Z) :
  0 <= r < n2 -> 0 <= c < n1 -> 0 <= b < size ->
  0 <= r' < n2 -> 0 <= c' < n1 -> 0 <= b' < size ->
  size * (c * n2 + r) + b = size * (c' * n2 + r') + b' ->
  r = r' /\ c = c' /\ b = b'.
Proof.
  clear. intros Hr Hc Hb Hr' Hc' Hb' E.
  assert (E1 : c * n2 + r = c' * n2 + r') by nia.
  assert (E2 : c = c') by nia.
  subst c'. split; [lia|]. split; [reflexivity|]. nia.
Qed.

Lemma transpose_bytes_spec (size n1 n2 : Z) (pData pNewData : cbuf) :
  0 < size -> 0 <= n1 -> 0 <= n2 ->
  length pNewData = Z.to_nat (size * (n1 * n2)) ->
  let out := transpose_bytes size n1 n2 pData pNewData in
  length out = Z.to_nat (size * (n1 * n2)) /\
  forall r c b, 0 <= r < n2 -> 0 <= c < n1 -> 0 <= b < size ->
    at_ out (Z.to_nat (size * (c * n2 + r) + b))
    = at_ pData (Z.to_nat (size * (r * n1 + c) + b)).
Proof.
  intros Hs H1 H2 Hlen out. unfold out. rewrite transpose_bytes_pairs.
  destruct (scatter_spec pData (transpose_pairs size n1 n2) pNewData)
    as (Hl & Hset & _). cbv zeta in Hl, Hset.
  split; [rewrite Hl; exact Hlen|].
  intros r c b Hr Hc Hb. apply Hset.
  - apply In_transpose_pairs. exists r, c, b. repeat split; lia.
  - intros s' Hs'. apply In_transpose_pairs in Hs'.
    destruct Hs' as (r' & c' & b' & Hr' & Hc' & Hb' & Ed & ->).
    assert (E : size * (c * n2 + r) + b = size * (c' * n2 + r') + b') by nia.
    destruct (transpose_place_unique size n1 n2 r c b r' c' b' Hr Hc Hb Hr' Hc' Hb' E)
      as (-> & -> & ->).
    reflexivity.
  - rewrite Hlen. clear - Hr Hc Hb Hs.
    assert (c * n2 + r + 1 <= n1 * n2) by nia.
    assert (0 <= c * n2 + r) by nia.
    assert (size * (c * n2 + r) + b < size * (n1 * n2)) by nia.
    assert (0 <= size * (c * n2 + r)) by nia.
    lia.
Qed.


Lemma at_element (size : nat) (l : cbuf) (iloc : Z) (i : nat) :
  (i < size)%nat -> at_ (element size l iloc) i = at_ l (size * Z.to_nat iloc + i).
Proof.
  intros Hi. unfold element, at_.
  rewrite nth_firstn. destruct (Nat.ltb_spec i size) as [_|H]; [|lia].
  apply nth_skipn.
Qed.

Lemma element_length (size : nat) (l : cbuf) (iloc : Z) :
  (size * (Z.to_nat iloc + 1) <= length l)%nat -> length (element size l iloc) = size.
Proof. intros H. unfold element. rewrite length_take, length_drop. lia. Qed.

Lemma element_ext (size : nat) (a b : cbuf) (ka kb : Z) :
  (size * (Z.to_nat ka + 1) <= length a)%nat ->
  (size * (Z.to_nat kb + 1) <= length b)%nat ->
  (forall i, (i < size)%nat ->
             at_ a (size * Z.to_nat ka + i) = at_ b (size * Z.to_nat kb + i)) ->
  element size a ka = element size b kb.
Proof.
  intros Ha Hb H. apply (nth_ext _ _ NUL NUL).
  - rewrite !element_length by assumption. reflexivity.
  - intros i Hi. rewrite element_length in Hi by exact Ha.
    fold (at_ (element size a ka) i). fold (at_ (element size b kb) i).
    rewrite !at_element by exact Hi. apply H. exact Hi.
Qed.

(** Two arrays of [N] elements with the same elements are equal. *)
Lemma elements_eq (size N : nat) (a b : cbuf) :
  (0 < size)%nat -> length a = (size * N)%nat -> length b = (size * N)%nat ->
  (forall k, (k < N)%nat -> element size a (Z.of_nat k) = element size b (Z.of_nat k)) ->
  a = b.
Proof.
  intros Hs Ha Hb H. apply (nth_ext _ _ NUL NUL); [congruence|].
  intros i Hi. rewrite Ha in Hi.
  assert (Hk : (i / size < N)%nat) by (apply Nat.Div0.div_lt_upper_bound; lia).
  pose proof (Nat.div_mod_eq i size) as Ei.
  pose proof (Nat.mod_upper_bound i size ltac:(lia)) as Hj.
  specialize (H (i / size)%nat Hk).
  apply (f_equal (fun e => at_ e (i mod size))) in H.
  rewrite !at_element, Nat2Z.id in H by exact Hj.
  rewrite <- Ei in H. exact H.
Qed.

Lemma transpose_elements (size n1 n2 : Z) (pData pNewData : cbuf) :
  0 < size -> 0 <= n1 -> 0 <= n2 ->
  length pNewData = Z.to_nat (size * (n1 * n2)) ->
  (Z.to_nat (size * (n1 * n2)) <= length pData)%nat ->
  forall r c, 0 <= r < n2 -> 0 <= c < n1 ->
    element (Z.to_nat size) (transpose_bytes size n1 n2 pData pNewData) (c * n2 + r)
    = element (Z.to_nat size) pData (r * n1 + c).
Proof.
  intros Hs H1 H2 Hlen Hold r c Hr Hc.
  destruct (transpose_bytes_spec size n1 n2 pData pNewData Hs H1 H2 Hlen) as (Hl & Hat).
  cbv zeta in Hl, Hat.
  assert (Hn : c * n2 + r + 1 <= n1 * n2) by (clear - Hr Hc; nia).
  assert (Ho : r * n1 + c + 1 <= n1 * n2) by (clear - Hr Hc; nia).
  assert (Hn0 : 0 <= c * n2 + r) by (clear - Hr Hc; nia).
  assert (Ho0 : 0 <= r * n1 + c) by (clear - Hr Hc; nia).
  assert (Hbn : size * (c * n2 + r + 1) <= size * (n1 * n2))
    by (apply Z.mul_le_mono_nonneg_l; lia).
  assert (Hbo : size * (r * n1 + c + 1) <= size * (n1 * n2))
    by (apply Z.mul_le_mono_nonneg_l; lia).
  assert (Hpn : 0 <= size * (c * n2 + r)) by (apply Z.mul_nonneg_nonneg; lia).
  assert (Hpo : 0 <= size * (r * n1 + c)) by (apply Z.mul_nonneg_nonneg; lia).
  assert (En : (Z.to_nat size * Z.to_nat (c * n2 + r))%nat = Z.to_nat (size * (c * n2 + r)))
    by (rewrite Z2Nat.inj_mul by lia; reflexivity).
  assert (Eo : (Z.to_nat size * Z.to_nat (r * n1 + c))%nat = Z.to_nat (size * (r * n1 + c)))
    by (rewrite Z2Nat.inj_mul by lia; reflexivity).
  apply element_ext.
  - rewrite Hl. rewrite Nat.mul_add_distr_l, En. lia.
  - rewrite Nat.mul_add_distr_l, Eo. lia.
  - intros i Hi. rewrite En, Eo.
    replace (Z.to_nat (size * (c * n2 + r)) + i)%nat
      with (Z.to_nat (size * (c * n2 + r) + Z.of_nat i)) by lia.
    replace (Z.to_nat (size * (r * n1 + c)) + i)%nat
      with (Z.to_nat (size * (r * n1 + c) + Z.of_nat i)) by lia.
    apply Hat; lia.
Qed.


Lemma blank_from_null_prefix (l rest : cbuf) (m : nat) :
  clean_text l ->
  blank_from_null (l ++ rest) (length l + m) false = l ++ blank_from_null rest m false.
Proof.
  induction 1 as [|c l [Hc1 Hc2] Hl IH]; [reflexivity|].
  cbn [app length Nat.add blank_from_null at_ nth tl]. rewrite Hc1, Hc2. cbn [orb].
  rewrite IH. reflexivity.
Qed.

(** The label of a card made of a label and anything after it. *)
Lemma written_label_any (l rest : cbuf) :
  length l = 8%nat -> clean_text l -> map toupper l = l ->
  take 8 (fits_string_to_card_ (l ++ rest)) = l.
Proof.
  intros Hl Hc Hu. unfold fits_string_to_card_.
  pose proof (blank_from_null_prefix l rest 72 Hc) as E. rewrite Hl in E.
  change (8 + 72)%nat with 80%nat in E. rewrite E.
  assert (Et : take 8 (l ++ blank_from_null rest 72 false) = l)
    by (apply take_app_length'; symmetry; exact Hl).
  rewrite Et, Hu. apply take_app_length'. symmetry; exact Hl.
Qed.

Lemma split_before_END (pre rest init : header) (c : card) :
  pre ++ c :: rest = init ++ [Card_end] -> c <> Card_end ->
  exists rest', rest = rest' ++ [Card_end] /\ init = pre ++ c :: rest'.
Proof.
  intros E Hc. destruct (exists_last (l := rest)) as (rest' & x & ->).
  - intros ->. apply (app_inj_tail pre init c Card_end) in E. destruct E as [_ E].
    contradiction.
  - exists rest'.
    assert (E' : (pre ++ c :: rest') ++ [x] = init ++ [Card_end])
      by (rewrite <- app_assoc; exact E).
    apply app_inj_tail in E'. destruct E' as [E1 E2]. subst x. split; [reflexivity|].
    symmetry. exact E1.
Qed.

(** [fits_change_card_] on a header that ends with its only END card
    touches the cards of one label. *)
Lemma change_card_frame (L pCard : cbuf) (h : header) :
  plain_label L -> strncmp Card_end L 8 <> 0 ->
  take 8 (fits_string_to_card_ pCard) = L -> ends_with_END h ->
  let h' := fst (fits_change_card_ pCard h) in
  ends_with_END h' /\
  forall l, plain_label l -> l <> L -> first_match l h' = first_match l h.
Proof.
  intros [HlL HnL] Hne Hlab (init & -> & Hinit). cbv zeta.
  set (new := fits_string_to_card_ pCard) in *.
  assert (Hnew : strncmp Card_end new 8 <> 0).
  { intros E. apply END_label in E. apply Hne. apply END_label.
    rewrite <- E, Hlab. apply take_ge. lia. }
  destruct (fits_change_card_cases L pCard (init ++ [Card_end])) as (Hadd & Hrep).
  { fold new. rewrite Hlab. symmetry. apply take_ge. lia. }
  destruct (first_match L (init ++ [Card_end])) as [c0|] eqn:Hfm.
  - pose proof (found_of_first_match _ _ _ Hfm) as Hlt. rewrite fits_find_card_scan in Hlt.
    destruct (scan_cards_split L _ Hlt) as (pre & c & rest & E & _ & Hpre & Hc).
    rewrite (Hrep pre c rest E Hpre Hc). cbn [fst]. fold new.
    assert (HcE : c <> Card_end).
    { intros ->. apply (strncmp_label L Card_end HlL HnL) in Hc.
      apply Hne. apply END_label. rewrite <- Hc. reflexivity. }
    destruct (split_before_END pre rest init c (eq_sym E) HcE) as (rest' & -> & ->).
    split.
    + exists (pre ++ new :: rest'). split; [rewrite <- app_assoc; reflexivity|].
      intros x Hx. apply in_app_or in Hx. destruct Hx as [Hx|[<-|Hx]].
      * apply Hinit. apply in_or_app. left. exact Hx.
      * exact Hnew.
      * apply Hinit. apply in_or_app. right. right. exact Hx.
    + intros l [Hl Hn] Hdiff. rewrite E. apply first_match_replace.
      * intros El. apply (strncmp_label l c Hl Hn) in El.
        apply (strncmp_label L c HlL HnL) in Hc. congruence.
      * intros El. apply (strncmp_label l new Hl Hn) in El. congruence.
  - rewrite Hadd by (rewrite fits_find_card_scan; apply first_match_none; exact Hfm).
    rewrite fits_add_card_before_END by exact Hinit. cbn [fst]. fold new.
    split.
    + exists (init ++ [new]). split; [rewrite <- app_assoc; reflexivity|].
      intros x Hx. apply in_app_or in Hx. destruct Hx as [Hx|[<-|[]]];
        [apply Hinit; exact Hx|exact Hnew].
    + intros l Hp Hdiff.
      destruct (first_match_before_END l init new Hp Hnew) as (Hsome & Hnone).
      destruct (first_match l (init ++ [Card_end])) as [c|] eqn:El.
      * apply Hsome. reflexivity.
      * apply Hnone; [rewrite Hlab; congruence|reflexivity].
Qed.

(** The two [fits_change_card_*] calls of a swap of two labels. *)
Lemma swap_changes_frame (L1 L2 v1 v2 : cbuf) (h : header) :
  length L1 = 8%nat -> clean_text L1 -> map toupper L1 = L1 -> strncmp Card_end L1 8 <> 0 ->
  length L2 = 8%nat -> clean_text L2 -> map toupper L2 = L2 -> strncmp Card_end L2 8 <> 0 ->
  ends_with_END h ->
  let h1 := fst (fits_change_card_ (fmt_label L1 ++ v1) h) in
  let h' := fst (fits_change_card_ (fmt_label L2 ++ v2) h1) in
  ends_with_END h' /\
  forall l, plain_label l -> l <> L1 -> l <> L2 -> first_match l h' = first_match l h.
Proof.
  intros Hl1 Hc1 Hu1 He1 Hl2 Hc2 Hu2 He2 Hend. cbv zeta.
  assert (Hp1 : plain_label L1) by (split; [exact Hl1|apply clean_text_no_nul; exact Hc1]).
  assert (Hp2 : plain_label L2) by (split; [exact Hl2|apply clean_text_no_nul; exact Hc2]).
  destruct (change_card_frame L1 (fmt_label L1 ++ v1) h Hp1 He1) as (Hend1 & Hfr1);
    [rewrite fmt_label_id by assumption; apply written_label_any; assumption|exact Hend|].
  cbv zeta in Hend1, Hfr1.
  destruct (change_card_frame L2 (fmt_label L2 ++ v2) _ Hp2 He2
              ltac:(rewrite fmt_label_id by assumption; apply written_label_any; assumption)
              Hend1) as (Hend2 & Hfr2).
  cbv zeta in Hend2, Hfr2.
  split; [exact Hend2|]. intros l Hp Hd1 Hd2. rewrite Hfr2, Hfr1 by assumption.
  reflexivity.
Qed.


Lemma itoa_length_int (v : Z) : 0 <= v < 2 ^ 63 -> (length (itoa v) <= 20)%nat.
Proof.
  intros Hv. unfold itoa. destruct (Z.ltb_spec v 0) as [H|_]; [lia|].
  destruct (utoa_spec v ltac:(lia)) as (_ & _ & _ & Hb).
  destruct (Z.eq_dec v 0) as [->|Hne]; [vm_compute; lia|].
  specialize (Hb ltac:(lia)).
  destruct (le_lt_dec (length (utoa v)) 20) as [H|H]; [exact H|].
  exfalso.
  assert (10 ^ 20 <= 10 ^ (Z.of_nat (length (utoa v)) - 1))
    by (apply Z.pow_le_mono_r; lia).
  assert (2 ^ 63 < 10 ^ 20) by (vm_compute; reflexivity).
  lia.
Qed.

Lemma compute_axes_2 (h : header) (n1 n2 : Z) :
  snd (fits_get_card_ival_ Label_naxis h) = Some 2 ->
  snd (fits_get_card_ival_ Label_naxis1 h) = Some n1 ->
  snd (fits_get_card_ival_ Label_naxis2 h) = Some n2 ->
  fits_compute_axes_ h = (2, [n1; n2]) /\ fits_compute_ndata_ h = n1 * n2.
Proof.
  intros H0 H1 H2.
  assert (E : fits_compute_axes_ h = (2, [n1; n2])).
  { unfold fits_compute_axes_, stored_int. rewrite H0.
    change (0 <? 2) with true. cbv iota. change (Z.to_nat 2) with 2%nat.
    cbn [axes_loop].
    change (lit "NAXIS" ++ itoa (0 + 1) ++ lit "  ") with Label_naxis1.
    change (lit "NAXIS" ++ itoa (0 + 1 + 1) ++ lit "  ") with Label_naxis2.
    unfold stored_int. rewrite H1, H2. reflexivity. }
  split; [exact E|]. unfold fits_compute_ndata_. rewrite E.
  change (2 =? 0) with false. cbv iota. change (Z.to_nat 2) with 2%nat.
  cbn [seq fold_left zat nth]. lia.
Qed.

Lemma swap_cards_rval_frame (L1 L2 : cbuf) (h : header) :
  length L1 = 8%nat -> clean_text L1 -> map toupper L1 = L1 -> strncmp Card_end L1 8 <> 0 ->
  length L2 = 8%nat -> clean_text L2 -> map toupper L2 = L2 -> strncmp Card_end L2 8 <> 0 ->
  ends_with_END h ->
  let h' := fits_swap_cards_rval_ L1 L2 h in
  ends_with_END h' /\
  forall l, plain_label l -> l <> L1 -> l <> L2 -> first_match l h' = first_match l h.
Proof.
  intros. unfold fits_swap_cards_rval_, fits_change_card_rval_. cbv zeta.
  apply swap_changes_frame; assumption.
Qed.

Lemma swap_cards_ival_frame (L1 L2 : cbuf) (h : header) :
  length L1 = 8%nat -> clean_text L1 -> map toupper L1 = L1 -> strncmp Card_end L1 8 <> 0 ->
  length L2 = 8%nat -> clean_text L2 -> map toupper L2 = L2 -> strncmp Card_end L2 8 <> 0 ->
  ends_with_END h ->
  let h' := fits_swap_cards_ival_ L1 L2 h in
  ends_with_END h' /\
  forall l, plain_label l -> l <> L1 -> l <> L2 -> first_match l h' = first_match l h.
Proof.
  intros. unfold fits_swap_cards_ival_, fits_change_card_ival_. cbv zeta.
  apply swap_changes_frame; assumption.
Qed.


(** The header after the four swaps of [fits_transpose_data_]. *)
Lemma transpose_header (h : header) (bitpix n1 n2 : Z) :
  ends_with_END h ->
  snd (fits_get_card_ival_ Label_naxis h) = Some 2 ->
  snd (fits_get_card_ival_ Label_naxis1 h) = Some n1 ->
  snd (fits_get_card_ival_ Label_naxis2 h) = Some n2 ->
  snd (fits_get_card_ival_ Label_bitpix h) = Some bitpix ->
  0 <= n1 < 2 ^ 31 -> 0 <= n2 < 2 ^ 31 ->
  let h4 :=
    fits_swap_cards_rval_ Label_cdelt1 Label_cdelt2
      (fits_swap_cards_rval_ Label_crval1 Label_crval2
         (fits_swap_cards_rval_ Label_crpix1 Label_crpix2
            (fits_swap_cards_ival_ Label_naxis1 Label_naxis2 h))) in
  ends_with_END h4 /\
  snd (fits_get_card_ival_ Label_naxis h4) = Some 2 /\
  snd (fits_get_card_ival_ Label_naxis1 h4) = Some n2 /\
  snd (fits_get_card_ival_ Label_naxis2 h4) = Some n1 /\
  snd (fits_get_card_ival_ Label_bitpix h4) = Some bitpix.
Proof.
  intros Hend H0 H1 H2 Hb Hn1 Hn2. cbv zeta.
  assert (Hclean : forall s, length (lit s) = 8%nat ->
                             forallb (fun c => negb (Ascii.eqb c NUL) && negb (Ascii.eqb c NEWLINE))
                               (lit s) = true -> clean_text (lit s)).
  { intros s _ Hs. apply Forall_forall. intros c Hc.
    rewrite forallb_forall in Hs. specialize (Hs c (proj1 (list_elem_of_In _ _) Hc)).
    apply andb_true_iff in Hs. destruct Hs as [Ha Hb'].
    split; [destruct (Ascii.eqb c NUL)|destruct (Ascii.eqb c NEWLINE)];
      try reflexivity; discriminate. }
  assert (Hplain : forall s, length (lit s) = 8%nat ->
                             forallb (fun c => negb (Ascii.eqb c NUL) && negb (Ascii.eqb c NEWLINE))
                               (lit s) = true -> plain_label (lit s)).
  { intros s Hl Hs. split; [exact Hl|]. apply clean_text_no_nul. apply Hclean; assumption. }
  assert (L1 : 2 ^ 31 < 2 ^ 63) by (vm_compute; reflexivity).
  set (h1 := fits_swap_cards_ival_ Label_naxis1 Label_naxis2 h).
  destruct (swap_cards_ival_spec Label_naxis1 Label_naxis2 h n1 n2
              eq_refl (Hclean "NAXIS1  "%string eq_refl eq_refl) eq_refl
              eq_refl (Hclean "NAXIS2  "%string eq_refl eq_refl) eq_refl
              ltac:(discriminate) H1 H2
              (itoa_length_int n1 ltac:(lia)) (itoa_length_int n2 ltac:(lia)))
    as (Hg1 & Hg2 & _ & Hfr). cbv zeta in Hg1, Hg2, Hfr. fold h1 in Hg1, Hg2, Hfr.
  destruct (swap_cards_ival_frame Label_naxis1 Label_naxis2 h
              eq_refl (Hclean "NAXIS1  "%string eq_refl eq_refl) eq_refl ltac:(vm_compute; discriminate)
              eq_refl (Hclean "NAXIS2  "%string eq_refl eq_refl) eq_refl ltac:(vm_compute; discriminate)
              Hend) as (Hend1 & _). cbv zeta in Hend1. fold h1 in Hend1.
  set (h2 := fits_swap_cards_rval_ Label_crpix1 Label_crpix2 h1).
  destruct (swap_cards_rval_frame Label_crpix1 Label_crpix2 h1
              eq_refl (Hclean "CRPIX1  "%string eq_refl eq_refl) eq_refl ltac:(vm_compute; discriminate)
              eq_refl (Hclean "CRPIX2  "%string eq_refl eq_refl) eq_refl ltac:(vm_compute; discriminate)
              Hend1) as (Hend2 & Hfr2). cbv zeta in Hend2, Hfr2. fold h2 in Hend2, Hfr2.
  set (h3 := fits_swap_cards_rval_ Label_crval1 Label_crval2 h2).
  destruct (swap_cards_rval_frame Label_crval1 Label_crval2 h2
              eq_refl (Hclean "CRVAL1  "%string eq_refl eq_refl) eq_refl ltac:(vm_compute; discriminate)
              eq_refl (Hclean "CRVAL2  "%string eq_refl eq_refl) eq_refl ltac:(vm_compute; discriminate)
              Hend2) as (Hend3 & Hfr3). cbv zeta in Hend3, Hfr3. fold h3 in Hend3, Hfr3.
  set (h4 := fits_swap_cards_rval_ Label_cdelt1 Label_cdelt2 h3).
  destruct (swap_cards_rval_frame Label_cdelt1 Label_cdelt2 h3
              eq_refl (Hclean "CDELT1  "%string eq_refl eq_refl) eq_refl ltac:(vm_compute; discriminate)
              eq_refl (Hclean "CDELT2  "%string eq_refl eq_refl) eq_refl ltac:(vm_compute; discriminate)
              Hend3) as (Hend4 & Hfr4). cbv zeta in Hend4, Hfr4. fold h4 in Hend4, Hfr4.
  assert (Hkeep : forall s, length (lit s) = 8%nat ->
                    forallb (fun c => negb (Ascii.eqb c NUL) && negb (Ascii.eqb c NEWLINE))
                      (lit s) = true ->
                    lit s <> Label_crpix1 -> lit s <> Label_crpix2 ->
                    lit s <> Label_crval1 -> lit s <> Label_crval2 ->
                    lit s <> Label_cdelt1 -> lit s <> Label_cdelt2 ->
                    fits_get_card_ival_ (lit s) h4 = fits_get_card_ival_ (lit s) h1).
  { intros s Hl Hs D1 D2 D3 D4 D5 D6. pose proof (Hplain s Hl Hs) as Hp.
    apply ival_first_match.
    rewrite Hfr4, Hfr3, Hfr2 by assumption. reflexivity. }
  split; [exact Hend4|].
  split; [|split; [|split]].
  - change Label_naxis with (lit "NAXIS   ").
    rewrite Hkeep by (try reflexivity; discriminate).
    destruct (Hfr (lit "NAXIS   ") eq_refl (proj2 (Hplain "NAXIS   "%string eq_refl eq_refl))
                ltac:(discriminate) ltac:(discriminate)) as (-> & _).
    exact H0.
  - change Label_naxis1 with (lit "NAXIS1  ").
    rewrite Hkeep by (try reflexivity; discriminate).
    change (lit "NAXIS1  ") with Label_naxis1. rewrite Hg1. reflexivity.
  - change Label_naxis2 with (lit "NAXIS2  ").
    rewrite Hkeep by (try reflexivity; discriminate).
    change (lit "NAXIS2  ") with Label_naxis2. rewrite Hg2. reflexivity.
  - change Label_bitpix with (lit "BITPIX  ").
    rewrite Hkeep by (try reflexivity; discriminate).
    destruct (Hfr (lit "BITPIX  ") eq_refl (proj2 (Hplain "BITPIX  "%string eq_refl eq_refl))
                ltac:(discriminate) ltac:(discriminate)) as (-> & _).
    exact Hb.
Qed.


Lemma fits_transpose_data_unfold (h : header) (pData : cbuf) (bitpix n1 n2 : Z) :
  snd (fits_get_card_ival_ Label_naxis h) = Some 2 ->
  snd (fits_get_card_ival_ Label_naxis1 h) = Some n1 ->
  snd (fits_get_card_ival_ Label_naxis2 h) = Some n2 ->
  snd (fits_get_card_ival_ Label_bitpix h) = Some bitpix ->
  fits_transpose_data_ h pData
  = (fits_swap_cards_rval_ Label_cdelt1 Label_cdelt2
       (fits_swap_cards_rval_ Label_crval1 Label_crval2
          (fits_swap_cards_rval_ Label_crpix1 Label_crpix2
             (fits_swap_cards_ival_ Label_naxis1 Label_naxis2 h))),
     transpose_bytes (fits_size_from_bitpix_ bitpix) n1 n2 pData
       (ccalloc_ (Z.to_nat (fits_size_from_bitpix_ bitpix * (n1 * n2))))).
Proof.
  intros H0 H1 H2 Hb. unfold fits_transpose_data_.
  destruct (compute_axes_2 h n1 n2 H0 H1 H2) as (-> & ->).
  change (2 =? 2) with true. cbv iota zeta.
  unfold stored_int. rewrite Hb. reflexivity.
Qed.

Lemma element_take (size N : nat) (l : cbuf) (k : Z) :
  (Z.to_nat k < N)%nat -> (size * N <= length l)%nat ->
  element size (take (size * N) l) k = element size l k.
Proof.
  intros Hk Hl. apply element_ext.
  - rewrite length_take. nia.
  - nia.
  - intros i Hi. unfold at_. rewrite nth_firstn.
    destruct (Nat.ltb_spec (size * Z.to_nat k + i) (size * N)) as [_|H]; [reflexivity|nia].
Qed.

(** One call of [fits_transpose_data_] on a 2-D image. *)
Lemma transpose_once (h : header) (pData : cbuf) (bitpix n1 n2 : Z) :
  ends_with_END h ->
  snd (fits_get_card_ival_ Label_naxis h) = Some 2 ->
  snd (fits_get_card_ival_ Label_naxis1 h) = Some n1 ->
  snd (fits_get_card_ival_ Label_naxis2 h) = Some n2 ->
  snd (fits_get_card_ival_ Label_bitpix h) = Some bitpix ->
  0 < fits_size_from_bitpix_ bitpix ->
  0 <= n1 < 2 ^ 31 -> 0 <= n2 < 2 ^ 31 ->
  (Z.to_nat (fits_size_from_bitpix_ bitpix * (n1 * n2)) <= length pData)%nat ->
  let size := fits_size_from_bitpix_ bitpix in
  let h' := fst (fits_transpose_data_ h pData) in
  let pNew := snd (fits_transpose_data_ h pData) in
  length pNew = Z.to_nat (size * (n1 * n2)) /\
  (forall r c, 0 <= r < n2 -> 0 <= c < n1 ->
     element (Z.to_nat size) pNew (c * n2 + r)
     = element (Z.to_nat size) pData (r * n1 + c)) /\
  ends_with_END h' /\
  snd (fits_get_card_ival_ Label_naxis h') = Some 2 /\
  snd (fits_get_card_ival_ Label_naxis1 h') = Some n2 /\
  snd (fits_get_card_ival_ Label_naxis2 h') = Some n1 /\
  snd (fits_get_card_ival_ Label_bitpix h') = Some bitpix.
Proof.
  intros Hend H0 H1 H2 Hb Hs Hn1 Hn2 Hlen. cbv zeta.
  rewrite (fits_transpose_data_unfold h pData bitpix n1 n2 H0 H1 H2 Hb). cbn [fst snd].
  set (size := fits_size_from_bitpix_ bitpix) in *.
  assert (Hc : length (ccalloc_ (Z.to_nat (size * (n1 * n2)))) = Z.to_nat (size * (n1 * n2)))
    by apply ccalloc_length.
  destruct (transpose_bytes_spec size n1 n2 pData _ Hs ltac:(lia) ltac:(lia) Hc) as (Hl & _).
  cbv zeta in Hl.
  split; [exact Hl|]. split.
  - intros r c Hr Hcc. apply transpose_elements; try assumption; lia.
  - exact (transpose_header h bitpix n1 n2 Hend H0 H1 H2 Hb Hn1 Hn2).
Qed.

(** X22.  [fits_transpose_data_] on a 2-D image whose header ends with
    its only END card: the element at column c, row r of the old array
    is the element at column r, row c of the new one, whatever the
    element size; the cards NAXIS1 and NAXIS2 exchange their values
    while NAXIS and BITPIX keep theirs; and a second call gives the data
    back. *)
Theorem fits_transpose_data_transposes (h : header) (pData : cbuf) (bitpix n1 n2 : Z) :
  ends_with_END h ->
  snd (fits_get_card_ival_ Label_naxis h) = Some 2 ->
  snd (fits_get_card_ival_ Label_naxis1 h) = Some n1 ->
  snd (fits_get_card_ival_ Label_naxis2 h) = Some n2 ->
  snd (fits_get_card_ival_ Label_bitpix h) = Some bitpix ->
  0 < fits_size_from_bitpix_ bitpix ->
  0 <= n1 < 2 ^ 31 -> 0 <= n2 < 2 ^ 31 ->
  (Z.to_nat (fits_size_from_bitpix_ bitpix * (n1 * n2)) <= length pData)%nat ->
  let size := fits_size_from_bitpix_ bitpix in
  let h' := fst (fits_transpose_data_ h pData) in
  let pNew := snd (fits_transpose_data_ h pData) in
  length pNew = Z.to_nat (size * (n1 * n2)) /\
  (forall r c, 0 <= r < n2 -> 0 <= c < n1 ->
     element (Z.to_nat size) pNew (c * n2 + r)
     = element (Z.to_nat size) pData (r * n1 + c)) /\
  snd (fits_get_card_ival_ Label_naxis h') = Some 2 /\
  snd (fits_get_card_ival_ Label_naxis1 h') = Some n2 /\
  snd (fits_get_card_ival_ Label_naxis2 h') = Some n1 /\
  snd (fits_get_card_ival_ Label_bitpix h') = Some bitpix /\
  snd (fits_transpose_data_ h' pNew) = take (Z.to_nat (size * (n1 * n2))) pData.
Proof.
  intros Hend H0 H1 H2 Hb Hs Hn1 Hn2 Hlen size h' pNew.
  destruct (transpose_once h pData bitpix n1 n2 Hend H0 H1 H2 Hb Hs Hn1 Hn2 Hlen)
    as (Hl & Hel & Hend' & H0' & H1' & H2' & Hb').
  cbv zeta in Hl, Hel, Hend', H0', H1', H2', Hb'.
  fold size in Hl, Hel, Hlen. fold h' in Hend', H0', H1', H2', Hb'. fold pNew in Hl, Hel.
  split; [exact Hl|]. split; [exact Hel|].
  split; [exact H0'|]. split; [exact H1'|]. split; [exact H2'|]. split; [exact Hb'|].
  assert (Hmul : size * (n2 * n1) = size * (n1 * n2)) by ring.
  assert (Hlen' : (Z.to_nat (fits_size_from_bitpix_ bitpix * (n2 * n1)) <= length pNew)%nat)
    by (fold size; rewrite Hmul, Hl; lia).
  destruct (transpose_once h' pNew bitpix n2 n1 Hend' H0' H1' H2' Hb' Hs Hn2 Hn1 Hlen')
    as (Hl2 & Hel2 & _).
  cbv zeta in Hl2, Hel2. fold size in Hl2, Hel2.
  set (pBack := snd (fits_transpose_data_ h' pNew)) in *.
  assert (HN : 0 <= n1 * n2) by (apply Z.mul_nonneg_nonneg; lia).
  assert (Esz : Z.to_nat (size * (n1 * n2)) = (Z.to_nat size * Z.to_nat (n1 * n2))%nat)
    by (apply Z2Nat.inj_mul; lia).
  apply (elements_eq (Z.to_nat size) (Z.to_nat (n1 * n2))).
  - lia.
  - rewrite Hl2, Hmul. exact Esz.
  - rewrite length_take. lia.
  - intros k Hk.
    rewrite Esz, element_take by (rewrite ?Nat2Z.id; lia).
    assert (Hpos : 0 < n1) by (destruct (Z.eq_dec n1 0) as [->|]; [simpl in Hk; lia|lia]).
    assert (Ek : Z.of_nat k = Z.of_nat k / n1 * n1 + Z.of_nat k mod n1)
      by (rewrite Z.mul_comm; apply Z.div_mod; lia).
    assert (Hc : 0 <= Z.of_nat k mod n1 < n1) by (apply Z.mod_pos_bound; lia).
    assert (Hr : 0 <= Z.of_nat k / n1 < n2).
    { split; [apply Z.div_pos; lia|]. apply Z.div_lt_upper_bound; lia. }
    rewrite Ek.
    rewrite (Hel2 (Z.of_nat k mod n1) (Z.of_nat k / n1) Hc Hr).
    apply Hel; assumption.
Qed.


End Model.

(** * Concrete instances *)

(** C5: an instance of the lookup theorem, on a two-card header. *)
Lemma fits_find_card_first_exact_match_witness :
  let iCard := fits_find_card_ Label_naxis header_naxis in
  0 <= iCard <= nHead header_naxis /\
  (forall j, 0 <= j < iCard -> take 8 (card_at header_naxis j) <> Label_naxis) /\
  (iCard < nHead header_naxis -> take 8 (card_at header_naxis iCard) = Label_naxis) /\
  (iCard = nHead header_naxis <-> forall c, In c header_naxis -> take 8 c <> Label_naxis).
Proof.
  apply (fits_find_card_first_exact_match Label_naxis header_naxis).
  - reflexivity.
  - vm_compute. intros H. repeat (destruct H as [H|H]; [discriminate H|]). exact H.
Defined.

(** C5, as stated, fails: the label "naxis   " equals the label of card 0
    when case is ignored, yet the lookup reports no match ([nHead]). *)
Lemma fits_find_card_is_case_sensitive :
  label_eq_nocase (lit "naxis   ") (card_at header_naxis 0) = true /\
  fits_find_card_ (lit "naxis   ") header_naxis = nHead header_naxis /\
  nHead header_naxis = 2.
Proof. vm_compute. repeat split. Qed.

(** C9: both fallbacks on the two-card header: no CTYPE1 card, and a
    NAXIS card whose value is not a quoted string. *)
Lemma fits_get_card_string_fallbacks_witness :
  (fst (fits_get_card_string_ junk_x Label_ctype1 header_naxis) = FALSE_MWDUST /\
   snd (fits_get_card_string_ junk_x Label_ctype1 header_naxis) <> None /\
   string_at (snd (fits_get_card_string_ junk_x Label_ctype1 header_naxis)) = lit "?") /\
  (fst (fits_get_card_string_ junk_x Label_naxis header_naxis) = TRUE_MWDUST /\
   snd (fits_get_card_string_ junk_x Label_naxis header_naxis) <> None /\
   string_at (snd (fits_get_card_string_ junk_x Label_naxis header_naxis)) = []).
Proof.
  split.
  - apply (proj1 (fits_get_card_string_fallbacks junk_x Label_ctype1 header_naxis)).
    reflexivity.
  - apply (proj2 (fits_get_card_string_fallbacks junk_x Label_naxis header_naxis)).
    + reflexivity.
    + vm_compute. discriminate.
Defined.

(** C7, as stated, fails: the code 7 has no size, and converting an
    element under it returns the value 0 instead of raising an error. *)
Lemma unsupported_bitpix_returns_zero :
  fits_size_from_bitpix_ 7 = 0 /\
  fits_get_rval_ true 8 no_float no_float 0 7 2 5 (lit "abcd") = 0%R.
Proof. split; reflexivity. Qed.

(** C7: the scaling of the 16-bit integer encoding, and the silent zero
    of the code 7, as instances of the theorem. *)
Lemma bitpix_sizes_and_scaling_witness :
  fits_get_rval_ true 8 no_float no_float 0 16 2 5 (lit "abcd")
  = (fits_get_rval_ true 8 no_float no_float 0 16 1 0 (lit "abcd") * 2 + 5)%R /\
  fits_get_rval_ true 8 no_float no_float 0 7 2 5 (lit "abcd") = 0%R.
Proof.
  split.
  - apply (bitpix_sizes_and_scaling true 8 no_float no_float 16 0 2 5 (lit "abcd")).
    simpl. tauto.
  - apply (bitpix_sizes_and_scaling true 8 no_float no_float 7 0 2 5 (lit "abcd")).
    + reflexivity.
    + discriminate.
Defined.

(** C10: two 16-bit elements. *)
Lemma fits_byteswap_reverses_and_restores_witness :
  fits_byteswap 16 2 (lit "abcd") = lit "badc" /\
  fits_byteswap 16 2 (fits_byteswap 16 2 (lit "abcd")) = lit "abcd".
Proof.
  pose proof (fits_byteswap_reverses_and_restores 16 2 (lit "abcd")) as H.
  destruct H as (Hrev & _ & Hinv).
  - simpl. lia.
  - split; [|exact Hinv]. rewrite Hrev; [reflexivity|simpl; tauto].
Defined.



(** ** The projection on small maps *)

Local Open Scope R_scope.

(** C1: the transform of the direction (30, 45) on the 4 x 4 map. *)
Lemma lambert_lb2fpix_custom_polar_witness :
  lambert_lb2fpix junk_x no_int no_real 30 45 header_lambert
  = (sqrt (1 - 1 * sin (45 / dradeg)) * cos (30 / dradeg) * Q2R 2.0
     + Q2R 2.5 - Q2R 0.0 - 1,
     - (1) * sqrt (1 - 1 * sin (45 / dradeg)) * sin (30 / dradeg) * Q2R 2.0
     + Q2R 2.5 - Q2R 0.0 - 1).
Proof.
  apply (lambert_lb2fpix_custom_polar junk_x no_int no_real header_lambert 30 45 1);
    vm_compute; reflexivity.
Defined.

Lemma Q2R_decimal (n : Z) (d : positive) : Q2R (n # d) = IZR n / IZR (Zpos d).
Proof. reflexivity. Qed.

(** C8: the pole on the standard-convention map. *)
Lemma lambert_lb2fpix_zea_pole_witness :
  lambert_lb2fpix junk_x no_int no_real 0 90 header_zea = (Q2R 2.5 - 1, Q2R 2.5 - 1).
Proof.
  apply (lambert_lb2fpix_zea_pole junk_x no_int no_real header_zea 90.0 2.5 2.5).
  - vm_compute; reflexivity.
  - vm_compute; reflexivity.
  - rewrite Q2R_decimal. rlra.
  - vm_compute; reflexivity.
  - vm_compute; reflexivity.
  - unfold zea_matrix.
    replace (fits_get_card_rval_ Label_cdelt1 header_zea)
      with (TRUE_MWDUST, Some (-0.5)%Q) by (vm_compute; reflexivity).
    replace (fits_get_card_rval_ Label_cdelt2 header_zea)
      with (TRUE_MWDUST, Some 0.5%Q) by (vm_compute; reflexivity).
    cbn [fst snd stored_float]. simpl andb. cbv iota.
    rewrite !Q2R_decimal. rlra.
Defined.

(** C2: the nearest pixel of a direction on the 4 x 4 map. *)
Lemma lambert_lb2pix_rounds_and_clamps_above_witness :
  exists rx ry : Z,
    IZR rx - 1 / 2
    <= fst (lambert_lb2fpix junk_x no_int no_real 30 45 header_lambert)
    < IZR rx + 1 / 2 /\
    IZR ry - 1 / 2
    <= snd (lambert_lb2fpix junk_x no_int no_real 30 45 header_lambert)
    < IZR ry + 1 / 2 /\
    fst (lambert_lb2pix junk_x no_int no_real 30 45 header_lambert) = Z.min rx (4 - 1) /\
    snd (lambert_lb2pix junk_x no_int no_real 30 45 header_lambert) = Z.min ry (4 - 1) /\
    (fst (lambert_lb2pix junk_x no_int no_real 30 45 header_lambert) <= 4 - 1)%Z /\
    (snd (lambert_lb2pix junk_x no_int no_real 30 45 header_lambert) <= 4 - 1)%Z /\
    ((0 <= rx)%Z -> (1 <= 4)%Z ->
     (0 <= fst (lambert_lb2pix junk_x no_int no_real 30 45 header_lambert) <= 4 - 1)%Z) /\
    ((0 <= ry)%Z -> (1 <= 4)%Z ->
     (0 <= snd (lambert_lb2pix junk_x no_int no_real 30 45 header_lambert) <= 4 - 1)%Z).
Proof.
  apply (lambert_lb2pix_rounds_and_clamps_above junk_x no_int no_real
           header_lambert 30 45 4 4); vm_compute; reflexivity.
Defined.

Lemma Zfloor_IZR_half (z : Z) : Zfloor (IZR z + 0.5) = z.
Proof. apply Zfloor_eq. rlra. Qed.

(** C2, as stated, fails: on a map without projection cards the sentinel
    coordinates round to the pixel (-99, -99); and on a map under the
    custom polar convention whose reference pixel lies left of the image,
    the direction l=0, b=0 resolves to the column -10.  Neither index is
    in [0, NAXIS1 - 1] = [0, 3]. *)
Lemma lambert_lb2pix_below_range :
  lambert_lb2pix junk_x no_int no_real 0 0 header_plain = ((-99)%Z, (-99)%Z) /\
  lambert_lb2pix junk_x no_int no_real 0 0 header_lambert_left = ((-10)%Z, 0%Z) /\
  snd (fits_get_card_ival_ Label_naxis1 header_plain) = Some 4%Z /\
  snd (fits_get_card_ival_ Label_naxis1 header_lambert_left) = Some 4%Z.
Proof.
  split; [|split; [|split; vm_compute; reflexivity]].
  - unfold lambert_lb2pix.
    rewrite lb2fpix_unsupported by (vm_compute; discriminate).
    replace (fits_get_card_ival_ Label_naxis1 header_plain)
      with (TRUE_MWDUST, Some 4%Z) by (vm_compute; reflexivity).
    replace (fits_get_card_ival_ Label_naxis2 header_plain)
      with (TRUE_MWDUST, Some 4%Z) by (vm_compute; reflexivity).
    cbn [stored_int snd].
    change (-99) with (IZR (-99)). rewrite Zfloor_IZR_half. reflexivity.
  - unfold lambert_lb2pix.
    rewrite (lb2fpix_lambert junk_x no_int no_real header_lambert_left 0 0 1
               1.0 (-10.0) 1.0 0.0 0.0) by (vm_compute; reflexivity).
    replace (fits_get_card_ival_ Label_naxis1 header_lambert_left)
      with (TRUE_MWDUST, Some 4%Z) by (vm_compute; reflexivity).
    replace (fits_get_card_ival_ Label_naxis2 header_lambert_left)
      with (TRUE_MWDUST, Some 4%Z) by (vm_compute; reflexivity).
    cbn [stored_int snd].
    replace (0 / dradeg) with 0 by (unfold Rdiv; ring).
    rewrite sin_0, cos_0, Rmult_0_r, Rminus_0_r, sqrt_1, !Q2R_decimal.
    replace (1 * 1 * (IZR 10 / IZR 10) + IZR (-100) / IZR 10 - IZR 0 / IZR 10 - 1)
      with (IZR (-10)) by (simpl; field).
    replace (- (1) * 1 * 0 * (IZR 10 / IZR 10) + IZR 10 / IZR 10 - IZR 0 / IZR 10 - 1)
      with (IZR 0) by (simpl; field).
    rewrite !Zfloor_IZR_half. reflexivity.
Qed.

Local Open Scope Z_scope.

(** ** Windowed reads of small files *)



(** ** The sampler on two hemisphere maps *)






(** ** Further instances *)

(** X1: a map without projection cards. *)
Lemma lambert_lb2fpix_unsupported_projection_witness :
  lambert_lb2fpix junk_x no_int no_real 10 20 header_plain = ((-99)%R, (-99)%R) /\
  lambert_lb2pix junk_x no_int no_real 10 20 header_plain = ((-99)%Z, (-99)%Z).
Proof.
  apply (lambert_lb2fpix_unsupported_projection junk_x no_int no_real
           header_plain 10 20 4 4).
  - vm_compute. intros [H _]. discriminate H.
  - vm_compute. intros [H _]. discriminate H.
  - vm_compute. reflexivity.
  - vm_compute. reflexivity.
  - lia.
  - lia.
Defined.

(** X2: the south pole on the standard-convention map of the south. *)
Lemma lambert_lb2fpix_zea_south_pole_witness :
  lambert_lb2fpix junk_x no_int no_real 123 (-90) header_zea_south
  = ((Q2R 2.5 - 1)%R, (Q2R 2.5 - 1)%R).
Proof.
  apply (lambert_lb2fpix_zea_south_pole junk_x no_int no_real header_zea_south
           123 (-90.0) 2.5 2.5).
  - vm_compute; reflexivity.
  - vm_compute; reflexivity.
  - rewrite Q2R_decimal. rlra.
  - vm_compute; reflexivity.
  - vm_compute; reflexivity.
  - unfold zea_matrix.
    replace (fits_get_card_rval_ Label_cdelt1 header_zea_south)
      with (TRUE_MWDUST, Some (-0.5)%Q) by (vm_compute; reflexivity).
    replace (fits_get_card_rval_ Label_cdelt2 header_zea_south)
      with (TRUE_MWDUST, Some 0.5%Q) by (vm_compute; reflexivity).
    cbn [fst snd stored_float]. simpl andb. cbv iota.
    rewrite !Q2R_decimal. rlra.
Defined.

(** X3: the direction (30, 45) in the north, at the scale 2. *)
Lemma lambert_lb2xy_radius_witness :
  (fst (lambert_lb2xy 30 45 1 2) * fst (lambert_lb2xy 30 45 1 2)
   + snd (lambert_lb2xy 30 45 1 2) * snd (lambert_lb2xy 30 45 1 2)
   = 2 * 2 * (1 - IZR 1 * sin (45 / dradeg)))%R.
Proof. apply (lambert_lb2xy_radius 30 45 1 2). left. reflexivity. Defined.

(** X5: a vector of three. *)
Lemma ivector_extrema_witness :
  In (ivector_minimum [3; 1; 2]) [3; 1; 2] /\
  In (ivector_maximum [3; 1; 2]) [3; 1; 2] /\
  forall x, In x [3; 1; 2] ->
            ivector_minimum [3; 1; 2] <= x <= ivector_maximum [3; 1; 2].
Proof. apply (ivector_extrema [3; 1; 2]). discriminate. Defined.

(** X6: an axis of four pixels. *)
Lemma interp_pixel_weight_witness :
  0 <= fst (interp_pixel 1.5 4) <= 4 - 2 /\
  ((0 <= 1.5 < IZR (4 - 1))%R ->
   (IZR (fst (interp_pixel 1.5 4)) <= 1.5 < IZR (fst (interp_pixel 1.5 4)) + 1)%R /\
   snd (interp_pixel 1.5 4) = (IZR (fst (interp_pixel 1.5 4)) + 1 - 1.5)%R) /\
  ((0 <= 1.5 \/ 1.5 <= -1)%R -> (0 <= snd (interp_pixel 1.5 4) <= 1)%R) /\
  ((-1 < 1.5 < 0)%R ->
   fst (interp_pixel 1.5 4) = 0 /\ snd (interp_pixel 1.5 4) = (1 - 1.5)%R /\
   (1 < snd (interp_pixel 1.5 4))%R).
Proof. apply (interp_pixel_weight 1.5 4). lia. Defined.

Lemma zea_matrix_north :
  zea_matrix no_real header_zea = (Q2R (-0.5), 0%R, 0%R, Q2R 0.5).
Proof.
  unfold zea_matrix.
  replace (fits_get_card_rval_ Label_cdelt1 header_zea)
    with (TRUE_MWDUST, Some (-0.5)%Q) by (vm_compute; reflexivity).
  replace (fits_get_card_rval_ Label_cdelt2 header_zea)
    with (TRUE_MWDUST, Some 0.5%Q) by (vm_compute; reflexivity).
  reflexivity.
Qed.

(** X4: the direction (30, 45) on the standard-convention map. *)
Lemma lambert_lb2fpix_zea_radius_witness :
  let p := lambert_lb2fpix junk_x no_int no_real 30 45 header_zea in
  let dX := (fst p - (Q2R 2.5 - 1))%R in
  let dY := (snd p - (Q2R 2.5 - 1))%R in
  let theta :=
    if Rlt_dec 89.9999 (Q2R 90.0) then 45%R
    else if Rlt_dec (Q2R 90.0) (-89.9999) then (- 45)%R else 45%R in
  let Rtheta := (2 * dradeg * sin (0.5 / dradeg * (90 - theta)))%R in
  ((Q2R (-0.5) * dX + 0 * dY) * (Q2R (-0.5) * dX + 0 * dY)
   + (0 * dX + Q2R 0.5 * dY) * (0 * dX + Q2R 0.5 * dY)
   = Rtheta * Rtheta)%R.
Proof.
  apply (lambert_lb2fpix_zea_radius junk_x no_int no_real header_zea 30 45
           90.0 2.5 2.5 (Q2R (-0.5)) 0 0 (Q2R 0.5)).
  - vm_compute; reflexivity.
  - vm_compute; reflexivity.
  - vm_compute; reflexivity.
  - vm_compute; reflexivity.
  - exact zea_matrix_north.
  - rewrite !Q2R_decimal. rlra.
Defined.






(** X13: NAXIS = 2 and NAXIS1 = 4 of the 4 x 4 map exchanged. *)
Lemma fits_swap_cards_ival_exchanges_witness :
  fits_get_card_ival_ Label_naxis
    (fits_swap_cards_ival_ junk_x no_int Label_naxis Label_naxis1 header_lambert)
  = (TRUE_MWDUST, Some 4) /\
  fits_get_card_ival_ Label_naxis1
    (fits_swap_cards_ival_ junk_x no_int Label_naxis Label_naxis1 header_lambert)
  = (TRUE_MWDUST, Some 2) /\
  nHead (fits_swap_cards_ival_ junk_x no_int Label_naxis Label_naxis1 header_lambert)
  = nHead header_lambert /\
  forall l, length l = 8%nat -> ~ In NUL l -> l <> Label_naxis -> l <> Label_naxis1 ->
    fits_get_card_ival_ l
      (fits_swap_cards_ival_ junk_x no_int Label_naxis Label_naxis1 header_lambert)
    = fits_get_card_ival_ l header_lambert /\
    fits_get_card_rval_ l
      (fits_swap_cards_ival_ junk_x no_int Label_naxis Label_naxis1 header_lambert)
    = fits_get_card_rval_ l header_lambert.
Proof.
  apply (fits_swap_cards_ival_exchanges junk_x no_int Label_naxis Label_naxis1
           header_lambert 2 4).
  - reflexivity.
  - repeat (constructor; [split; reflexivity|]). constructor.
  - reflexivity.
  - reflexivity.
  - repeat (constructor; [split; reflexivity|]). constructor.
  - reflexivity.
  - discriminate.
  - vm_compute. reflexivity.
  - vm_compute. reflexivity.
  - vm_compute. lia.
  - vm_compute. lia.
Defined.

(** X14: a NAXIS1 card added to the two-card header and deleted again. *)
Lemma fits_add_card_then_delete_witness :
  let pCard := lit "NAXIS1  =                    4" in
  let h' := fst (fits_add_card_ junk_x pCard header_naxis) in
  snd (fits_add_card_ junk_x pCard header_naxis) = nHead header_naxis - 1 /\
  nHead h' = nHead header_naxis + 1 /\
  (forall j, 0 <= j < nHead header_naxis - 1 -> card_at h' j = card_at header_naxis j) /\
  card_at h' (nHead header_naxis - 1) = fits_string_to_card_ pCard /\
  card_at h' (nHead header_naxis) = Card_end /\
  ends_with_END h' /\
  fits_delete_card_ (take 8 (fits_string_to_card_ pCard)) h'
  = (header_naxis, nHead header_naxis - 1).
Proof.
  apply (fits_add_card_then_delete junk_x (lit "NAXIS1  =                    4")
           header_naxis).
  - exists [card_of "NAXIS   =                    2"]. split; [reflexivity|].
    intros c [Hc|[]]. subst c. vm_compute. discriminate.
  - vm_compute. reflexivity.
Defined.

(** X15: the header with three blank cards, the last of them at its end:
    the three are removed and two are counted. *)
Lemma fits_purge_blank_cards_removes_blanks_witness :
  fits_purge_blank_cards_ 10 header_blanks
  = [card_of "NAXIS   =                    2";
     card_of "NAXIS1  =                    4"; Card_end] /\
  fits_purge_blank_cards_count 10 header_blanks 0
  = ([card_of "NAXIS   =                    2";
      card_of "NAXIS1  =                    4"; Card_end], 2).
Proof.
  destruct (fits_purge_blank_cards_removes_blanks 10 header_blanks) as [H1 H2].
  - vm_compute. lia.
  - split; [rewrite H1|rewrite H2]; vm_compute; reflexivity.
Defined.

(** X16: an axis type written under CTYPE1 in the two-card header. *)
Lemma change_then_get_card_string_witness :
  (fst (fits_get_card_string_ junk_x Label_ctype1
          (fst (fits_change_card_string_ junk_x (lit "GLON-ZEA  ") Label_ctype1
                  header_naxis))) = TRUE_MWDUST /\
   string_at (snd (fits_get_card_string_ junk_x Label_ctype1
          (fst (fits_change_card_string_ junk_x (lit "GLON-ZEA  ") Label_ctype1
                  header_naxis)))) = lit "GLON-ZEA") /\
  (fst (fits_get_card_string_ junk_x Label_ctype1
          (fst (fits_add_card_string_ junk_x (lit "GLON-ZEA  ") Label_ctype1
                  header_naxis))) = TRUE_MWDUST /\
   string_at (snd (fits_get_card_string_ junk_x Label_ctype1
          (fst (fits_add_card_string_ junk_x (lit "GLON-ZEA  ") Label_ctype1
                  header_naxis)))) = lit "GLON-ZEA").
Proof.
  destruct (change_then_get_card_string junk_x Label_ctype1 (lit "GLON-ZEA  ")
              header_naxis) as [Hc Ha].
  - reflexivity.
  - repeat (constructor; [split; reflexivity|]). constructor.
  - reflexivity.
  - split; [repeat (constructor; [split; reflexivity|]); constructor|].
    repeat (constructor; [reflexivity|]). constructor.
  - split; [exact Hc|]. apply Ha. vm_compute. reflexivity.
Defined.

(** ** Headers on files and required cards *)

(** X17: the file of the 4 x 4 map, whose END card is the card 12. *)
Lemma fits_skip_header_ends_at_block_witness :
  fits_skip_header_ (fopen file_lambert) = Some (mkFILE file_lambert 2880) /\
  exists h, fits_read_fits_header_ junk_x no_int (fopen file_lambert)
            = Some (mkFILE file_lambert 2880, h).
Proof.
  apply (fits_skip_header_ends_at_block junk_x no_int file_lambert 12).
  - intros i Hi.
    do 12 (destruct i as [|i]; [vm_compute; discriminate|]). lia.
  - vm_compute. reflexivity.
Defined.

(** X19: the header of a 4 x 4 map without projection cards, written to
    a new file and read back. *)
Lemma fits_write_then_read_header_witness :
  fits_read_file_fits_header_only_ junk_x no_int
    (f_data (fits_write_fits_header_ header_plain fopen_write))
  = Some header_plain /\
  Z.of_nat (length (f_data (fits_write_fits_header_ header_plain fopen_write))) = 2880.
Proof.
  destruct (fits_write_then_read_header junk_x no_int
              [card_of "NAXIS   =                    2";
               card_of "NAXIS1  =                    4";
               card_of "NAXIS2  =                    4"])
    as (_ & Hlen & _ & _ & Hback).
  - repeat (constructor; [split; [vm_compute; reflexivity|vm_compute; discriminate]|]).
    constructor.
  - split.
    + apply Hback; vm_compute; reflexivity.
    + exact Hlen.
Defined.


(** X21: the 4 x 4 map without projection cards. *)
Lemma fits_compute_ndata_product_witness :
  let pNaxis := snd (fits_compute_axes_ no_int header_plain) in
  fst (fits_compute_axes_ no_int header_plain) = 2 /\
  length pNaxis = Z.to_nat 2 /\
  (forall k, 1 <= k <= 2 ->
     zat pNaxis (Z.to_nat (k - 1))
     = match snd (fits_get_card_ival_ (axis_label k) header_plain) with
       | Some v => v
       | None => if k =? 1 then no_int "ival" else zat pNaxis (Z.to_nat (k - 2))
       end) /\
  fits_compute_ndata_ no_int header_plain = (if 2 =? 0 then 0 else product pNaxis) /\
  (2 < 0 -> fits_compute_ndata_ no_int header_plain = 1).
Proof.
  apply (fits_compute_ndata_product no_int header_plain 2).
  - vm_compute. reflexivity.
  - lia.
Defined.

(** ** Transposition of a small map *)

Lemma ends_with_END_lambert : ends_with_END header_lambert.
Proof.
  exists (removelast header_lambert). split; [reflexivity|].
  intros c Hc. cbn [removelast header_lambert] in Hc.
  repeat (destruct Hc as [<-|Hc]; [vm_compute; discriminate|]). destruct Hc.
Qed.

(** X22: the 4 x 4 map of 4-byte pixels. *)
Lemma fits_transpose_data_transposes_witness :
  let h' := fst (fits_transpose_data_ junk_x no_int no_rval header_lambert pixels_4x4) in
  let pNew := snd (fits_transpose_data_ junk_x no_int no_rval header_lambert pixels_4x4) in
  length pNew = Z.to_nat (4 * (4 * 4)) /\
  (forall r c, 0 <= r < 4 -> 0 <= c < 4 ->
     element (Z.to_nat 4) pNew (c * 4 + r) = element (Z.to_nat 4) pixels_4x4 (r * 4 + c)) /\
  snd (fits_get_card_ival_ Label_naxis h') = Some 2 /\
  snd (fits_get_card_ival_ Label_naxis1 h') = Some 4 /\
  snd (fits_get_card_ival_ Label_naxis2 h') = Some 4 /\
  snd (fits_get_card_ival_ Label_bitpix h') = Some (-32) /\
  snd (fits_transpose_data_ junk_x no_int no_rval h' pNew)
  = take (Z.to_nat (4 * (4 * 4))) pixels_4x4.
Proof.
  apply (fits_transpose_data_transposes junk_x no_int no_rval header_lambert pixels_4x4
           (-32) 4 4).
  - exact ends_with_END_lambert.
  - vm_compute. reflexivity.
  - vm_compute. reflexivity.
  - vm_compute. reflexivity.
  - vm_compute. reflexivity.
  - reflexivity.
  - vm_compute. split; [discriminate|reflexivity].
  - vm_compute. split; [discriminate|reflexivity].
  - vm_compute. lia.
Defined.
